(** * The libsoup transfer engine (soup-transfer.c, soup-misc.c)

    A shallow embedding of the reader and writer state machines of
    [soup-transfer.c], of the chunked decoder they rest on and of
    [soup_substring_index] from [soup-misc.c]; then of the string helpers
    of [soup-misc.c]: [soup_base64_encode], [soup_str_case_hash] with
    [soup_str_case_equal], and [soup_config_security_policy].

    Conventions of the embedding.
    - A [GByteArray] is the list of its [len] live bytes.  Bytes past [len]
      (spare capacity) are not represented: wherever the C code would read
      them the embedding answers [Undef]; where it writes them and then
      takes them into [len] (only [remove_block_at_index], given a negative
      length) the list grows by the bytes written.
    - [gint] and [guint] values are integers of [Z].  Lengths of arrays and
      offsets bounded by them are taken as they are (a [GByteArray] is far
      shorter than 2^31 bytes); the other arithmetic, which can leave the
      32-bit range (decoded chunk sizes, the chunk state, counters, the
      content length), is wrapped explicitly with [gint_wrap] and
      [guint_wrap].
    - A failing [g_assert] aborts the process: outcome [Abort].
    - Callbacks are functions over the caller's [user_data]; every call the
      engine makes to a callback, to the channel or to glib's teardown
      functions is recorded, in order, in a trace of events. *)

From Stdlib Require Import ZArith List Ascii String Bool Lia.
Import ListNotations.

Open Scope Z_scope.

(** ** Outcomes of fallible code *)

Inductive outcome (A : Type) : Type :=
| Done (a : A)   (* normal return *)
| Abort          (* a g_assert failed *)
| Undef.         (* the execution leaves what C defines or what is modelled *)

Arguments Done {A} a.
Arguments Abort {A}.
Arguments Undef {A}.

Definition obind {A B : Type} (m : outcome A) (k : A -> outcome B) : outcome B :=
  match m with
  | Done a => k a
  | Abort => Abort
  | Undef => Undef
  end.

Notation "'do' x <- m ; k" := (obind m (fun x => k))
  (at level 10, x name, m at level 100, k at level 200).

(** ** Machine integers *)

Definition guint_wrap (z : Z) : Z := z mod 2 ^ 32.
Definition gint_wrap (z : Z) : Z := (z + 2 ^ 31) mod 2 ^ 32 - 2 ^ 31.

(** [x << n] on a [gint].  C leaves the shift undefined for [n >= 32] and
    for results outside the type; the embedding wraps, as two's complement
    hardware does for [n < 32]. *)
Definition gint_shl (x n : Z) : Z := gint_wrap (Z.shiftl x n).

(** ** Bytes and byte arrays *)

Definition GByteArray : Type := list ascii.

Definition arr_len (arr : GByteArray) : Z := Z.of_nat (List.length arr).

Definition code (c : ascii) : Z := Z.of_N (N_of_ascii c).

Definition NUL : ascii := ascii_of_N 0.
Definition CR : ascii := ascii_of_N 13.
Definition LF : ascii := ascii_of_N 10.
Definition CRLF : list ascii := [CR; LF].
Definition bytes (s : string) : list ascii := list_ascii_of_string s.

(** <ctype.h> in the C locale. *)
Definition isdigit (c : ascii) : bool := (48 <=? code c) && (code c <=? 57).

Definition isxdigit (c : ascii) : bool :=
  isdigit c
  || ((65 <=? code c) && (code c <=? 70))
  || ((97 <=? code c) && (code c <=? 102)).

Definition tolower (c : ascii) : Z :=
  if (65 <=? code c) && (code c <=? 90) then code c + 32 else code c.

(** *** soup_substring_index (soup-misc.c) *)

(** [memcmp (&str[i], substr, sublen) == 0] *)
Fixpoint starts_with (substr str : list ascii) : bool :=
  match substr, str with
  | [], _ => true
  | _ :: _, [] => false
  | a :: substr', b :: str' => Ascii.eqb a b && starts_with substr' str'
  end.

(** [str[i] == substr[0]]: [substr] is a C string, so the byte at its end,
    read here when it is empty, is the terminating NUL. *)
Definition first_byte_matches (substr str : list ascii) : bool :=
  match str with
  | c :: _ => Ascii.eqb c (hd NUL substr)
  | [] => false
  end.

(** The [for] loop: [room] start positions are left, the next one is [i]. *)
Fixpoint substring_scan (substr str : list ascii) (room : nat) (i : Z) : Z :=
  match room with
  | O => -1
  | S room' =>
      if first_byte_matches substr str && starts_with substr str then i
      else substring_scan substr (tl str) room' (i + 1)
  end.

(** [str] is the memory from the pointer on, [len] the length passed. *)
Definition soup_substring_index (str : list ascii) (len : Z) (substr : list ascii) : Z :=
  let sublen := Z.of_nat (List.length substr) in
  substring_scan substr str (Z.to_nat (len - sublen + 1)) 0.

(** *** remove_block_at_index *)

(** [g_memmove (mem + dst, mem + src, n)] on the bytes of one array; bytes
    written behind the last byte of [mem] are appended to it. *)
Definition g_memmove (mem : list ascii) (dst src n : nat) : list ascii :=
  firstn dst mem ++ firstn n (skipn src mem) ++ skipn (dst + n) mem.

(** [g_byte_array_set_size]: the first [n] bytes are kept. *)
Definition g_byte_array_set_size (arr : GByteArray) (n : nat) : GByteArray :=
  firstn n arr.

(** The function checks [length != 0] and the assertion, nothing else.  A
    negative [length] that passes the assertion moves the tail towards the
    end and sets a larger size: the array grows by [- length] bytes, written
    into the room the array keeps behind its bytes (the capacity itself is not
    part of the embedding).  [Undef] is left for what no list of bytes
    describes: [data] or [data + length] before the first byte of the array,
    and [data] behind the last one, where growing takes in bytes that were
    never written. *)
Definition remove_block_at_index (arr : GByteArray) (offset blen : Z)
  : outcome GByteArray :=
  if blen =? 0 then Done arr                        (* g_return_if_fail *)
  else if arr_len arr <? guint_wrap (offset + blen) then Abort   (* g_assert *)
  else if (offset <? 0) || (offset + blen <? 0) || (arr_len arr <? offset)
  then Undef
  else
    let moved :=
      g_memmove arr (Z.to_nat offset) (Z.to_nat (offset + blen))
                (Z.to_nat (arr_len arr - offset - blen)) in
    Done (g_byte_array_set_size moved (Z.to_nat (arr_len arr - blen))).

(** *** decode_hex *)

(** [while (isxdigit ( *src)) { ( *width)++; src++; }] *)
Fixpoint hex_width (src : list ascii) : nat :=
  match src with
  | c :: src' => if isxdigit c then S (hex_width src') else O
  | [] => O
  end.

(** [for (j = *width - 1; j + 1; j--)], entered with [n = j + 1]. *)
Fixpoint decode_hex_loop (n : nat) (src : list ascii) (new_len : Z) : Z :=
  match n with
  | O => new_len
  | S j =>
      let c := hd NUL src in
      let digit := if isdigit c then code c - 48 else tolower c - 87 in
      decode_hex_loop j (tl src)
        (gint_wrap (new_len + gint_shl digit (4 * Z.of_nat j)))
  end.

(** Returns [(new_len, *width)]. *)
Definition decode_hex (src : list ascii) : Z * Z :=
  let width := hex_width src in
  (decode_hex_loop width src 0, Z.of_nat width).

(** ** The chunked decoder *)

Module Decoder.

Record SoupTransferChunkState : Type := mkChunkState { len : Z; idx : Z }.

Record decoded : Type := mkDecoded {
  d_state : SoupTransferChunkState;
  d_arr : GByteArray;
  d_datalen : Z;
  d_ret : bool
}.

(** The test that a chunk header line is complete. *)
Definition header_line_missing (s : SoupTransferChunkState) (arr : GByteArray) : bool :=
  if negb (len s =? 0) then
    soup_substring_index
      (skipn (Z.to_nat (guint_wrap (idx s + len s) + 2)) arr)
      (gint_wrap (arr_len arr - idx s - len s - 2)) CRLF <=? 0
  else soup_substring_index arr (arr_len arr) CRLF <=? 0.

(** One turn of the [while (TRUE)] loop; [None] is [break]. *)
Definition decode_chunk_step (d : decoded) : outcome (option decoded) :=
  let s := d_state d in
  let arr := d_arr d in
  if arr_len arr <? guint_wrap (idx s + len s + 5) then Done None
  else if header_line_missing s arr then Done None
  else
    do arr1 <- (if negb (len s =? 0)
                then remove_block_at_index arr (gint_wrap (idx s + len s)) 2
                else Done arr);
    let i := skipn (Z.to_nat (guint_wrap (idx s + len s))) arr1 in
    (* decode_hex stops at the first byte that is no hex digit; when there is
       none among the live bytes the C code goes on into spare capacity *)
    if Nat.eqb (hex_width i) (List.length i) then Undef
    else
      let '(new_len, width) := decode_hex i in
      if new_len <? 0 then Abort                    (* g_assert (new_len >= 0) *)
      else
        let idx' := guint_wrap (idx s + len s) in
        let datalen' := gint_wrap (d_datalen d + len s) in
        let hlen :=
          gint_wrap (width +
            soup_substring_index
              (skipn (Z.to_nat (idx' + width)) arr1)
              (gint_wrap (arr_len arr1 - idx' - width)) CRLF) in
        let hlen' := if new_len =? 0 then gint_wrap (hlen + 2) else hlen in
        let ret' := if new_len =? 0 then true else d_ret d in
        do arr2 <- remove_block_at_index arr1 (gint_wrap idx') (gint_wrap (hlen' + 2));
        Done (Some (mkDecoded (mkChunkState new_len idx') arr2 datalen' ret')).

Fixpoint decode_chunk_loop (fuel : nat) (d : decoded) : outcome decoded :=
  match fuel with
  | O => Undef
  | S fuel' =>
      do next <- decode_chunk_step d;
      match next with
      | None => Done d
      | Some d' => decode_chunk_loop fuel' d'
      end
  end.

(** Every turn that does not break takes at least one byte out of the array,
    so [S (length arr)] turns are enough (lemma [decode_chunk_fuel]). *)
Definition decode_chunk (s : SoupTransferChunkState) (arr : GByteArray)
  : outcome decoded :=
  decode_chunk_loop (S (List.length arr)) (mkDecoded s arr 0 false).

End Decoder.

(** ** Types of soup-transfer.h *)

(** Modelled from the spec: the enumeration [SoupTransferEncoding] of
    soup-transfer.h, which is not among the sources; the spec's data model
    lists the three encodings. *)
Inductive SoupTransferEncoding : Type :=
| SOUP_TRANSFER_UNKNOWN
| SOUP_TRANSFER_CHUNKED
| SOUP_TRANSFER_CONTENT_LENGTH.

(** Modelled from the spec: the verdict a callback returns
    ([SoupTransferDone], in the writer [SoupTransferStatus]), declared in
    soup-transfer.h: continue or end. *)
Inductive SoupTransferDone : Type :=
| SOUP_TRANSFER_END
| SOUP_TRANSFER_CONTINUE.

(** Modelled from the spec: the ownership tag of a data buffer, declared
    with [SoupDataBuffer] outside the sources. *)
Inductive SoupOwnership : Type :=
| SOUP_BUFFER_SYSTEM_OWNED
| SOUP_BUFFER_USER_OWNED
| SOUP_BUFFER_STATIC.

(** Modelled from the spec: [SoupDataBuffer], a region with its ownership
    tag; the C initialisers give the fields in this order. *)
Record SoupDataBuffer : Type := mkBuffer {
  owner : SoupOwnership;
  body : list ascii;
  length : Z
}.

Definition encoding_eqb (a b : SoupTransferEncoding) : bool :=
  match a, b with
  | SOUP_TRANSFER_UNKNOWN, SOUP_TRANSFER_UNKNOWN
  | SOUP_TRANSFER_CHUNKED, SOUP_TRANSFER_CHUNKED
  | SOUP_TRANSFER_CONTENT_LENGTH, SOUP_TRANSFER_CONTENT_LENGTH => true
  | _, _ => false
  end.

(** ** Observable effects *)

Inductive event : Type :=
| EvReadHeadersDone (str : list ascii)      (* ( *r->headers_done_cb) (&str, ...) *)
| EvReadChunk (buf : SoupDataBuffer)        (* ( *r->read_chunk_cb) (&buf, ...) *)
| EvReadDone (buf : SoupDataBuffer)         (* ( *r->read_done_cb) (&buf, ...) *)
| EvReadError (body_started : bool)         (* ( *r->error_cb) (body_started, ...) *)
| EvWriteHeadersDone                        (* ( *w->headers_done_cb) (...) *)
| EvWriteChunk                              (* ( *w->write_chunk_cb) (&buf, ...) *)
| EvWriteDone                               (* ( *w->write_done_cb) (...) *)
| EvWriteError (headers_done : bool)        (* ( *w->error_cb) (headers_done, ...) *)
| EvChannelWrite (data : list ascii)        (* bytes the channel accepted *)
| EvSourceRemove (tag : Z)                  (* g_source_remove *)
| EvByteArrayFree (free_segment : bool)     (* g_byte_array_free *)
| EvFree.                                   (* g_free of the reader or writer *)

Definition traced (A : Type) : Type := (list event * A)%type.

(** Code that both leaves a trace and may fail: the trace up to the failure
    is kept. *)
Definition M (A : Type) : Type := traced (outcome A).

Definition ret {A : Type} (a : A) : M A := ([], Done a).

Definition bind {A B : Type} (m : M A) (k : A -> M B) : M B :=
  match m with
  | (t, Done a) => let '(t', o) := k a in (t ++ t', o)
  | (t, Abort) => (t, Abort)
  | (t, Undef) => (t, Undef)
  end.

Definition lift {A : Type} (m : traced A) : M A := (fst m, Done (snd m)).
Definition of_outcome {A : Type} (o : outcome A) : M A := ([], o).

Notation "x <~ m ;; k" := (bind m (fun x => k))
  (at level 61, m at next level, right associativity).

(** ** The reader *)

(** What one [g_io_channel_read] answers: [G_IO_ERROR_NONE] with the bytes
    read (none at end of stream), [G_IO_ERROR_AGAIN], or another error. *)
Inductive read_result : Type :=
| ReadOk (data : list ascii)
| ReadAgain
| ReadError.

Module Reader.

Import Decoder.

Section WithUserData.

Context {U : Type}.

(** Modelled from the spec: the callback types of soup-transfer.h.  The
    headers-done callback receives the header block and may set the encoding
    and the content length through the two pointers it is given. *)
Definition SoupReadHeadersDoneFn : Type :=
  list ascii -> SoupTransferEncoding -> Z -> U ->
  SoupTransferDone * SoupTransferEncoding * Z * U.
Definition SoupReadChunkFn : Type := SoupDataBuffer -> U -> SoupTransferDone * U.
Definition SoupReadDoneFn : Type := SoupDataBuffer -> U -> U.
Definition SoupReadErrorFn : Type := bool -> U -> U.

Record SoupReader : Type := mkReader {
  channel : Z;
  read_tag : Z;
  err_tag : Z;
  callback_issued : bool;
  processing : bool;
  recv_buf : GByteArray;
  header_len : Z;
  overwrite_chunks : bool;
  encoding : SoupTransferEncoding;
  content_length : Z;
  chunk_state : SoupTransferChunkState;
  headers_done_cb : option SoupReadHeadersDoneFn;
  read_chunk_cb : option SoupReadChunkFn;
  read_done_cb : option SoupReadDoneFn;
  error_cb : option SoupReadErrorFn;
  user_data : U
}.

Definition set_callback_issued (r : SoupReader) (b : bool) : SoupReader :=
  mkReader (channel r) (read_tag r) (err_tag r) b (processing r) (recv_buf r)
    (header_len r) (overwrite_chunks r) (encoding r) (content_length r)
    (chunk_state r) (headers_done_cb r) (read_chunk_cb r) (read_done_cb r)
    (error_cb r) (user_data r).

Definition set_processing (r : SoupReader) (b : bool) : SoupReader :=
  mkReader (channel r) (read_tag r) (err_tag r) (callback_issued r) b (recv_buf r)
    (header_len r) (overwrite_chunks r) (encoding r) (content_length r)
    (chunk_state r) (headers_done_cb r) (read_chunk_cb r) (read_done_cb r)
    (error_cb r) (user_data r).

Definition set_recv_buf (r : SoupReader) (arr : GByteArray) : SoupReader :=
  mkReader (channel r) (read_tag r) (err_tag r) (callback_issued r) (processing r) arr
    (header_len r) (overwrite_chunks r) (encoding r) (content_length r)
    (chunk_state r) (headers_done_cb r) (read_chunk_cb r) (read_done_cb r)
    (error_cb r) (user_data r).

Definition set_header_len (r : SoupReader) (n : Z) : SoupReader :=
  mkReader (channel r) (read_tag r) (err_tag r) (callback_issued r) (processing r)
    (recv_buf r) n (overwrite_chunks r) (encoding r) (content_length r)
    (chunk_state r) (headers_done_cb r) (read_chunk_cb r) (read_done_cb r)
    (error_cb r) (user_data r).

Definition set_encoding (r : SoupReader) (e : SoupTransferEncoding) : SoupReader :=
  mkReader (channel r) (read_tag r) (err_tag r) (callback_issued r) (processing r)
    (recv_buf r) (header_len r) (overwrite_chunks r) e (content_length r)
    (chunk_state r) (headers_done_cb r) (read_chunk_cb r) (read_done_cb r)
    (error_cb r) (user_data r).

Definition set_content_length (r : SoupReader) (n : Z) : SoupReader :=
  mkReader (channel r) (read_tag r) (err_tag r) (callback_issued r) (processing r)
    (recv_buf r) (header_len r) (overwrite_chunks r) (encoding r) n
    (chunk_state r) (headers_done_cb r) (read_chunk_cb r) (read_done_cb r)
    (error_cb r) (user_data r).

Definition set_chunk_state (r : SoupReader) (s : SoupTransferChunkState) : SoupReader :=
  mkReader (channel r) (read_tag r) (err_tag r) (callback_issued r) (processing r)
    (recv_buf r) (header_len r) (overwrite_chunks r) (encoding r) (content_length r)
    s (headers_done_cb r) (read_chunk_cb r) (read_done_cb r)
    (error_cb r) (user_data r).

Definition set_user_data (r : SoupReader) (u : U) : SoupReader :=
  mkReader (channel r) (read_tag r) (err_tag r) (callback_issued r) (processing r)
    (recv_buf r) (header_len r) (overwrite_chunks r) (encoding r) (content_length r)
    (chunk_state r) (headers_done_cb r) (read_chunk_cb r) (read_done_cb r)
    (error_cb r) u.

(** [IGNORE_CANCEL] and [UNIGNORE_CANCEL] *)
Definition IGNORE_CANCEL (r : SoupReader) : SoupReader := set_processing r true.
Definition UNIGNORE_CANCEL (r : SoupReader) : SoupReader := set_processing r false.

(** The reader that is left ([None] once freed) and the teardown calls. *)
Definition soup_transfer_read_cancel (r : SoupReader) : traced (option SoupReader) :=
  if processing r then ([], Some r)
  else
    ([EvSourceRemove (read_tag r);
      EvSourceRemove (err_tag r);
      EvByteArrayFree (if callback_issued r then false else true);
      EvFree],
     None).

Definition soup_transfer_read_set_callbacks (r : SoupReader)
    (headers_done_cb' : option SoupReadHeadersDoneFn)
    (read_chunk_cb' : option SoupReadChunkFn)
    (read_done_cb' : option SoupReadDoneFn)
    (error_cb' : option SoupReadErrorFn)
    (user_data' : U) : SoupReader :=
  mkReader (channel r) (read_tag r) (err_tag r) (callback_issued r) (processing r)
    (recv_buf r) (header_len r) (overwrite_chunks r) (encoding r) (content_length r)
    (chunk_state r) headers_done_cb' read_chunk_cb' read_done_cb' error_cb' user_data'.

Definition issue_final_callback (r : SoupReader) : traced SoupReader :=
  let r := set_recv_buf r (recv_buf r ++ [NUL]) in
  match read_done_cb r with
  | Some cb =>
      let buf :=
        mkBuffer SOUP_BUFFER_SYSTEM_OWNED
          (firstn (Z.to_nat (arr_len (recv_buf r) - 1)) (recv_buf r))
          (arr_len (recv_buf r) - 1) in
      let r := set_callback_issued r true in
      let r := IGNORE_CANCEL r in
      let r := set_user_data r (cb buf (user_data r)) in
      ([EvReadDone buf], UNIGNORE_CANCEL r)
  | None => ([], r)
  end.

(** The handler's return value ([keep_source]: the watch stays armed), the
    reader that is left, and the teardown performed. *)
Record handler_exit : Type := mkExit {
  keep_source : bool;
  survivor : option SoupReader
}.

Definition soup_transfer_read_error_cb (r : SoupReader) : traced handler_exit :=
  let body_started := header_len r <? arr_len (recv_buf r) in
  if encoding_eqb (encoding r) SOUP_TRANSFER_UNKNOWN then
    let '(t1, r1) := issue_final_callback r in
    let '(t2, o) := soup_transfer_read_cancel r1 in
    (t1 ++ t2, mkExit false o)
  else
    let r := IGNORE_CANCEL r in
    let '(t1, r1) :=
      match error_cb r with
      | Some cb => ([EvReadError body_started],
                    set_user_data r (cb body_started (user_data r)))
      | None => ([], r)
      end in
    let r2 := UNIGNORE_CANCEL r1 in
    let '(t2, o) := soup_transfer_read_cancel r2 in
    (t1 ++ t2, mkExit false o).

(** Returns the reader and [*cancelled]. *)
Definition issue_chunk_callback (r : SoupReader) (data : list ascii) (dlen : Z)
    (cancelled : bool) : traced (SoupReader * bool) :=
  match read_chunk_cb r with
  | Some cb =>
      if negb (dlen =? 0) then
        let buf := mkBuffer SOUP_BUFFER_SYSTEM_OWNED (firstn (Z.to_nat dlen) data) dlen in
        let r := set_callback_issued r true in
        let r := IGNORE_CANCEL r in
        let '(cont, u) := cb buf (user_data r) in
        let r := UNIGNORE_CANCEL (set_user_data r u) in
        ([EvReadChunk buf],
         (r, match cont with SOUP_TRANSFER_END => true | _ => false end))
      else ([], (r, cancelled))
  | None => ([], (r, cancelled))
  end.

(** The three body steps return the reader, [*cancelled] and their result. *)
Definition read_chunk (r : SoupReader) (cancelled : bool)
  : M (SoupReader * bool * bool) :=
  d <~ of_outcome (decode_chunk (chunk_state r) (recv_buf r)) ;;
  let r := set_recv_buf (set_chunk_state r (d_state d)) (d_arr d) in
  if d_datalen d =? 0 then ret (r, cancelled, d_ret d)
  else
    rc <~ lift (issue_chunk_callback r (recv_buf r)
                  (gint_wrap (idx (chunk_state r))) cancelled) ;;
    let '(r, cancelled) := rc in
    if cancelled then ret (r, cancelled, d_ret d)
    else if overwrite_chunks r then
      arr <~ of_outcome (remove_block_at_index (recv_buf r) 0
                    (gint_wrap (idx (chunk_state r)))) ;;
      let r := set_recv_buf r arr in
      let r := set_chunk_state r (mkChunkState (len (chunk_state r)) 0) in
      ret (r, cancelled, d_ret d)
    else ret (r, cancelled, d_ret d).

Definition read_content_length (r : SoupReader) (cancelled : bool)
  : traced (SoupReader * bool * bool) :=
  if arr_len (recv_buf r) =? 0
  then ([], (r, cancelled, content_length r =? arr_len (recv_buf r)))
  else
    let '(t, (r, cancelled)) :=
      issue_chunk_callback r (recv_buf r) (arr_len (recv_buf r)) cancelled in
    if cancelled
    then (t, (r, cancelled, content_length r =? arr_len (recv_buf r)))
    else
      let r :=
        if overwrite_chunks r then
          let r := set_content_length r
                     (guint_wrap (content_length r - arr_len (recv_buf r))) in
          set_recv_buf r (g_byte_array_set_size (recv_buf r) 0)
        else r in
      (t, (r, cancelled, content_length r =? arr_len (recv_buf r))).

Definition read_unknown (r : SoupReader) (cancelled : bool)
  : traced (SoupReader * bool * bool) :=
  if arr_len (recv_buf r) =? 0 then ([], (r, cancelled, false))
  else
    let '(t, (r, cancelled)) :=
      issue_chunk_callback r (recv_buf r) (arr_len (recv_buf r)) cancelled in
    if cancelled then (t, (r, cancelled, false))
    else
      let r := if overwrite_chunks r
               then set_recv_buf r (g_byte_array_set_size (recv_buf r) 0)
               else r in
      (t, (r, cancelled, false)).

(** [strncpy (dst, src, n)]: copies up to the first NUL, then pads. *)
Fixpoint strncpy (src : list ascii) (n : nat) : list ascii :=
  match n with
  | O => []
  | S n' =>
      match src with
      | c :: src' =>
          if Ascii.eqb c NUL then repeat NUL n else c :: strncpy src' n'
      | [] => repeat NUL n
      end
  end.

Definition CRLFCRLF : list ascii := CRLF ++ CRLF.

(** Where [PROCESS_READ] goes next. *)
Inductive next_step : Type :=
| Return (e : handler_exit)     (* the handler returns *)
| ReadMore (r : SoupReader).    (* total_read = 0; goto READ_AGAIN *)

(** [FINISH_READ] *)
Definition finish_read (r : SoupReader) : M next_step :=
  let '(t, o) := soup_transfer_read_cancel r in
  (t, Done (Return (mkExit false o))).

(** The body of [PROCESS_READ] after the header block. *)
Definition process_body (r : SoupReader) (total_read : Z) : M next_step :=
  rcd <~ (if total_read =? 0 then ret (r, false, true)
          else
            match encoding r with
            | SOUP_TRANSFER_CHUNKED => read_chunk r false
            | SOUP_TRANSFER_CONTENT_LENGTH => lift (read_content_length r false)
            | SOUP_TRANSFER_UNKNOWN => lift (read_unknown r false)
            end) ;;
  let '(r, cancelled, read_done) := rcd in
  if cancelled then finish_read r
  else if negb read_done then ret (ReadMore r)
  else
    r <~ lift (issue_final_callback r) ;;
    finish_read r.

(** [PROCESS_READ] *)
Definition process_read (r : SoupReader) (total_read : Z) : M next_step :=
  if header_len r =? 0 then
    let index :=
      soup_substring_index (recv_buf r) (arr_len (recv_buf r)) CRLFCRLF in
    if index <? 0 then ret (Return (mkExit true (Some r)))
    else
      let index := index + 4 in
      match headers_done_cb r with
      | Some cb =>
          let str := strncpy (recv_buf r) (Z.to_nat index) in
          let r := IGNORE_CANCEL r in
          let '(res, enc, clen, u) :=
            cb str (encoding r) (content_length r) (user_data r) in
          let r := set_user_data (set_content_length (set_encoding r enc) clen) u in
          let r := UNIGNORE_CANCEL r in
          e <~ lift ([EvReadHeadersDone str], tt) ;;
          match res with
          | SOUP_TRANSFER_END => finish_read r
          | SOUP_TRANSFER_CONTINUE =>
              arr <~ of_outcome (remove_block_at_index (recv_buf r) 0 index) ;;
              process_body (set_header_len (set_recv_buf r arr) index)
                total_read
          end
      | None =>
          arr <~ of_outcome (remove_block_at_index (recv_buf r) 0 index) ;;
          process_body (set_header_len (set_recv_buf r arr) index)
            total_read
      end
  else process_body r total_read.

(** What the handler leaves: its exit and the channel answers not consumed. *)
Definition after (n : next_step) (chan : list read_result)
    (again : list read_result -> SoupReader -> M (handler_exit * list read_result))
  : M (handler_exit * list read_result) :=
  match n with
  | Return e => ret (e, chan)
  | ReadMore r => again chan r
  end.

(** [READ_AGAIN], entered with the [total_read] of this run.  The channel is
    the list of the answers it will give; when the list is used up the
    channel answers [G_IO_ERROR_AGAIN]. *)
Fixpoint read_again (chan : list read_result) (r : SoupReader) (total_read : Z)
  : M (handler_exit * list read_result) :=
  match chan with
  | [] =>
      if negb (total_read =? 0) then
        n <~ process_read r total_read ;;
        after n [] (fun _ r' => ret (mkExit true (Some r'), []))
      else ret (mkExit true (Some r), [])
  | ReadAgain :: chan' =>
      if negb (total_read =? 0) then
        n <~ process_read r total_read ;;
        after n chan' (fun c r' => read_again c r' 0)
      else ret (mkExit true (Some r), chan')
  | ReadError :: chan' =>
      if negb (total_read =? 0) then
        n <~ process_read r total_read ;;
        after n chan' (fun c r' => read_again c r' 0)
      else
        e <~ lift (soup_transfer_read_error_cb r) ;;
        ret (e, chan')
  | ReadOk data :: chan' =>
      if negb (arr_len data =? 0) then
        read_again chan' (set_recv_buf r (recv_buf r ++ data))
          (gint_wrap (total_read + arr_len data))
      else
        n <~ process_read r total_read ;;
        after n chan' (fun c r' => read_again c r' 0)
  end.

Definition soup_transfer_read_cb (chan : list read_result) (r : SoupReader)
  : M (handler_exit * list read_result) :=
  read_again chan r 0.

(** [soup_transfer_read]; the two tags are what [g_io_add_watch] returns. *)
Definition soup_transfer_read (chan : Z) (overwrite_chunks' : bool)
    (headers_done_cb' : option SoupReadHeadersDoneFn)
    (read_chunk_cb' : option SoupReadChunkFn)
    (read_done_cb' : option SoupReadDoneFn)
    (error_cb' : option SoupReadErrorFn)
    (user_data' : U) (read_tag' err_tag' : Z) : SoupReader :=
  mkReader chan read_tag' err_tag' false false [] 0 overwrite_chunks'
    SOUP_TRANSFER_UNKNOWN 0 (mkChunkState 0 0)
    headers_done_cb' read_chunk_cb' read_done_cb' error_cb' user_data'.

End WithUserData.

Arguments SoupReader : clear implicits.
Arguments handler_exit : clear implicits.
Arguments next_step : clear implicits.

End Reader.

(** ** The writer *)

(** What one [g_io_channel_write] answers: [G_IO_ERROR_NONE] from a channel
    that had room for [room] bytes (it takes that many of the bytes offered,
    or all of them), [G_IO_ERROR_AGAIN], or a failure ([errno] set or another
    error). *)
Inductive write_result : Type :=
| WriteOk (room : Z)
| WriteAgain
| WriteError.

(** [g_strdup_printf ("%x", len)]: lower-case digits, no padding; a 32-bit
    value has at most eight of them. *)
Definition hex_digit (d : Z) : ascii :=
  ascii_of_N (Z.to_N (if d <? 10 then 48 + d else 87 + d)).

Fixpoint hex_digits (fuel : nat) (n : Z) (acc : list ascii) : list ascii :=
  match fuel with
  | O => acc
  | S fuel' =>
      let acc' := hex_digit (n mod 16) :: acc in
      if n / 16 =? 0 then acc' else hex_digits fuel' (n / 16) acc'
  end.

Definition printf_x (n : Z) : list ascii := hex_digits 8 (guint_wrap n) [].

Definition write_chunk_sep (arr : GByteArray) (len first_chunk : Z) : GByteArray :=
  let end_ := CRLF ++ bytes "0" ++ CRLF in
  if negb (len =? 0) then
    let hex :=
      if negb (first_chunk =? 0)
      then printf_x len ++ CRLF
      else CRLF ++ printf_x len ++ CRLF in
    arr ++ hex
  else arr ++ end_.

Module Writer.

Section WithUserData.

Context {U : Type}.

(** Modelled from the spec: the writer's callback types of soup-transfer.h.
    The chunk callback hands back a buffer (or none) and its verdict. *)
Definition SoupWriteHeadersDoneFn : Type := U -> U.
Definition SoupWriteChunkFn : Type := U -> option SoupDataBuffer * SoupTransferDone * U.
Definition SoupWriteDoneFn : Type := U -> U.
Definition SoupWriteErrorFn : Type := bool -> U -> U.

Record SoupWriter : Type := mkWriter {
  channel : Z;
  write_tag : Z;
  err_tag : Z;
  processing : bool;
  encoding : SoupTransferEncoding;
  write_buf : GByteArray;
  header_len : Z;
  headers_done : bool;
  chunk_cnt : Z;
  headers_done_cb : option SoupWriteHeadersDoneFn;
  write_chunk_cb : option SoupWriteChunkFn;
  write_done_cb : option SoupWriteDoneFn;
  error_cb : option SoupWriteErrorFn;
  user_data : U
}.

Definition set_processing (w : SoupWriter) (b : bool) : SoupWriter :=
  mkWriter (channel w) (write_tag w) (err_tag w) b (encoding w) (write_buf w)
    (header_len w) (headers_done w) (chunk_cnt w) (headers_done_cb w)
    (write_chunk_cb w) (write_done_cb w) (error_cb w) (user_data w).

Definition set_write_buf (w : SoupWriter) (arr : GByteArray) : SoupWriter :=
  mkWriter (channel w) (write_tag w) (err_tag w) (processing w) (encoding w) arr
    (header_len w) (headers_done w) (chunk_cnt w) (headers_done_cb w)
    (write_chunk_cb w) (write_done_cb w) (error_cb w) (user_data w).

Definition set_header_len (w : SoupWriter) (n : Z) : SoupWriter :=
  mkWriter (channel w) (write_tag w) (err_tag w) (processing w) (encoding w)
    (write_buf w) n (headers_done w) (chunk_cnt w) (headers_done_cb w)
    (write_chunk_cb w) (write_done_cb w) (error_cb w) (user_data w).

Definition set_headers_done (w : SoupWriter) (b : bool) : SoupWriter :=
  mkWriter (channel w) (write_tag w) (err_tag w) (processing w) (encoding w)
    (write_buf w) (header_len w) b (chunk_cnt w) (headers_done_cb w)
    (write_chunk_cb w) (write_done_cb w) (error_cb w) (user_data w).

Definition set_chunk_cnt (w : SoupWriter) (n : Z) : SoupWriter :=
  mkWriter (channel w) (write_tag w) (err_tag w) (processing w) (encoding w)
    (write_buf w) (header_len w) (headers_done w) n (headers_done_cb w)
    (write_chunk_cb w) (write_done_cb w) (error_cb w) (user_data w).

Definition set_write_chunk_cb (w : SoupWriter) (cb : option SoupWriteChunkFn)
  : SoupWriter :=
  mkWriter (channel w) (write_tag w) (err_tag w) (processing w) (encoding w)
    (write_buf w) (header_len w) (headers_done w) (chunk_cnt w) (headers_done_cb w)
    cb (write_done_cb w) (error_cb w) (user_data w).

Definition set_user_data (w : SoupWriter) (u : U) : SoupWriter :=
  mkWriter (channel w) (write_tag w) (err_tag w) (processing w) (encoding w)
    (write_buf w) (header_len w) (headers_done w) (chunk_cnt w) (headers_done_cb w)
    (write_chunk_cb w) (write_done_cb w) (error_cb w) u.

Definition IGNORE_CANCEL (w : SoupWriter) : SoupWriter := set_processing w true.
Definition UNIGNORE_CANCEL (w : SoupWriter) : SoupWriter := set_processing w false.

Definition soup_transfer_write_cancel (w : SoupWriter) : traced (option SoupWriter) :=
  if processing w then ([], Some w)
  else
    ([EvSourceRemove (write_tag w);
      EvSourceRemove (err_tag w);
      EvByteArrayFree true;
      EvFree],
     None).

Record handler_exit : Type := mkExit {
  keep_source : bool;
  survivor : option SoupWriter
}.

Definition soup_transfer_write_error_cb (w : SoupWriter) : traced handler_exit :=
  let '(t1, w1) :=
    match error_cb w with
    | Some cb =>
        let w := IGNORE_CANCEL w in
        let w := set_user_data w (cb (headers_done w) (user_data w)) in
        ([EvWriteError (headers_done w)], UNIGNORE_CANCEL w)
    | None => ([], w)
    end in
  let '(t2, o) := soup_transfer_write_cancel w1 in
  (t1 ++ t2, mkExit false o).

Definition write_chunk (w : SoupWriter) (buf : SoupDataBuffer) : SoupWriter :=
  let w :=
    if encoding_eqb (encoding w) SOUP_TRANSFER_CHUNKED then
      let w := set_write_buf w
                 (write_chunk_sep (write_buf w) (length buf) (chunk_cnt w)) in
      set_chunk_cnt w (gint_wrap (chunk_cnt w + 1))
    else w in
  set_write_buf w (write_buf w ++ firstn (Z.to_nat (length buf)) (body buf)).

(** [buf && buf->length] *)
Definition has_data (buf : option SoupDataBuffer) : bool :=
  match buf with
  | Some b => negb (length b =? 0)
  | None => false
  end.

(** What happens when the [while] loop of the handler is left or skipped
    because the staging buffer is empty. *)
Inductive refilled : Type :=
| Filled (w : SoupWriter)        (* goto WRITE_AGAIN with bytes to write *)
| Waiting (w : SoupWriter)       (* goto TRY_AGAIN *)
| Completed (e : handler_exit).  (* done callback, cancel, return FALSE *)

Definition complete (w : SoupWriter) : traced refilled :=
  let '(t1, w1) :=
    match write_done_cb w with
    | Some cb =>
        let w := IGNORE_CANCEL w in
        let w := set_user_data w (cb (user_data w)) in
        ([EvWriteDone], UNIGNORE_CANCEL w)
    | None => ([], w)
    end in
  let '(t2, o) := soup_transfer_write_cancel w1 in
  (t1 ++ t2, Completed (mkExit false o)).

Definition refill (w : SoupWriter) : traced refilled :=
  if negb (arr_len (write_buf w) =? 0) then ([], Filled w)
  else
    match write_chunk_cb w with
    | Some cb =>
        let w := IGNORE_CANCEL w in
        let '(buf, res, u) := cb (user_data w) in
        let w := UNIGNORE_CANCEL (set_user_data w u) in
        match buf, has_data buf with
        | Some b, true => ([EvWriteChunk], Filled (write_chunk w b))
        | _, _ =>
            match res with
            | SOUP_TRANSFER_CONTINUE => ([EvWriteChunk], Waiting w)
            | SOUP_TRANSFER_END =>
                let w :=
                  if encoding_eqb (encoding w) SOUP_TRANSFER_CHUNKED
                  then set_write_buf w (write_chunk_sep (write_buf w) 0 (chunk_cnt w))
                  else w in
                let '(t, x) := complete w in ([EvWriteChunk] ++ t, x)
            end
        end
    | None => complete w
    end.

(** One turn of the [while (w->write_buf->len)] loop on a channel answer:
    either the writer with which the loop goes round again, or the exit. *)
Definition write_once (w : SoupWriter) (a : write_result)
  : M (SoupWriter + handler_exit) :=
  match a with
  | WriteAgain => ret (inr (mkExit true (Some w)))
  | WriteError =>
      e <~ lift (soup_transfer_write_error_cb w) ;;
      ret (inr e)
  | WriteOk room =>
      let bytes_written := Z.max 0 (Z.min room (arr_len (write_buf w))) in
      if bytes_written =? 0 then ret (inr (mkExit true (Some w)))
      else
        u <~ lift ([EvChannelWrite (firstn (Z.to_nat bytes_written) (write_buf w))], tt) ;;
        w <~ (if negb (headers_done w) && (header_len w <=? guint_wrap bytes_written)
              then
                let '(t, w) :=
                  match headers_done_cb w with
                  | Some cb =>
                      let w := IGNORE_CANCEL w in
                      let w := set_user_data w (cb (user_data w)) in
                      ([EvWriteHeadersDone], UNIGNORE_CANCEL w)
                  | None => ([], w)
                  end in
                (t, Done (set_headers_done w true))
              else ret w) ;;
        arr <~ of_outcome (remove_block_at_index (write_buf w) 0 bytes_written) ;;
        ret (inl (set_write_buf w arr))
  end.

(** [WRITE_AGAIN].  The channel is the list of the answers it will give;
    when the list is used up it answers [G_IO_ERROR_AGAIN]. *)
Fixpoint write_again (chan : list write_result) (w : SoupWriter)
  : M (handler_exit * list write_result) :=
  x <~ lift (refill w) ;;
  match x with
  | Completed e => ret (e, chan)
  | Waiting w' => ret (mkExit true (Some w'), chan)
  | Filled w' =>
      match chan with
      | [] => ret (mkExit true (Some w'), [])
      | a :: chan' =>
          y <~ write_once w' a ;;
          match y with
          | inr e => ret (e, chan')
          | inl w'' => write_again chan' w''
          end
      end
  end.

Definition soup_transfer_write_cb (chan : list write_result) (w : SoupWriter)
  : M (handler_exit * list write_result) :=
  write_again chan w.

(** [soup_transfer_write]; the two tags are what [g_io_add_watch] returns. *)
Definition soup_transfer_write (chan : Z)
    (header : option (list ascii)) (src : option SoupDataBuffer)
    (encoding' : SoupTransferEncoding)
    (headers_done_cb' : option SoupWriteHeadersDoneFn)
    (write_chunk_cb' : option SoupWriteChunkFn)
    (write_done_cb' : option SoupWriteDoneFn)
    (error_cb' : option SoupWriteErrorFn)
    (user_data' : U) (write_tag' err_tag' : Z) : traced SoupWriter :=
  let w := mkWriter chan 0 0 false encoding' [] 0 false 0
             headers_done_cb' write_chunk_cb' write_done_cb' error_cb' user_data' in
  let w :=
    match header with
    | Some h =>
        if negb (arr_len h =? 0)
        then set_header_len (set_write_buf w (write_buf w ++ h)) (arr_len h)
        else w
    | None => w
    end in
  let w := match src with
           | Some b => if negb (length b =? 0) then write_chunk w b else w
           | None => w
           end in
  let '(t, w) :=
    match write_chunk_cb' with
    | Some cb =>
        let w := IGNORE_CANCEL w in
        let '(buf, res, u) := cb user_data' in
        let w := UNIGNORE_CANCEL (set_user_data w u) in
        let w := match buf with
                 | Some b => if negb (length b =? 0) then write_chunk w b else w
                 | None => w
                 end in
        let w :=
          match res with
          | SOUP_TRANSFER_END =>
              let w := set_write_chunk_cb w None in
              if encoding_eqb (encoding w) SOUP_TRANSFER_CHUNKED
              then set_write_buf w (write_chunk_sep (write_buf w) 0 (chunk_cnt w))
              else w
          | SOUP_TRANSFER_CONTINUE => w
          end in
        ([EvWriteChunk], w)
    | None => ([], w)
    end in
  (t, mkWriter (channel w) write_tag' err_tag' (processing w) (encoding w)
        (write_buf w) (header_len w) (headers_done w) (chunk_cnt w)
        (headers_done_cb w) (write_chunk_cb w) (write_done_cb w) (error_cb w)
        (user_data w)).

End WithUserData.

Arguments SoupWriter : clear implicits.
Arguments handler_exit : clear implicits.

End Writer.

(** ** soup-misc.c: strings of plain [char] *)

(** A [gchar] promoted to [int].  Whether plain [char] (glib's [gchar]) is
    a signed type is for the C implementation to decide: [char_signed]. *)
Definition gchar_int (char_signed : bool) (c : ascii) : Z :=
  if char_signed && (128 <=? code c) then code c - 256 else code c.

(** ** soup-misc.c: Base-64 *)

Module Base64.

(** [const char base64_alphabet[65]] *)
Definition base64_alphabet : list ascii :=
  bytes "ABCDEFGHIJKLMNOPQRSTUVWXYZabcdefghijklmnopqrstuvwxyz0123456789+/=".

(** [base64_alphabet [i]]; outside the 65 elements the read is undefined. *)
Definition alphabet_at (i : Z) : outcome ascii :=
  if i <? 0 then Undef
  else match nth_error base64_alphabet (Z.to_nat i) with
       | Some c => Done c
       | None => Undef
       end.

(** [buffer[i] = c] in an allocation of [length buffer] bytes. *)
Definition store (buffer : list ascii) (i : nat) (c : ascii) : outcome (list ascii) :=
  if (i <? List.length buffer)%nat
  then Done (firstn i buffer ++ c :: skipn (S i) buffer)
  else Undef.

(** The string a [char *] points to: the bytes before the first NUL. *)
Fixpoint c_string (mem : list ascii) : outcome (list ascii) :=
  match mem with
  | [] => Undef
  | c :: mem' =>
      if Ascii.eqb c NUL then Done []
      else do s <- c_string mem'; Done (c :: s)
  end.

Section WithChar.

Variable char_signed : bool.

(** [*(text + k)], promoted; [text] is the memory from the pointer on. *)
Definition text_at (text : list ascii) (k : nat) : outcome Z :=
  match nth_error text k with
  | Some c => Done (gchar_int char_signed c)
  | None => Undef
  end.

(** The state of the conversion: [text], [inlen], the buffer and the offset
    of [point] in it. *)
Definition conversion : Type := list ascii * Z * list ascii * nat.

(** One turn of the main loop: three bytes in, four characters out. *)
Definition encode_group (text : list ascii) (buffer : list ascii) (point : nat)
  : outcome (list ascii) :=
  do t0 <- text_at text 0;
  do c <- alphabet_at (Z.shiftr t0 2);
  do buffer <- store buffer point c;
  do t0 <- text_at text 0;
  do t1 <- text_at text 1;
  do c <- alphabet_at (Z.lor (Z.land (Z.shiftl t0 4) 48) (Z.shiftr t1 4));
  do buffer <- store buffer (point + 1) c;
  do t1 <- text_at text 1;
  do t2 <- text_at text 2;
  do c <- alphabet_at (Z.lor (Z.land (Z.shiftl t1 2) 60) (Z.shiftr t2 6));
  do buffer <- store buffer (point + 2) c;
  do t2 <- text_at text 2;
  do c <- alphabet_at (Z.land t2 63);
  store buffer (point + 3) c.

(** [for (point = buffer; inlen >= 3; inlen -= 3, text += 3)]; the loop
    makes at most [inlen / 3] turns, [fuel] bounds them. *)
Fixpoint encode_groups (fuel : nat) (text : list ascii) (inlen : Z)
    (buffer : list ascii) (point : nat) : outcome conversion :=
  if 3 <=? inlen then
    match fuel with
    | O => Undef
    | S fuel' =>
        do buffer <- encode_group text buffer point;
        encode_groups fuel' (skipn 3 text) (inlen - 3) buffer (point + 4)
    end
  else Done (text, inlen, buffer, point).

(** The trailing one or two bytes. *)
Definition encode_tail (text : list ascii) (inlen : Z)
    (buffer : list ascii) (point : nat) : outcome (list ascii * nat) :=
  do t0 <- text_at text 0;
  do c <- alphabet_at (Z.shiftr t0 2);
  do buffer <- store buffer point c;
  do t0 <- text_at text 0;
  do hi <- (if inlen =? 2
            then do t1 <- text_at text 1; Done (Z.shiftr t1 4)
            else Done 0);
  do c <- alphabet_at (Z.lor (Z.land (Z.shiftl t0 4) 48) hi);
  do buffer <- store buffer (point + 1) c;
  do c <- (if inlen =? 1 then Done "="%char
           else do t1 <- text_at text 1;
                alphabet_at (Z.land (Z.shiftl t1 2) 60));
  do buffer <- store buffer (point + 2) c;
  do buffer <- store buffer (point + 3) "="%char;
  Done (buffer, (point + 4)%nat).

(** [soup_base64_encode (text, inlen)]: [None] is the NULL pointer, the
    result is the string returned.  A negative [inlen], and one whose
    product [inlen * 4] leaves the [int] range, have no defined outcome. *)
Definition soup_base64_encode (text : option (list ascii)) (inlen : Z)
  : outcome (option (list ascii)) :=
  match text with
  | None => Done None
  | Some text =>
      if inlen =? 0 then Done (Some [])
      else if (inlen <? 0) || (2 ^ 31 <=? inlen * 4) then Undef
      else
        let outlen := Z.quot (inlen * 4) 3 in
        let outlen :=
          if 0 <? Z.rem inlen 3 then outlen + (4 - Z.rem inlen 3) else outlen in
        let buffer := repeat NUL (Z.to_nat (outlen + 1)) in
        do st <- encode_groups (Z.to_nat inlen) text inlen buffer 0;
        let '(text, inlen, buffer, point) := st in
        do bp <- (if negb (inlen =? 0) then encode_tail text inlen buffer point
                  else Done (buffer, point));
        let '(buffer, point) := bp in
        do buffer <- store buffer point NUL;
        do s <- c_string buffer;
        Done (Some s)
  end.

End WithChar.

End Base64.

(** ** soup-misc.c: keys compared without case *)

Module CaseKeys.

Section WithChar.

Variable char_signed : bool.

(** <ctype.h> in the C locale, on an [int] argument: defined on the values
    of [unsigned char] and on [EOF]. *)
Definition toupper (v : Z) : outcome Z :=
  if (v <? -1) || (255 <? v) then Undef
  else Done (if (97 <=? v) && (v <=? 122) then v - 32 else v).

Definition isupper (c : ascii) : bool := (65 <=? code c) && (code c <=? 90).

(** [*p] where [p] points into a string: past the bytes of the list stands
    the terminating NUL. *)
Definition deref (p : list ascii) : ascii :=
  match p with
  | c :: _ => c
  | [] => NUL
  end.

(** The [for] loop of [soup_str_case_hash]: [p] is at the next character. *)
Fixpoint hash_rest (p : list ascii) (h : Z) : outcome Z :=
  match p with
  | [] => Done h
  | c :: p' =>
      if Ascii.eqb c NUL then Done h
      else
        do u <- toupper (gchar_int char_signed c);
        hash_rest p' (guint_wrap (Z.shiftl h 5 - h + u))
  end.

Definition soup_str_case_hash (key : list ascii) : outcome Z :=
  do u <- toupper (gchar_int char_signed (deref key));
  let h := guint_wrap u in
  if negb (h =? 0) then hash_rest (tl key) h else Done h.

(** glib's [g_strcasecmp] (gstrfuncs.c), which compares
    [isupper ((guchar) c) ? tolower ((guchar) c) : c] character by
    character while both strings last, then the two characters where it
    stopped. *)
Definition folded (c : ascii) : Z :=
  if isupper c then tolower c else gchar_int char_signed c.

Fixpoint g_strcasecmp (s1 s2 : list ascii) : Z :=
  match s1, s2 with
  | c1 :: s1', c2 :: s2' =>
      if Ascii.eqb c1 NUL || Ascii.eqb c2 NUL then code c1 - code c2
      else if folded c1 =? folded c2 then g_strcasecmp s1' s2'
           else folded c1 - folded c2
  | _, _ => code (deref s1) - code (deref s2)
  end.

Definition soup_str_case_equal (v1 v2 : list ascii) : bool :=
  g_strcasecmp v1 v2 =? 0.

End WithChar.

End CaseKeys.

(** ** soup-misc.c: the security policy of the configuration file *)

(** The policies soup-misc.c names; the enumeration is declared in
    soup-misc.h. *)
Inductive SoupSecurityPolicy : Type :=
| SOUP_SECURITY_DOMESTIC
| SOUP_SECURITY_EXPORT
| SOUP_SECURITY_FRANCE.

Module Config.

Section WithChar.

Variable char_signed : bool.

(** [soup_set_security_policy] on the static [ssl_security_level], which
    is the state passed. *)
Definition soup_set_security_policy (policy : SoupSecurityPolicy)
    (ssl_security_level : SoupSecurityPolicy) : SoupSecurityPolicy :=
  policy.

(** [soup_config_security_policy (key, value)]: the [switch] on the first
    character, then the comparison of the rest. *)
Definition soup_config_security_policy (value : list ascii)
    (ssl_security_level : SoupSecurityPolicy) : outcome SoupSecurityPolicy :=
  do u <- CaseKeys.toupper (gchar_int char_signed (CaseKeys.deref value));
  if u =? 68 then
    if CaseKeys.g_strcasecmp char_signed (tl value) (bytes "OMESTIC") =? 0
    then Done (soup_set_security_policy SOUP_SECURITY_DOMESTIC ssl_security_level)
    else Done ssl_security_level
  else if u =? 69 then
    if CaseKeys.g_strcasecmp char_signed (tl value) (bytes "XPORT") =? 0
    then Done (soup_set_security_policy SOUP_SECURITY_EXPORT ssl_security_level)
    else Done ssl_security_level
  else if u =? 70 then
    if CaseKeys.g_strcasecmp char_signed (tl value) (bytes "RANCE") =? 0
    then Done (soup_set_security_policy SOUP_SECURITY_FRANCE ssl_security_level)
    else Done ssl_security_level
  else Done ssl_security_level.

End WithChar.

End Config.

(** ** Notions used in the statements *)

(** *** Hexadecimal numerals, as the specification words them *)

Definition hex_digit_value (c : ascii) : Z :=
  if isdigit c then code c - 48
  else if 97 <=? code c then code c - 87
  else code c - 55.

(** The value of a numeral, read case-insensitively from the left. *)
Definition hex_numeral_value (ds : list ascii) : Z :=
  fold_left (fun acc c => 16 * acc + hex_digit_value c) ds 0.

(** The same value as a sum of digits times powers of sixteen. *)
Fixpoint hex_positional (ds : list ascii) : Z :=
  match ds with
  | [] => 0
  | c :: ds' =>
      hex_digit_value c * 2 ^ (4 * Z.of_nat (List.length ds')) + hex_positional ds'
  end.

(** *** Traces *)

(** The bytes the channel has taken, in order. *)
Definition wire (t : list event) : list ascii :=
  flat_map (fun e => match e with EvChannelWrite d => d | _ => [] end) t.

Definition no_empty_chunk (e : event) : Prop :=
  match e with
  | EvReadChunk b => length b <> 0
  | _ => True
  end.

Definition is_write_headers_done (e : event) : bool :=
  match e with
  | EvWriteHeadersDone => true
  | _ => false
  end.

(** *** Successive readable events of a chunked body

    Each part is appended to the receive buffer and [decode_chunk] is run on
    it, as [read_chunk] does on every pass; the data lengths add up and the
    terminal flag is kept once raised. *)
Fixpoint decode_parts (parts : list (list ascii)) (d : Decoder.decoded)
  : outcome Decoder.decoded :=
  match parts with
  | [] => Done d
  | p :: parts' =>
      do d' <- Decoder.decode_chunk (Decoder.d_state d) (Decoder.d_arr d ++ p);
      decode_parts parts'
        (Decoder.mkDecoded (Decoder.d_state d') (Decoder.d_arr d')
           (Decoder.d_datalen d + Decoder.d_datalen d')
           (Decoder.d_ret d || Decoder.d_ret d'))
  end.

Definition decode_start : Decoder.decoded :=
  Decoder.mkDecoded (Decoder.mkChunkState 0 0) [] 0 false.

(** *** The invariant of a live reader

    The encoding leaves [SOUP_TRANSFER_UNKNOWN] only in the headers-done
    callback, and [header_len] is set right after it. *)
Definition reader_inv {U : Type} (r : Reader.SoupReader U) : Prop :=
  0 <= Reader.header_len r /\
  (Reader.encoding r <> SOUP_TRANSFER_UNKNOWN -> 0 < Reader.header_len r).

(** What the invariant depends on. *)
Definition framing {U : Type} (r : Reader.SoupReader U) : SoupTransferEncoding * Z :=
  (Reader.encoding r, Reader.header_len r).

Definition exit_inv {U : Type} (e : Reader.handler_exit U) : Prop :=
  forall r', Reader.survivor e = Some r' -> reader_inv r'.

Definition step_inv {U : Type} (s : Reader.next_step U) : Prop :=
  match s with
  | Reader.Return e => exit_inv e
  | Reader.ReadMore r' => reader_inv r'
  end.


(** *** Concrete transfers *)

Definition ok_header : list ascii :=
  bytes "HTTP/1.1 200 OK" ++ CRLF ++ CRLF.

(** A chunked body with one chunk: [5 CRLF hello CRLF 0 CRLF CRLF]. *)
Definition hello_chunked : list ascii :=
  bytes "5" ++ CRLF ++ bytes "hello" ++ CRLF ++ bytes "0" ++ CRLF ++ CRLF.

(** The same body cut before its last CRLF. *)
Definition hello_chunked_head : list ascii :=
  bytes "5" ++ CRLF ++ bytes "hello" ++ CRLF ++ bytes "0" ++ CRLF.

(** A headers-done callback that declares a content length. *)
Definition declare_length (n : Z) : Reader.SoupReadHeadersDoneFn (U := unit) :=
  fun _ _ _ u => (SOUP_TRANSFER_CONTINUE, SOUP_TRANSFER_CONTENT_LENGTH, n, u).

Definition keep_reading : Reader.SoupReadChunkFn (U := unit) :=
  fun _ u => (SOUP_TRANSFER_CONTINUE, u).

(** A reader as [soup_transfer_read] makes it, all four callbacks set. *)
Definition fresh_reader (n : Z) : Reader.SoupReader unit :=
  Reader.soup_transfer_read 0 false
    (Some (declare_length n)) (Some keep_reading)
    (Some (fun _ u => u)) (Some (fun _ u => u)) tt 1 2.

(** The reader after the headers (declared length 5) and the bytes [he]. *)
Definition short_body_reader : Reader.SoupReader unit :=
  Reader.mkReader 0 1 2 true false (bytes "he") 19 false
    SOUP_TRANSFER_CONTENT_LENGTH 5 (Decoder.mkChunkState 0 0)
    (Some (declare_length 5)) (Some keep_reading)
    (Some (fun _ u => u)) (Some (fun _ u => u)) tt.

(** A producer over the list of the buffers still to send: it hands them out
    one by one, then an empty buffer with [SOUP_TRANSFER_END]. *)
Definition chunk_producer : Writer.SoupWriteChunkFn (U := list (list ascii)) :=
  fun u =>
    match u with
    | b :: rest =>
        (Some (mkBuffer SOUP_BUFFER_USER_OWNED b (arr_len b)),
         SOUP_TRANSFER_CONTINUE, rest)
    | [] => (Some (mkBuffer SOUP_BUFFER_USER_OWNED [] 0), SOUP_TRANSFER_END, [])
    end.

Definition chunked_writer (h : list ascii) (bs : list (list ascii))
  : traced (Writer.SoupWriter (list (list ascii))) :=
  Writer.soup_transfer_write 0 (Some h) None SOUP_TRANSFER_CHUNKED
    None (Some chunk_producer) None None bs 1 2.

(** A writer of a four-byte header block and no body, with a headers-done
    and a done callback. *)
Definition header_writer : Writer.SoupWriter unit :=
  snd (Writer.soup_transfer_write 0 (Some (bytes "ABCD")) None
         SOUP_TRANSFER_CONTENT_LENGTH
         (Some (fun u => u)) None (Some (fun u => u)) None tt 1 2).

(** A writer inside one of its callbacks. *)
Definition busy_writer : Writer.SoupWriter unit :=
  Writer.IGNORE_CANCEL header_writer.

(** *** Base-64, as RFC 2045 words it *)

(** The value of a character of the alphabet: its position in it. *)
Fixpoint position (c : ascii) (l : list ascii) (i : Z) : Z :=
  match l with
  | [] => i
  | x :: l' => if Ascii.eqb x c then i else position c l' (i + 1)
  end.

Definition sextet_value (c : ascii) : Z := position c Base64.base64_alphabet 0.

Definition byte_of (z : Z) : ascii := ascii_of_N (Z.to_N z).

(** Four characters give three bytes, two when the last character is the
    padding, one when the last two are. *)
Fixpoint base64_decode (s : list ascii) : list ascii :=
  match s with
  | c1 :: c2 :: c3 :: c4 :: rest =>
      let v1 := sextet_value c1 in
      let v2 := sextet_value c2 in
      let v3 := sextet_value c3 in
      let v4 := sextet_value c4 in
      let b1 := byte_of (v1 * 4 + v2 / 16) in
      let b2 := byte_of ((v2 mod 16) * 16 + v3 / 4) in
      let b3 := byte_of ((v3 mod 4) * 64 + v4) in
      if Ascii.eqb c3 "="%char then [b1]
      else if Ascii.eqb c4 "="%char then [b1; b2]
      else b1 :: b2 :: b3 :: base64_decode rest
  | _ => []
  end.

(** The bytes of a text that are the same in [char] and in [unsigned
    char]. *)
Definition plain_bytes (char_signed : bool) (data : list ascii) : Prop :=
  Forall (fun c => 0 <= gchar_int char_signed c) data.

(** The character for a six-bit value. *)
Definition sextet (i : Z) : ascii := nth (Z.to_nat i) Base64.base64_alphabet NUL.

(** Three bytes are a group of 24 bits, read as four values of six bits;
    a last group of one or two bytes is filled with zero bits and padded
    with [=]. *)
Fixpoint base64_of (data : list ascii) : list ascii :=
  match data with
  | a :: b :: c :: rest =>
      sextet (code a / 4)
      :: sextet ((code a mod 4) * 16 + code b / 16)
      :: sextet ((code b mod 16) * 4 + code c / 64)
      :: sextet (code c mod 64)
      :: base64_of rest
  | [a; b] =>
      [sextet (code a / 4);
       sextet ((code a mod 4) * 16 + code b / 16);
       sextet ((code b mod 16) * 4);
       "="%char]
  | [a] =>
      [sextet (code a / 4); sextet ((code a mod 4) * 16); "="%char; "="%char]
  | [] => []
  end.

(** Every byte, and every six-bit value. *)
Definition all_ascii : list ascii := map ascii_of_nat (seq 0 256).
Definition all_sextets : list Z := map Z.of_nat (seq 0 64).

(** *** Occurrences of a substring *)

(** [substr] lies in [str] at position [i]. *)
Definition occurs_at (substr str : list ascii) (i : nat) : Prop :=
  firstn (List.length substr) (skipn i str) = substr.

(** *** Well-formed chunked bodies *)

(** A chunk as it travels: size line, the bytes, CRLF. *)
Definition wire_chunk (b : list ascii) : list ascii :=
  printf_x (arr_len b) ++ CRLF ++ b ++ CRLF.

(** A chunked body: the chunks, then the terminating chunk and its CRLF. *)
Definition wire_chunked (bs : list (list ascii)) : list ascii :=
  List.concat (map wire_chunk bs) ++ bytes "0" ++ CRLF ++ CRLF.

(** *** The order of the events of a reader *)

Definition chunk_event (e : event) : Prop :=
  exists b, e = EvReadChunk b /\ length b <> 0.

(** How a run of the reader ends: at most one done or error callback, then
    at most the teardown of this reader. *)
Definition closing_events {U : Type} (r : Reader.SoupReader U) (t : list event) : Prop :=
  exists last td,
    t = last ++ td /\
    (last = [] \/ (exists b, last = [EvReadDone b]) \/ (exists b, last = [EvReadError b])) /\
    (td = [] \/
     exists fs, td = [EvSourceRemove (Reader.read_tag r);
                      EvSourceRemove (Reader.err_tag r);
                      EvByteArrayFree fs; EvFree]).

(** Chunk callbacks, then the end. *)
Definition body_events {U : Type} (r : Reader.SoupReader U) (t : list event) : Prop :=
  exists chunks fin,
    t = chunks ++ fin /\ Forall chunk_event chunks /\ closing_events r fin.

(** The same, after the headers-done callback when the headers were still
    to come. *)
Definition run_events {U : Type} (r : Reader.SoupReader U) (t : list event) : Prop :=
  body_events r t \/
  (Reader.header_len r = 0 /\
   exists str t', t = EvReadHeadersDone str :: t' /\ body_events r t').

(** The events of [PROCESS_READ] when the handler goes on reading. *)
Definition opening_events {U : Type} (r : Reader.SoupReader U) (t : list event) : Prop :=
  Forall chunk_event t \/
  (Reader.header_len r = 0 /\
   exists str t', t = EvReadHeadersDone str :: t' /\ Forall chunk_event t').

(** What stays the same while a reader lives. *)
Definition ids {U : Type} (r : Reader.SoupReader U) : Z * Z :=
  (Reader.read_tag r, Reader.err_tag r).

(** A callback was handed the bytes of the receive buffer. *)
Definition lends_buffer (e : event) : bool :=
  match e with
  | EvReadChunk _ | EvReadDone _ => true
  | _ => false
  end.

Definition lent (t : list event) : bool := existsb lends_buffer t.

Definition no_free (t : list event) : Prop :=
  Forall (fun e => forall fs, e <> EvByteArrayFree fs) t.

(** Every [g_byte_array_free] of the trace frees the bytes exactly when no
    callback was handed them, before the run or in it. *)
Definition frees_right {U : Type} (r : Reader.SoupReader U) (t : list event) : Prop :=
  forall fs, In (EvByteArrayFree fs) t ->
             fs = negb (Reader.callback_issued r || lent t).

(** *** A transfer ended by a chunk callback *)

(** A trace without chunk callbacks. *)
Definition no_chunk (t : list event) : Prop :=
  Forall (fun e => forall b, e <> EvReadChunk b) t.

(** The teardown of a reader that has lent its buffer. *)
Definition lent_teardown {U : Type} (r : Reader.SoupReader U) : list event :=
  [EvSourceRemove (Reader.read_tag r); EvSourceRemove (Reader.err_tag r);
   EvByteArrayFree false; EvFree].

(** The reader right after a chunk callback that has ended the transfer. *)
Definition stopped_at {U : Type} (r r' : Reader.SoupReader U) : Prop :=
  Reader.processing r' = false /\ Reader.callback_issued r' = true /\
  ids r' = ids r.

(** The reader after a body step that has made no callback. *)
Definition kept {U : Type} (r r' : Reader.SoupReader U) : Prop :=
  ids r' = ids r /\ Reader.read_chunk_cb r' = Reader.read_chunk_cb r.

(** *** The headers-done callbacks of a writer's trace *)

Definition headers_done_calls (t : list event) : nat :=
  List.length (filter is_write_headers_done t).

(** How many headers-done callbacks a writer can still make. *)
Definition headers_done_due {U : Type} (w : Writer.SoupWriter U) : nat :=
  if Writer.headers_done w then 0%nat else 1%nat.

(** *** Readers of bodies that are not chunked *)

(** The headers-done callback never declares a chunked body. *)
Definition declares_no_chunks {U : Type}
    (hcb : option (Reader.SoupReadHeadersDoneFn (U := U))) : Prop :=
  forall cb, hcb = Some cb ->
  forall s e l u, snd (fst (fst (cb s e l u))) <> SOUP_TRANSFER_CHUNKED.

Definition unchunked {U : Type} (r : Reader.SoupReader U) : Prop :=
  Reader.encoding r <> SOUP_TRANSFER_CHUNKED /\
  declares_no_chunks (Reader.headers_done_cb r).

(** *** A body that comes in several reads *)

(** Successive readable events, each bringing one part and then no more;
    the watch is called again only while the handler returns [TRUE]. *)
Fixpoint feed {U : Type} (parts : list (list ascii)) (r : Reader.SoupReader U)
  : list event * option (Reader.SoupReader U) :=
  match parts with
  | [] => ([], Some r)
  | p :: ps =>
      match Reader.soup_transfer_read_cb [ReadOk p; ReadAgain] r with
      | (t, Done (e, _)) =>
          match Reader.survivor e, Reader.keep_source e with
          | Some r', true => let '(t', o) := feed ps r' in (t ++ t', o)
          | o, _ => (t, o)
          end
      | (t, _) => (t, None)
      end
  end.

(** The chunk callbacks the parts give rise to: each is handed the bytes
    received so far, or in overwrite mode the part alone. *)
Fixpoint arrivals (ow : bool) (acc : list ascii) (parts : list (list ascii))
  : list event :=
  match parts with
  | [] => []
  | p :: ps =>
      EvReadChunk (mkBuffer SOUP_BUFFER_SYSTEM_OWNED (acc ++ p) (arr_len (acc ++ p)))
      :: arrivals ow (if ow then [] else acc ++ p) ps
  end.

(** *** Further concrete transfers *)

(** A headers-done callback that declares a chunked body. *)
Definition declare_chunked : Reader.SoupReadHeadersDoneFn (U := unit) :=
  fun _ _ _ u => (SOUP_TRANSFER_CONTINUE, SOUP_TRANSFER_CHUNKED, 0, u).

(** A headers-done callback that leaves the encoding unknown. *)
Definition declare_unknown : Reader.SoupReadHeadersDoneFn (U := unit) :=
  fun _ _ _ u => (SOUP_TRANSFER_CONTINUE, SOUP_TRANSFER_UNKNOWN, 0, u).

(** A chunk callback that ends the transfer. *)
Definition stop_reading : Reader.SoupReadChunkFn (U := unit) :=
  fun _ u => (SOUP_TRANSFER_END, u).

(** The reader after the headers (declared length 5), before any byte of
    the body. *)
Definition awaiting_body_reader : Reader.SoupReader unit :=
  Reader.mkReader 0 1 2 false false [] 19 false
    SOUP_TRANSFER_CONTENT_LENGTH 5 (Decoder.mkChunkState 0 0)
    (Some (declare_length 5)) (Some keep_reading)
    (Some (fun _ u => u)) (Some (fun _ u => u)) tt.

(** A reader whose chunk callback ends the transfer. *)
Definition stopping_reader : Reader.SoupReader unit :=
  Reader.soup_transfer_read 0 false
    (Some (declare_length 10)) (Some stop_reading)
    (Some (fun _ u => u)) (Some (fun _ u => u)) tt 1 2.

(** A writer of a four-byte header block and the body [hello], with a
    headers-done and a done callback. *)
Definition message_writer : Writer.SoupWriter unit :=
  snd (Writer.soup_transfer_write 0 (Some (bytes "ABCD"))
         (Some (mkBuffer SOUP_BUFFER_USER_OWNED (bytes "hello") 5))
         SOUP_TRANSFER_CONTENT_LENGTH
         (Some (fun u => u)) None (Some (fun u => u)) None tt 1 2).

(** *** Proof tools *)

(** Unfolds the field updates and the fields of an explicit reader. *)
Ltac reader_fields :=
  cbv [Reader.set_header_len Reader.set_recv_buf Reader.UNIGNORE_CANCEL
       Reader.IGNORE_CANCEL Reader.set_user_data Reader.set_content_length
       Reader.set_encoding Reader.set_processing Reader.set_callback_issued
       Reader.set_chunk_state Reader.channel Reader.read_tag Reader.err_tag
       Reader.callback_issued Reader.processing Reader.recv_buf
       Reader.header_len Reader.overwrite_chunks Reader.encoding
       Reader.content_length Reader.chunk_state Reader.headers_done_cb
       Reader.read_chunk_cb Reader.read_done_cb Reader.error_cb
       Reader.user_data].

(** The same for an explicit writer. *)
Ltac writer_fields :=
  cbv [Writer.set_processing Writer.set_write_buf Writer.set_header_len
       Writer.set_headers_done Writer.set_chunk_cnt Writer.set_write_chunk_cb
       Writer.set_user_data Writer.IGNORE_CANCEL Writer.UNIGNORE_CANCEL
       Writer.channel Writer.write_tag Writer.err_tag Writer.processing
       Writer.encoding Writer.write_buf Writer.header_len Writer.headers_done
       Writer.chunk_cnt Writer.headers_done_cb Writer.write_chunk_cb
       Writer.write_done_cb Writer.error_cb Writer.user_data].

(** * Properties *)

(** ** Machine integers in range *)

Lemma guint_wrap_small (z : Z) : 0 <= z < 2 ^ 32 -> guint_wrap z = z.
Proof. intros H. unfold guint_wrap. apply Z.mod_small. exact H. Qed.

Lemma gint_wrap_small (z : Z) : - 2 ^ 31 <= z < 2 ^ 31 -> gint_wrap z = z.
Proof.
  intros H. unfold gint_wrap.
  rewrite Z.mod_small; lia.
Qed.

(** ** Removing a block *)

Lemma firstn_prefix_exact {A : Type} (l1 l2 : list A) (n : nat) :
  n = List.length l1 -> firstn n (l1 ++ l2) = l1.
Proof.
  intros ->. rewrite firstn_app, Nat.sub_diag, firstn_all. simpl.
  apply app_nil_r.
Qed.

(** The [g_memmove] and the [g_byte_array_set_size] together cut the block
    out. *)
Lemma block_cut_out (arr : GByteArray) (offset blen : Z) :
  0 <= offset -> 0 < blen -> offset + blen <= arr_len arr ->
  g_byte_array_set_size
    (g_memmove arr (Z.to_nat offset) (Z.to_nat (offset + blen))
       (Z.to_nat (arr_len arr - offset - blen)))
    (Z.to_nat (arr_len arr - blen)) =
  firstn (Z.to_nat offset) arr ++ skipn (Z.to_nat (offset + blen)) arr.
Proof.
  intros Ho Hb Hle.
  unfold g_byte_array_set_size, g_memmove, arr_len in *.
  set (o := Z.to_nat offset).
  set (e := Z.to_nat (offset + blen)).
  assert (He : (e <= List.length arr)%nat) by (subst e; lia).
  assert (Hoe : (o <= e)%nat) by (subst o e; lia).
  replace (Z.to_nat (Z.of_nat (List.length arr) - offset - blen))
    with (List.length arr - e)%nat by (subst e; lia).
  replace (Z.to_nat (Z.of_nat (List.length arr) - blen))
    with (o + (List.length arr - e))%nat by (subst o e; lia).
  rewrite (firstn_all2 (n := List.length arr - e) (skipn e arr))
    by (rewrite length_skipn; lia).
  rewrite app_assoc. apply firstn_prefix_exact.
  rewrite length_app, length_firstn, length_skipn. lia.
Qed.

Lemma remove_block_at_index_ok (arr : GByteArray) (offset blen : Z) :
  0 <= offset -> 0 < blen -> offset + blen <= arr_len arr -> arr_len arr < 2 ^ 32 ->
  remove_block_at_index arr offset blen =
  Done (firstn (Z.to_nat offset) arr ++ skipn (Z.to_nat (offset + blen)) arr).
Proof.
  intros Ho Hb Hle Hlen. unfold remove_block_at_index.
  replace (blen =? 0) with false by (symmetry; apply Z.eqb_neq; lia).
  rewrite guint_wrap_small by lia.
  replace (arr_len arr <? offset + blen) with false
    by (symmetry; apply Z.ltb_ge; lia).
  replace (offset <? 0) with false by (symmetry; apply Z.ltb_ge; lia).
  replace (offset + blen <? 0) with false by (symmetry; apply Z.ltb_ge; lia).
  replace (arr_len arr <? offset) with false by (symmetry; apply Z.ltb_ge; lia).
  cbn [orb]. f_equal. apply block_cut_out; assumption.
Qed.

Lemma remove_block_at_index_all (arr : GByteArray) :
  0 < arr_len arr < 2 ^ 32 ->
  remove_block_at_index arr 0 (arr_len arr) = Done [].
Proof.
  intros H. rewrite remove_block_at_index_ok by lia.
  cbn [Z.to_nat firstn app]. unfold arr_len.
  rewrite Z.add_0_l, Nat2Z.id, skipn_all. reflexivity.
Qed.

(** C10.  For a byte array [arr] (its length a [guint]), an offset and a
    non-zero length with [offset + length <= arr.len],
    [remove_block_at_index] yields the first [offset] bytes of [arr] followed
    by its bytes from [offset + length] on: the array is shorter by exactly
    [length], the bytes before the block keep their place and the bytes
    after it move down by [length], in order. *)
Theorem remove_block_at_index_removes_block
    (arr : GByteArray) (offset blen : Z)
    (Hoffset : 0 <= offset) (Hblen : 0 <= blen) (Hnonzero : blen <> 0)
    (Hfits : offset + blen <= arr_len arr) (Hguint : arr_len arr < 2 ^ 32) :
  exists arr',
    remove_block_at_index arr offset blen = Done arr' /\
    arr' = firstn (Z.to_nat offset) arr ++ skipn (Z.to_nat (offset + blen)) arr /\
    arr_len arr' = arr_len arr - blen /\
    (forall i, (i < Z.to_nat offset)%nat -> nth_error arr' i = nth_error arr i) /\
    (forall i, (Z.to_nat offset <= i)%nat ->
               nth_error arr' i = nth_error arr (i + Z.to_nat blen)).
Proof.
  eexists. split; [apply remove_block_at_index_ok; lia|].
  split; [reflexivity|].
  unfold arr_len in *.
  assert (Hl : List.length (firstn (Z.to_nat offset) arr) = Z.to_nat offset)
    by (rewrite length_firstn; lia).
  split; [|split].
  - rewrite length_app, Hl, length_skipn. lia.
  - intros i Hi. rewrite nth_error_app1 by lia.
    rewrite nth_error_firstn.
    replace (i <? Z.to_nat offset)%nat with true
      by (symmetry; apply Nat.ltb_lt; exact Hi).
    reflexivity.
  - intros i Hi. rewrite nth_error_app2 by lia.
    rewrite Hl, nth_error_skipn. f_equal. lia.
Qed.

Lemma remove_block_at_index_removes_block_witness :
  exists arr',
    remove_block_at_index (bytes "abcdefgh") 2 3 = Done arr' /\
    arr' = bytes "abfgh".
Proof.
  destruct (remove_block_at_index_removes_block (bytes "abcdefgh") 2 3)
    as (arr' & Hrun & Heq & _).
  - lia.
  - lia.
  - lia.
  - vm_compute. discriminate.
  - vm_compute. reflexivity.
  - exists arr'. split; [exact Hrun|]. rewrite Heq. reflexivity.
Defined.

(** ** Decoding a hexadecimal chunk size *)

Lemma hex_digit_decoded (c : ascii) :
  isxdigit c = true ->
  (if isdigit c then code c - 48 else tolower c - 87) = hex_digit_value c
  /\ 0 <= hex_digit_value c <= 15.
Proof.
  destruct c as [[] [] [] [] [] [] [] []]; vm_compute; intros H;
    try discriminate H; split; try reflexivity; split; discriminate.
Qed.

Lemma hex_width_digits (ds : list ascii) (c : ascii) (rest : list ascii) :
  forallb isxdigit ds = true -> isxdigit c = false ->
  hex_width (ds ++ c :: rest) = List.length ds.
Proof.
  intros Hds Hc. induction ds as [|d ds IH]; simpl.
  - rewrite Hc. reflexivity.
  - simpl in Hds. apply andb_prop in Hds as [Hd Hds].
    rewrite Hd, IH by exact Hds. reflexivity.
Qed.

Lemma hex_positional_nonneg (ds : list ascii) :
  forallb isxdigit ds = true -> 0 <= hex_positional ds.
Proof.
  induction ds as [|d ds IH]; simpl; intros H; [lia|].
  apply andb_prop in H as [Hd Hds].
  pose proof (proj2 (hex_digit_decoded d Hd)).
  specialize (IH Hds).
  assert (0 < 2 ^ (4 * Z.of_nat (List.length ds))) by (apply Z.pow_pos_nonneg; lia).
  nia.
Qed.

Lemma hex_numeral_positional (ds : list ascii) (acc : Z) :
  fold_left (fun a c => 16 * a + hex_digit_value c) ds acc =
  acc * 2 ^ (4 * Z.of_nat (List.length ds)) + hex_positional ds.
Proof.
  revert acc. induction ds as [|d ds IH]; intros acc; cbn [fold_left].
  - simpl. lia.
  - rewrite IH. cbn [hex_positional List.length].
    replace (4 * Z.of_nat (S (List.length ds)))
      with (4 + 4 * Z.of_nat (List.length ds)) by lia.
    rewrite Z.pow_add_r by lia. change (2 ^ 4) with 16.
    generalize (2 ^ (4 * Z.of_nat (List.length ds))). intros p. ring.
Qed.

(** The loop adds up the digits without ever wrapping, as long as the sum
    stays in the range of a [gint]. *)
Lemma decode_hex_loop_value (ds tail : list ascii) (acc : Z) :
  forallb isxdigit ds = true ->
  0 <= acc -> acc + hex_positional ds < 2 ^ 31 ->
  decode_hex_loop (List.length ds) (ds ++ tail) acc = acc + hex_positional ds.
Proof.
  revert acc. induction ds as [|d ds IH]; intros acc Hds Hacc Hlt.
  - simpl. lia.
  - simpl in Hds. apply andb_prop in Hds as [Hd Hds].
    destruct (hex_digit_decoded d Hd) as [Hdig Hrange].
    pose proof (hex_positional_nonneg ds Hds) as Hpos.
    cbn [hex_positional] in Hlt |- *.
    set (p := 2 ^ (4 * Z.of_nat (List.length ds))) in *.
    assert (Hp : 0 < p) by (apply Z.pow_pos_nonneg; lia).
    cbn [List.length decode_hex_loop app hd tl].
    rewrite Hdig. unfold gint_shl.
    rewrite Z.shiftl_mul_pow2 by lia. fold p.
    rewrite (gint_wrap_small (hex_digit_value d * p)) by nia.
    rewrite gint_wrap_small by nia.
    rewrite IH; [lia | exact Hds | nia | lia].
Qed.

(** C7, as amended.  For a byte string that starts with [k >= 1] hexadecimal
    digits (of either case) followed by a byte that is no hexadecimal digit,
    and whose numeral has a value below 2^31, the range of the [gint]
    result, [decode_hex] returns that value, read case-insensitively, and
    stores [k] in its width. *)
Theorem decode_hex_value_in_range
    (ds : list ascii) (c : ascii) (rest : list ascii)
    (Hk : (1 <= List.length ds)%nat)
    (Hdigits : forallb isxdigit ds = true)
    (Hstop : isxdigit c = false)
    (Hrange : hex_numeral_value ds < 2 ^ 31) :
  decode_hex (ds ++ c :: rest) = (hex_numeral_value ds, Z.of_nat (List.length ds)).
Proof.
  unfold decode_hex, hex_numeral_value in *.
  rewrite hex_numeral_positional in *.
  rewrite hex_width_digits by assumption.
  rewrite decode_hex_loop_value; [reflexivity | exact Hdigits | lia | lia].
Qed.

Lemma decode_hex_value_in_range_witness :
  decode_hex (bytes "1aF;name=val") = (431, 3).
Proof.
  apply (decode_hex_value_in_range (bytes "1aF") ";"%char (bytes "name=val")).
  - simpl. lia.
  - reflexivity.
  - reflexivity.
  - vm_compute. reflexivity.
Defined.

(** C7, as stated, fails on eight digits whose value is 2^31: the [gint]
    sum wraps and [decode_hex] returns a negative length. *)
Lemma decode_hex_overflow :
  forallb isxdigit (bytes "80000000") = true /\
  isxdigit ";"%char = false /\
  hex_numeral_value (bytes "80000000") = 2147483648 /\
  decode_hex (bytes "80000000" ++ [";"%char]) = (-2147483648, 8) /\
  decode_hex (bytes "80000000" ++ [";"%char]) <>
    (hex_numeral_value (bytes "80000000"), 8).
Proof.
  repeat split; try (vm_compute; reflexivity).
  vm_compute. discriminate.
Qed.

(** ** Traces of the monad *)

Lemma bind_trace_Forall {A B : Type} (P : event -> Prop) (m : M A) (k : A -> M B) :
  Forall P (fst m) -> (forall a, Forall P (fst (k a))) ->
  Forall P (fst (bind m k)).
Proof.
  intros Hm Hk. destruct m as [t [a| |]]; simpl in *; try exact Hm.
  specialize (Hk a). destruct (k a) as [t' o]. simpl in *.
  apply Forall_app. split; assumption.
Qed.

Lemma ret_trace_Forall {A : Type} (P : event -> Prop) (a : A) :
  Forall P (fst (ret a)).
Proof. constructor. Qed.

Lemma of_outcome_trace_Forall {A : Type} (P : event -> Prop) (o : outcome A) :
  Forall P (fst (of_outcome o)).
Proof. constructor. Qed.

Lemma lift_trace_Forall {A : Type} (P : event -> Prop) (m : traced A) :
  Forall P (fst m) -> Forall P (fst (lift m)).
Proof. intros H. exact H. Qed.

Lemma bind_done_inv {A B : Type} (m : M A) (k : A -> M B) (t : list event) (b : B) :
  bind m k = (t, Done b) ->
  exists t1 a t2, m = (t1, Done a) /\ k a = (t2, Done b) /\ t = t1 ++ t2.
Proof.
  destruct m as [t1 [a| |]]; simpl; try discriminate.
  destruct (k a) as [t2 o] eqn:Hk. intros H. inversion H; subst.
  exists t1, a, t2. auto.
Qed.

(** ** The reader never hands out an empty chunk *)

Section ReaderTraces.

Import Reader Decoder.
Context {U : Type}.
Implicit Types r : SoupReader U.

Lemma issue_chunk_callback_trace r data dlen c :
  Forall no_empty_chunk (fst (issue_chunk_callback r data dlen c)).
Proof.
  unfold issue_chunk_callback.
  destruct (read_chunk_cb r) as [cb|]; [|constructor].
  destruct (dlen =? 0) eqn:Hd; cbn [negb]; [constructor|].
  destruct (cb _ _) as [cont u]. cbn [fst].
  constructor; [|constructor]. simpl. apply Z.eqb_neq. exact Hd.
Qed.

Lemma read_content_length_trace r c :
  Forall no_empty_chunk (fst (read_content_length r c)).
Proof.
  unfold read_content_length.
  destruct (arr_len (recv_buf r) =? 0); [constructor|].
  pose proof (issue_chunk_callback_trace r (recv_buf r) (arr_len (recv_buf r)) c) as H.
  destruct (issue_chunk_callback _ _ _ _) as [t [r' c']].
  destruct c'; exact H.
Qed.

Lemma read_unknown_trace r c :
  Forall no_empty_chunk (fst (read_unknown r c)).
Proof.
  unfold read_unknown.
  destruct (arr_len (recv_buf r) =? 0); [constructor|].
  pose proof (issue_chunk_callback_trace r (recv_buf r) (arr_len (recv_buf r)) c) as H.
  destruct (issue_chunk_callback _ _ _ _) as [t [r' c']].
  destruct c'; exact H.
Qed.

Lemma read_chunk_trace r c :
  Forall no_empty_chunk (fst (read_chunk r c)).
Proof.
  unfold read_chunk.
  apply bind_trace_Forall; [apply of_outcome_trace_Forall|]. intros d.
  destruct (d_datalen d =? 0); [apply ret_trace_Forall|].
  apply bind_trace_Forall.
  - apply lift_trace_Forall, issue_chunk_callback_trace.
  - intros [r' c']. destruct c'; [apply ret_trace_Forall|].
    destruct (overwrite_chunks r'); [|apply ret_trace_Forall].
    apply bind_trace_Forall; [apply of_outcome_trace_Forall|].
    intros arr. apply ret_trace_Forall.
Qed.

Lemma issue_final_callback_trace r :
  Forall no_empty_chunk (fst (issue_final_callback r)).
Proof.
  unfold issue_final_callback. cbn.
  destruct (read_done_cb r); repeat constructor.
Qed.

Lemma soup_transfer_read_cancel_trace r :
  Forall no_empty_chunk (fst (soup_transfer_read_cancel r)).
Proof.
  unfold soup_transfer_read_cancel.
  destruct (processing r); repeat constructor.
Qed.

Lemma finish_read_trace r :
  Forall no_empty_chunk (fst (finish_read r)).
Proof.
  unfold finish_read.
  pose proof (soup_transfer_read_cancel_trace r) as H.
  destruct (soup_transfer_read_cancel r). exact H.
Qed.

Lemma process_body_trace r n :
  Forall no_empty_chunk (fst (process_body r n)).
Proof.
  unfold process_body.
  apply bind_trace_Forall.
  - destruct (n =? 0); [apply ret_trace_Forall|].
    destruct (encoding r).
    + apply lift_trace_Forall, read_unknown_trace.
    + apply read_chunk_trace.
    + apply lift_trace_Forall, read_content_length_trace.
  - intros [[r' c'] d']. destruct c'; [apply finish_read_trace|].
    destruct d'; cbn [negb]; [|apply ret_trace_Forall].
    apply bind_trace_Forall.
    + apply lift_trace_Forall, issue_final_callback_trace.
    + intros r''. apply finish_read_trace.
Qed.

Lemma process_read_trace r n :
  Forall no_empty_chunk (fst (process_read r n)).
Proof.
  unfold process_read.
  destruct (header_len r =? 0); [|apply process_body_trace].
  destruct (_ <? 0); [apply ret_trace_Forall|].
  destruct (headers_done_cb r) as [cb|].
  - destruct (cb _ _ _ _) as [[[res enc] clen] u].
    apply bind_trace_Forall; [repeat constructor|].
    intros _. destruct res; [apply finish_read_trace|].
    apply bind_trace_Forall; [apply of_outcome_trace_Forall|].
    intros arr. apply process_body_trace.
  - apply bind_trace_Forall; [apply of_outcome_trace_Forall|].
    intros arr. apply process_body_trace.
Qed.

Lemma soup_transfer_read_error_cb_trace r :
  Forall no_empty_chunk (fst (soup_transfer_read_error_cb r)).
Proof.
  unfold soup_transfer_read_error_cb.
  destruct (encoding_eqb _ _).
  - pose proof (issue_final_callback_trace r) as H1.
    destruct (issue_final_callback r) as [t1 r1].
    pose proof (soup_transfer_read_cancel_trace r1) as H2.
    destruct (soup_transfer_read_cancel r1) as [t2 o].
    apply Forall_app. split; assumption.
  - destruct (error_cb (IGNORE_CANCEL r)) as [cb|];
      match goal with
      | |- context [soup_transfer_read_cancel ?x] =>
          pose proof (soup_transfer_read_cancel_trace x) as H2;
          destruct (soup_transfer_read_cancel x) as [t2 o]
      end.
    + constructor; [exact I|exact H2].
    + exact H2.
Qed.

Lemma read_again_trace (chan : list read_result) r n :
  Forall no_empty_chunk (fst (read_again chan r n)).
Proof.
  revert r n. induction chan as [|a chan IH]; intros r n.
  - cbn [read_again]. destruct (n =? 0); cbn [negb]; [apply ret_trace_Forall|].
    apply bind_trace_Forall; [apply process_read_trace|].
    intros [e|r']; apply ret_trace_Forall.
  - assert (Hproc : Forall no_empty_chunk
              (fst (x <~ process_read r n ;;
                    after x chan (fun c r' => read_again c r' 0)))).
    { apply bind_trace_Forall; [apply process_read_trace|].
      intros [e|r']; [apply ret_trace_Forall|apply IH]. }
    destruct a as [data| |]; cbn [read_again].
    + destruct (arr_len data =? 0); cbn [negb]; [exact Hproc|apply IH].
    + destruct (n =? 0); cbn [negb]; [apply ret_trace_Forall|exact Hproc].
    + destruct (n =? 0); cbn [negb]; [|exact Hproc].
      apply bind_trace_Forall.
      * apply lift_trace_Forall, soup_transfer_read_error_cb_trace.
      * intros e. apply ret_trace_Forall.
Qed.

(** C9.  In all three body modes the body-chunk callback is never invoked
    with a zero-length buffer: [issue_chunk_callback] does nothing at all
    when the data length is 0, the content-length and unknown body steps
    leave no trace when the receive buffer is empty, and no trace of a body
    step, of the error handler or of a whole run of the read handler, on
    any channel, holds a chunk callback whose buffer has length 0. *)
Theorem chunk_callback_never_empty :
  (forall r data c, issue_chunk_callback r data 0 c = ([], (r, c))) /\
  (forall r c, arr_len (recv_buf r) = 0 ->
     fst (read_content_length r c) = [] /\ fst (read_unknown r c) = []) /\
  (forall r c,
     Forall no_empty_chunk (fst (read_chunk r c)) /\
     Forall no_empty_chunk (fst (read_content_length r c)) /\
     Forall no_empty_chunk (fst (read_unknown r c))) /\
  (forall r, Forall no_empty_chunk (fst (soup_transfer_read_error_cb r))) /\
  (forall chan r, Forall no_empty_chunk (fst (soup_transfer_read_cb chan r))).
Proof.
  repeat split.
  - intros r data c. unfold issue_chunk_callback.
    destruct (read_chunk_cb r); reflexivity.
  - unfold read_content_length. rewrite H. reflexivity.
  - unfold read_unknown. rewrite H. reflexivity.
  - apply read_chunk_trace.
  - apply read_content_length_trace.
  - apply read_unknown_trace.
  - apply soup_transfer_read_error_cb_trace.
  - intros chan r. apply read_again_trace.
Qed.

End ReaderTraces.

Lemma chunk_callback_never_empty_witness :
  fst (Reader.read_content_length (fresh_reader 0) false) = [] /\
  fst (Reader.read_unknown (fresh_reader 0) false) = [] /\
  Forall no_empty_chunk
    (fst (Reader.soup_transfer_read_cb
            [ReadOk (ok_header ++ bytes "hello"); ReadAgain] (fresh_reader 5))).
Proof.
  destruct (@chunk_callback_never_empty unit) as (_ & Hempty & _ & _ & Hrun).
  destruct (Hempty (fresh_reader 0) false) as [H1 H2].
  - reflexivity.
  - split; [exact H1|]. split; [exact H2|]. apply Hrun.
Defined.

(** ** The invariant of the reader is kept *)

Section ReaderInvariant.

Import Reader Decoder.
Context {U : Type}.
Implicit Types r : SoupReader U.

Lemma reader_inv_framing r r' :
  framing r' = framing r -> reader_inv r -> reader_inv r'.
Proof.
  unfold framing, reader_inv. intros H. inversion H as [[He Hh]].
  rewrite He, Hh. auto.
Qed.

Lemma issue_chunk_callback_framing r data dlen c :
  framing (fst (snd (issue_chunk_callback r data dlen c))) = framing r.
Proof.
  unfold issue_chunk_callback.
  destruct (read_chunk_cb r) as [cb|]; [|reflexivity].
  destruct (dlen =? 0); cbn [negb]; [reflexivity|].
  destruct (cb _ _) as [cont u]. reflexivity.
Qed.

Lemma issue_chunk_callback_buffer r data dlen c :
  let r' := fst (snd (issue_chunk_callback r data dlen c)) in
  recv_buf r' = recv_buf r /\ content_length r' = content_length r /\
  overwrite_chunks r' = overwrite_chunks r.
Proof.
  unfold issue_chunk_callback.
  destruct (read_chunk_cb r) as [cb|]; [|auto].
  destruct (dlen =? 0); cbn [negb]; [auto|].
  destruct (cb _ _) as [cont u]. cbn. auto.
Qed.

Lemma issue_final_callback_framing r :
  framing (snd (issue_final_callback r)) = framing r.
Proof.
  unfold issue_final_callback. cbn.
  destruct (read_done_cb r); reflexivity.
Qed.

Lemma read_content_length_framing r c :
  framing (fst (fst (snd (read_content_length r c)))) = framing r.
Proof.
  unfold read_content_length.
  destruct (arr_len (recv_buf r) =? 0); [reflexivity|].
  pose proof (issue_chunk_callback_framing r (recv_buf r) (arr_len (recv_buf r)) c) as H.
  destruct (issue_chunk_callback _ _ _ _) as [t [r' c']]. cbn [fst snd] in H.
  destruct c'; [exact H|].
  destruct (overwrite_chunks r'); exact H.
Qed.

Lemma read_unknown_framing r c :
  framing (fst (fst (snd (read_unknown r c)))) = framing r.
Proof.
  unfold read_unknown.
  destruct (arr_len (recv_buf r) =? 0); [reflexivity|].
  pose proof (issue_chunk_callback_framing r (recv_buf r) (arr_len (recv_buf r)) c) as H.
  destruct (issue_chunk_callback _ _ _ _) as [t [r' c']]. cbn [fst snd] in H.
  destruct c'; [exact H|].
  destruct (overwrite_chunks r'); exact H.
Qed.

Lemma read_chunk_framing r c t r' c' d :
  read_chunk r c = (t, Done (r', c', d)) -> framing r' = framing r.
Proof.
  unfold read_chunk. intros H.
  apply bind_done_inv in H as (t1 & dec & t2 & _ & H & _).
  destruct (d_datalen dec =? 0).
  { inversion H; subst. reflexivity. }
  apply bind_done_inv in H as (t3 & [r1 c1] & t4 & Hcb & H & _).
  assert (Hr1 : framing r1 = framing r).
  { unfold lift in Hcb. inversion Hcb as [[Ht Hrc]].
    match type of Hrc with
    | snd (issue_chunk_callback ?a ?b ?c ?d) = _ =>
        pose proof (issue_chunk_callback_framing a b c d) as Hf
    end.
    rewrite Hrc in Hf. exact Hf. }
  destruct c1.
  { inversion H; subst. exact Hr1. }
  destruct (overwrite_chunks r1).
  - apply bind_done_inv in H as (t5 & arr & t6 & _ & H & _).
    inversion H; subst. exact Hr1.
  - inversion H; subst. exact Hr1.
Qed.

Lemma finish_read_inv r t s :
  reader_inv r -> finish_read r = (t, Done s) -> step_inv s.
Proof.
  unfold finish_read, soup_transfer_read_cancel. intros Hr H.
  destruct (processing r); inversion H; subst; intros r' Hs;
    inversion Hs; subst; exact Hr.
Qed.

Lemma process_body_inv r n t s :
  reader_inv r -> process_body r n = (t, Done s) -> step_inv s.
Proof.
  unfold process_body. intros Hr H.
  apply bind_done_inv in H as (t1 & [[r1 c1] d1] & t2 & Hstep & H & _).
  assert (Hr1 : reader_inv r1).
  { destruct (n =? 0).
    { inversion Hstep; subst. exact Hr. }
    apply reader_inv_framing with (r := r); [|exact Hr].
    destruct (encoding r).
    - inversion Hstep as [[Ht Hx]].
      pose proof (read_unknown_framing r false) as Hf.
      rewrite Hx in Hf. exact Hf.
    - eapply read_chunk_framing. exact Hstep.
    - inversion Hstep as [[Ht Hx]].
      pose proof (read_content_length_framing r false) as Hf.
      rewrite Hx in Hf. exact Hf. }
  destruct c1; [eapply finish_read_inv; eassumption|].
  destruct d1; cbn [negb] in H.
  - apply bind_done_inv in H as (t3 & r2 & t4 & Hfin & H & _).
    eapply finish_read_inv; [|exact H].
    apply reader_inv_framing with (r := r1); [|exact Hr1].
    inversion Hfin as [[Ht Hx]]. apply issue_final_callback_framing.
  - inversion H; subst. exact Hr1.
Qed.

Lemma process_read_inv r n t s :
  reader_inv r -> process_read r n = (t, Done s) -> step_inv s.
Proof.
  unfold process_read. intros Hr H.
  destruct (header_len r =? 0); [|eapply process_body_inv; eassumption].
  set (index := soup_substring_index (recv_buf r) (arr_len (recv_buf r)) CRLFCRLF) in *.
  destruct (index <? 0) eqn:Hidx.
  { inversion H; subst. intros r' Hs. inversion Hs; subst. exact Hr. }
  apply Z.ltb_ge in Hidx.
  destruct (headers_done_cb r) as [cb|].
  - destruct (cb _ _ _ _) as [[[res enc] clen] u].
    apply bind_done_inv in H as (t1 & x & t2 & _ & H & _).
    destruct res.
    + unfold finish_read in H. cbn in H. inversion H; subst.
      intros r' Hs. discriminate Hs.
    + apply bind_done_inv in H as (t3 & arr & t4 & _ & H & _).
      eapply process_body_inv; [|exact H].
      split; cbn; intros; lia.
  - apply bind_done_inv in H as (t3 & arr & t4 & _ & H & _).
    eapply process_body_inv; [|exact H].
    split; cbn; intros; lia.
Qed.

Lemma soup_transfer_read_error_cb_inv r :
  reader_inv r -> exit_inv (snd (soup_transfer_read_error_cb r)).
Proof.
  unfold soup_transfer_read_error_cb, exit_inv. intros Hr r'.
  destruct (encoding_eqb _ _).
  - pose proof (issue_final_callback_framing r) as Hf.
    destruct (issue_final_callback r) as [t1 r1]. cbn [snd] in Hf.
    unfold soup_transfer_read_cancel.
    destruct (processing r1); cbn; intros Hs; inversion Hs; subst.
    eapply reader_inv_framing; eassumption.
  - destruct (error_cb (IGNORE_CANCEL r)); cbn; discriminate.
Qed.

Lemma read_again_inv (chan : list read_result) r n t e rest :
  reader_inv r -> read_again chan r n = (t, Done (e, rest)) -> exit_inv e.
Proof.
  revert r n t e rest. induction chan as [|a chan IH]; intros r n t e rest Hr H.
  - cbn [read_again] in H. destruct (n =? 0); cbn [negb] in H.
    + inversion H; subst. intros r' Hs. inversion Hs; subst. exact Hr.
    + apply bind_done_inv in H as (t1 & s & t2 & Hp & H & _).
      apply process_read_inv in Hp; [|exact Hr].
      destruct s as [e'|r1]; inversion H; subst; [exact Hp|].
      intros r' Hs. inversion Hs; subst. exact Hp.
  - assert (Hproc : forall t e rest,
              (x <~ process_read r n ;;
               after x chan (fun c r' => read_again c r' 0)) = (t, Done (e, rest)) ->
              exit_inv e).
    { intros t' e' rest' H'.
      apply bind_done_inv in H' as (t1 & s & t2 & Hp & H' & _).
      apply process_read_inv in Hp; [|exact Hr].
      destruct s as [e1|r1]; cbn [after] in H'.
      - inversion H'; subst. exact Hp.
      - eapply IH; eassumption. }
    destruct a as [data| |]; cbn [read_again] in H.
    + destruct (arr_len data =? 0); cbn [negb] in H; [eapply Hproc; exact H|].
      eapply IH; [|exact H]. exact Hr.
    + destruct (n =? 0); cbn [negb] in H; [|eapply Hproc; exact H].
      inversion H; subst. intros r' Hs. inversion Hs; subst. exact Hr.
    + destruct (n =? 0); cbn [negb] in H; [|eapply Hproc; exact H].
      apply bind_done_inv in H as (t1 & e1 & t2 & He & H & _).
      inversion H; subst. inversion He as [[Ht Hx]].
      apply soup_transfer_read_error_cb_inv. exact Hr.
Qed.

(** Every reader [soup_transfer_read] makes satisfies the invariant, and
    every reader a run of the read handler leaves alive satisfies it again. *)
Lemma reader_inv_reachable :
  (forall chan oc hcb ccb dcb ecb (u : U) rt et,
     reader_inv (soup_transfer_read chan oc hcb ccb dcb ecb u rt et)) /\
  (forall chan r t e rest,
     reader_inv r -> soup_transfer_read_cb chan r = (t, Done (e, rest)) -> exit_inv e).
Proof.
  split.
  - intros. split; cbn; [lia|]. intros H. contradiction H. reflexivity.
  - intros chan r t e rest Hr H. eapply read_again_inv; eassumption.
Qed.


(** C6.  [read_content_length] reports the body complete exactly when the
    content length still expected equals the length of the receive buffer,
    both as the step leaves them and (for lengths in the range of a
    [guint]) as it finds them; and when the headers-done callback declares
    a content length of zero and the header block is all the buffer holds,
    the transfer completes in the same pass: the trace has the headers-done
    callback, the final delivery of an empty buffer and the teardown, and
    no body-chunk callback. *)
Theorem read_content_length_completion :
  (forall (r : SoupReader U) c,
     let '(_, (r', _, done)) := read_content_length r c in
     done = (content_length r' =? arr_len (recv_buf r'))) /\
  (forall (r : SoupReader U) c,
     0 <= content_length r < 2 ^ 32 -> arr_len (recv_buf r) < 2 ^ 32 ->
     snd (snd (read_content_length r c)) =
       (content_length r =? arr_len (recv_buf r))) /\
  (forall (r : SoupReader U) cb u' index total_read,
     header_len r = 0 ->
     headers_done_cb r = Some cb ->
     soup_substring_index (recv_buf r) (arr_len (recv_buf r)) CRLFCRLF = index ->
     0 <= index ->
     index + 4 = arr_len (recv_buf r) ->
     arr_len (recv_buf r) < 2 ^ 32 ->
     cb (strncpy (recv_buf r) (Z.to_nat (index + 4)))
        (encoding r) (content_length r) (user_data r) =
       (SOUP_TRANSFER_CONTINUE, SOUP_TRANSFER_CONTENT_LENGTH, 0, u') ->
     process_read r total_read =
       (EvReadHeadersDone (strncpy (recv_buf r) (Z.to_nat (index + 4)))
          :: match read_done_cb r with
             | Some _ => [EvReadDone (mkBuffer SOUP_BUFFER_SYSTEM_OWNED [] 0)]
             | None => []
             end
          ++ [EvSourceRemove (read_tag r);
              EvSourceRemove (err_tag r);
              EvByteArrayFree
                match read_done_cb r with
                | Some _ => false
                | None => if callback_issued r then false else true
                end;
              EvFree],
        Done (Return (mkExit false None)))).
Proof.
  split; [|split].
  - intros r c. unfold read_content_length.
    destruct (arr_len (recv_buf r) =? 0); [reflexivity|].
    destruct (issue_chunk_callback _ _ _ _) as [t [r' c']].
    destruct c'; reflexivity.
  - intros r c Hcl Hlen. unfold read_content_length.
    destruct (arr_len (recv_buf r) =? 0); [reflexivity|].
    pose proof (issue_chunk_callback_buffer r (recv_buf r) (arr_len (recv_buf r)) c)
      as (Hbuf & Hclen & _).
    destruct (issue_chunk_callback _ _ _ _) as [t [r' c']]. cbn [fst snd] in *.
    destruct c'; cbn [snd]; [rewrite Hbuf, Hclen; reflexivity|].
    destruct (overwrite_chunks r'); cbn [snd]; [|rewrite Hbuf, Hclen; reflexivity].
    cbn. rewrite Hbuf, Hclen.
    assert (Hsub : - 2 ^ 32 < content_length r - arr_len (recv_buf r) < 2 ^ 32)
      by (unfold arr_len in *; lia).
    unfold guint_wrap.
    destruct (content_length r =? arr_len (recv_buf r)) eqn:Heq.
    + apply Z.eqb_eq in Heq. rewrite Heq, Z.sub_diag. reflexivity.
    + apply Z.eqb_neq in Heq. apply Z.eqb_neq. intros Hmod.
      apply Z.mod_divide in Hmod; [|lia].
      destruct Hmod as [k Hk]. nia.
  - intros r cb u' index total_read Hh Hcb Hidx Hpos Hend Hlen Hres.
    unfold process_read. rewrite Hh. cbn [Z.eqb]. rewrite Hidx.
    replace (index <? 0) with false by (symmetry; apply Z.ltb_ge; exact Hpos).
    rewrite Hcb.
    change (encoding (IGNORE_CANCEL r)) with (encoding r).
    change (content_length (IGNORE_CANCEL r)) with (content_length r).
    change (user_data (IGNORE_CANCEL r)) with (user_data r).
    change (recv_buf (IGNORE_CANCEL r)) with (recv_buf r).
    rewrite Hres. cbn [lift fst snd bind app].
    match goal with
    | |- context [remove_block_at_index ?a 0 (index + 4)] =>
        change a with (recv_buf r)
    end.
    rewrite Hend, remove_block_at_index_all by lia.
    unfold process_body, read_content_length, issue_final_callback, finish_read,
      soup_transfer_read_cancel.
    destruct (total_read =? 0); destruct (read_done_cb r) eqn:Hdone;
      cbn; rewrite ?Hdone; cbn; try reflexivity.
    all: destruct (callback_issued r); reflexivity.
Qed.

End ReaderInvariant.



Lemma read_content_length_completion_witness :
  snd (snd (Reader.read_content_length short_body_reader false)) = false /\
  Reader.process_read
    (Reader.set_recv_buf (fresh_reader 0) ok_header) 19 =
    ([EvReadHeadersDone ok_header;
      EvReadDone (mkBuffer SOUP_BUFFER_SYSTEM_OWNED [] 0);
      EvSourceRemove 1; EvSourceRemove 2; EvByteArrayFree false; EvFree],
     Done (Reader.Return (Reader.mkExit false None))).
Proof.
  destruct (@read_content_length_completion unit) as (_ & Hpre & Hzero).
  split.
  - apply (Hpre short_body_reader false).
    + simpl. lia.
    + vm_compute. reflexivity.
  - refine (Hzero (Reader.set_recv_buf (fresh_reader 0) ok_header)
              (declare_length 0) tt 15 19 _ _ _ _ _ _ _).
    + reflexivity.
    + reflexivity.
    + vm_compute. reflexivity.
    + lia.
    + vm_compute. reflexivity.
    + vm_compute. reflexivity.
    + reflexivity.
Defined.

(** ** Cancelling from inside a callback *)

(** C8.  [soup_transfer_read_cancel] (resp. [soup_transfer_write_cancel]) on
    a handle whose [processing] flag is set returns at once: it makes no
    call at all (no watch removed, no buffer freed, nothing released) and
    the reader (resp. writer) is left as it was, every field with its
    value. *)
Theorem cancel_ignored_while_processing {U : Type} :
  (forall r : Reader.SoupReader U,
     Reader.processing r = true ->
     Reader.soup_transfer_read_cancel r = ([], Some r)) /\
  (forall w : Writer.SoupWriter U,
     Writer.processing w = true ->
     Writer.soup_transfer_write_cancel w = ([], Some w)).
Proof.
  split.
  - intros r H. unfold Reader.soup_transfer_read_cancel. rewrite H. reflexivity.
  - intros w H. unfold Writer.soup_transfer_write_cancel. rewrite H. reflexivity.
Qed.

Lemma cancel_ignored_while_processing_witness :
  Reader.soup_transfer_read_cancel (Reader.IGNORE_CANCEL short_body_reader) =
    ([], Some (Reader.IGNORE_CANCEL short_body_reader)) /\
  Writer.soup_transfer_write_cancel busy_writer = ([], Some busy_writer).
Proof.
  split.
  - apply (proj1 (@cancel_ignored_while_processing unit)). reflexivity.
  - apply (proj2 (@cancel_ignored_while_processing unit)). reflexivity.
Defined.

(** ** The chunked decoder *)

Lemma gint_wrap_range (z : Z) : - 2 ^ 31 <= gint_wrap z < 2 ^ 31.
Proof.
  unfold gint_wrap.
  pose proof (Z.mod_pos_bound (z + 2 ^ 31) (2 ^ 32) ltac:(lia)). lia.
Qed.

(** What a removal that returns leaves, for the lengths the decoder passes. *)
Lemma remove_block_at_index_done (arr arr' : GByteArray) (o blen : Z) :
  0 <= blen < 2 ^ 31 ->
  remove_block_at_index arr (gint_wrap o) blen = Done arr' ->
  (blen = 0 /\ arr' = arr) \/
  (0 < blen /\ (List.length arr' + Z.to_nat blen = List.length arr)%nat).
Proof.
  intros Hblen. pose proof (gint_wrap_range o) as Hoff.
  set (offset := gint_wrap o) in *.
  unfold remove_block_at_index.
  destruct (blen =? 0) eqn:Hz.
  { intros H. inversion H; subst. left. split; [apply Z.eqb_eq; exact Hz|reflexivity]. }
  destruct (_ <? guint_wrap _) eqn:Hfit; [discriminate|].
  destruct (offset <? 0) eqn:Ho; [discriminate|].
  destruct (offset + blen <? 0) eqn:Hb; [discriminate|].
  destruct (arr_len arr <? offset); [discriminate|].
  cbn [orb]. intros H. inversion H as [Heq]. clear H.
  apply Z.eqb_neq in Hz. apply Z.ltb_ge in Ho, Hb, Hfit.
  rewrite guint_wrap_small in Hfit by lia.
  right. split; [lia|].
  rewrite block_cut_out by lia.
  rewrite length_app, length_firstn, length_skipn.
  unfold arr_len in *. lia.
Qed.

Lemma starts_with_length (sub str : list ascii) :
  starts_with sub str = true -> (List.length sub <= List.length str)%nat.
Proof.
  revert str. induction sub as [|a sub IH]; intros [|b str]; simpl; intros H;
    try lia; try discriminate.
  apply andb_prop in H as [_ H]. apply IH in H. lia.
Qed.

(** A match found by the scan lies inside the bytes searched. *)
Lemma substring_scan_bound (sub str : list ascii) (room : nat) (i : Z) :
  sub <> [] ->
  substring_scan sub str room i = -1 \/
  (i <= substring_scan sub str room i /\
   substring_scan sub str room i - i + Z.of_nat (List.length sub)
     <= Z.of_nat (List.length str)).
Proof.
  intros Hsub. revert str i. induction room as [|room IH]; intros str i; simpl.
  - left. reflexivity.
  - destruct (first_byte_matches sub str && starts_with sub str) eqn:Hs.
    + right. apply andb_prop in Hs as [_ Hs].
      apply starts_with_length in Hs. lia.
    + destruct str as [|b str].
      * cbn [tl]. destruct (IH [] (i + 1)) as [H|[H1 H2]]; [left; exact H|].
        destruct sub; [contradiction Hsub; reflexivity|]. simpl in H2. lia.
      * cbn [tl]. destruct (IH str (i + 1)) as [H|[H1 H2]]; [left; exact H|].
        right. simpl List.length. lia.
Qed.

Lemma soup_substring_index_bound (str : list ascii) (n : Z) :
  -1 <= soup_substring_index str n CRLF <= Z.of_nat (List.length str) - 2
  \/ soup_substring_index str n CRLF = -1.
Proof.
  unfold soup_substring_index.
  destruct (substring_scan_bound CRLF str
              (Z.to_nat (n - Z.of_nat (List.length CRLF) + 1)) 0) as [H|[H1 H2]].
  - discriminate.
  - right. exact H.
  - left. simpl List.length in *. lia.
Qed.

Lemma hex_width_le (src : list ascii) : (hex_width src <= List.length src)%nat.
Proof.
  induction src as [|c src IH]; simpl; [lia|].
  destruct (isxdigit c); lia.
Qed.

Section DecoderFuel.

Import Decoder.

(** A turn of the loop that does not break takes bytes out of the array. *)
Lemma decode_chunk_step_shrinks (d d' : decoded) :
  arr_len (d_arr d) < 2 ^ 30 ->
  decode_chunk_step d = Done (Some d') ->
  (List.length (d_arr d') < List.length (d_arr d))%nat.
Proof.
  intros Hlen. unfold decode_chunk_step.
  destruct (_ <? guint_wrap _); [discriminate|].
  destruct (header_line_missing _ _); [discriminate|].
  set (arr := d_arr d) in *.
  destruct (if negb (len (d_state d) =? 0)
            then remove_block_at_index arr (gint_wrap (idx (d_state d) + len (d_state d))) 2
            else Done arr) as [arr1| |] eqn:Harr1; cbn [obind]; try discriminate.
  assert (H1 : (List.length arr1 <= List.length arr)%nat).
  { destruct (negb _).
    - apply remove_block_at_index_done in Harr1 as [[_ ->]|[_ H]]; lia.
    - inversion Harr1; subst. lia. }
  set (i := skipn _ arr1).
  destruct (Nat.eqb _ _); [discriminate|].
  unfold decode_hex. 
  destruct (_ <? 0); [discriminate|].
  pose proof (hex_width_le i) as Hw.
  assert (Hi : (List.length i <= List.length arr1)%nat).
  { subst i. rewrite length_skipn. lia. }
  set (idx' := guint_wrap _).
  set (str := skipn _ arr1).
  set (n := gint_wrap (arr_len arr1 - _ - _)).
  assert (Hidx' : 0 <= idx').
  { subst idx'. unfold guint_wrap. apply Z.mod_pos_bound. lia. }
  assert (Hstr : (List.length str + hex_width i <= List.length arr1)%nat).
  { subst str. rewrite length_skipn. lia. }
  pose proof (soup_substring_index_bound str n) as Hssi.
  set (ssi := soup_substring_index str n CRLF) in *.
  set (width := Z.of_nat (hex_width i)) in *.
  assert (Hsum : -1 <= width + ssi < 2 ^ 30).
  { unfold arr_len in Hlen. subst width. lia. }
  rewrite (gint_wrap_small (width + ssi)) by lia.
  set (new_len := decode_hex_loop _ _ _).
  assert (Hblen : 0 < (if new_len =? 0 then gint_wrap (width + ssi + 2) else width + ssi) + 2
                  < 2 ^ 31).
  { destruct (new_len =? 0); [rewrite gint_wrap_small|]; lia. }
  rewrite (gint_wrap_small (_ + 2)) by lia.
  destruct (remove_block_at_index arr1 _ _) as [arr2| |] eqn:Harr2;
    cbn [obind]; try discriminate.
  intros H. inversion H; subst. cbn [d_arr].
  apply remove_block_at_index_done in Harr2 as [[Hz _]|[_ Hl]]; lia.
Qed.

Lemma decode_chunk_loop_fuel (n : nat) :
  forall (d : decoded) (m : nat),
    (List.length (d_arr d) < n)%nat -> arr_len (d_arr d) < 2 ^ 30 -> (n <= m)%nat ->
    decode_chunk_loop m d = decode_chunk_loop n d.
Proof.
  induction n as [|n IH]; intros d m Hn Hlen Hm; [lia|].
  destruct m as [|m]; [lia|].
  cbn [decode_chunk_loop].
  destruct (decode_chunk_step d) as [[d'|]| |] eqn:Hstep; cbn [obind]; try reflexivity.
  pose proof (decode_chunk_step_shrinks d d' Hlen Hstep) as Hshrink.
  apply IH; unfold arr_len in *; lia.
Qed.

(** The fuel [decode_chunk] gives its loop is enough: more fuel changes
    nothing, so [Undef] never stands for a loop cut short. *)
Lemma decode_chunk_fuel (s : SoupTransferChunkState) (arr : GByteArray) (extra : nat) :
  arr_len arr < 2 ^ 30 ->
  decode_chunk_loop (S (List.length arr) + extra) (mkDecoded s arr 0 false) =
  decode_chunk s arr.
Proof.
  intros Hlen. unfold decode_chunk.
  apply decode_chunk_loop_fuel; cbn [d_arr]; [lia|exact Hlen|lia].
Qed.

End DecoderFuel.

(** C2, evaluated.  The body [5 CRLF hello CRLF 0 CRLF CRLF] decodes in one
    pass to [hello], five bytes of data and the terminal flag.  Appended in
    two parts, the last CRLF apart, or byte by byte, the decoder meets the
    terminating chunk with only five bytes after the chunk body, tries to
    take out more bytes than the array holds, and the assertion of
    [remove_block_at_index] fails. *)
Theorem decode_chunk_split_before_last_crlf :
  hello_chunked = hello_chunked_head ++ CRLF /\
  decode_parts [hello_chunked] decode_start =
    Done (Decoder.mkDecoded (Decoder.mkChunkState 0 5) (bytes "hello") 5 true) /\
  decode_parts [hello_chunked_head; CRLF] decode_start = Abort /\
  decode_parts (map (fun c => [c]) hello_chunked) decode_start = Abort.
Proof.
  repeat split; vm_compute; reflexivity.
Qed.

(** ** A zero-byte read *)

(** Once the headers are reported and while the encoding is Unknown, a
    zero-byte read does what a hangup does: the final delivery and the
    teardown. *)
Lemma zero_read_unknown_is_hangup {U : Type} (r : Reader.SoupReader U)
    (chan : list read_result) :
  Reader.header_len r <> 0 ->
  Reader.encoding r = SOUP_TRANSFER_UNKNOWN ->
  Reader.soup_transfer_read_cb (ReadOk [] :: chan) r =
    (fst (Reader.soup_transfer_read_error_cb r),
     Done (snd (Reader.soup_transfer_read_error_cb r), chan)).
Proof.
  intros Hh Henc.
  unfold Reader.soup_transfer_read_cb, Reader.soup_transfer_read_error_cb.
  cbn [Reader.read_again arr_len List.length Z.of_nat Z.eqb negb].
  unfold Reader.process_read.
  replace (Reader.header_len r =? 0) with false
    by (symmetry; apply Z.eqb_neq; exact Hh).
  rewrite Henc. cbn [encoding_eqb].
  unfold Reader.process_body, Reader.finish_read.
  cbn [Z.eqb ret bind lift fst snd app].
  destruct (Reader.issue_final_callback r) as [t1 r1]. cbn [fst snd].
  destruct (Reader.soup_transfer_read_cancel r1) as [t2 o]. cbn.
  rewrite app_nil_r. reflexivity.
Qed.

(** C3, evaluated.  A reader that was told a content length of 5 and has
    received [he] is reached by a run of the read handler.  On a hangup its
    error callback is invoked; on a successful read of zero bytes the error
    callback is not invoked: the truncated body is delivered to the done
    callback as if the transfer were complete.  Before the end of the
    headers a zero-byte read does nothing at all, although a hangup there
    makes the final delivery. *)
Theorem zero_read_is_not_handled_as_hangup :
  Reader.soup_transfer_read_cb
    [ReadOk (ok_header ++ bytes "he"); ReadAgain] (fresh_reader 5) =
    ([EvReadHeadersDone ok_header;
      EvReadChunk (mkBuffer SOUP_BUFFER_SYSTEM_OWNED (bytes "he") 2)],
     Done (Reader.mkExit true (Some short_body_reader), [])) /\
  Reader.soup_transfer_read_error_cb short_body_reader =
    ([EvReadError false; EvSourceRemove 1; EvSourceRemove 2;
      EvByteArrayFree false; EvFree],
     Reader.mkExit false None) /\
  Reader.soup_transfer_read_cb [ReadOk []] short_body_reader =
    ([EvReadDone (mkBuffer SOUP_BUFFER_SYSTEM_OWNED (bytes "he") 2);
      EvSourceRemove 1; EvSourceRemove 2; EvByteArrayFree false; EvFree],
     Done (Reader.mkExit false None, [])) /\
  fst (Reader.soup_transfer_read_cb [ReadOk []]
         (Reader.set_recv_buf (fresh_reader 5) (bytes "HTTP"))) = [] /\
  fst (Reader.soup_transfer_read_error_cb
         (Reader.set_recv_buf (fresh_reader 5) (bytes "HTTP"))) =
    [EvReadDone (mkBuffer SOUP_BUFFER_SYSTEM_OWNED (bytes "HTTP") 4);
     EvSourceRemove 1; EvSourceRemove 2; EvByteArrayFree false; EvFree].
Proof.
  repeat split; vm_compute; reflexivity.
Qed.

(** ** The writer *)

Section WriterRuns.

Import Writer.

(** Whatever the header block, a chunked writer whose producer yields [hi]
    and then ends puts the header, a CRLF, the size line and [hi] on a
    channel that takes all it is offered, and stops there. *)
Lemma chunked_writer_hi (h : list ascii) (room : Z) :
  arr_len h < 2 ^ 31 -> arr_len h + 7 <= room ->
  let '(t, o) :=
    soup_transfer_write_cb [WriteOk room] (snd (chunked_writer h [bytes "hi"])) in
  o = Done (mkExit false None, []) /\
  wire t = h ++ CRLF ++ bytes "2" ++ CRLF ++ bytes "hi".
Proof.
  intros Hh Hroom.
  set (frame := CRLF ++ bytes "2" ++ CRLF ++ bytes "hi").
  assert (Hbuf : exists hl,
             snd (chunked_writer h [bytes "hi"]) =
             mkWriter 0 1 2 false SOUP_TRANSFER_CHUNKED (h ++ frame) hl false 1
               None (Some chunk_producer) None None [] /\ 0 <= hl <= arr_len h).
  { unfold chunked_writer, soup_transfer_write.
    destruct h as [|c h'].
    - exists 0. split; [reflexivity|]. cbn. lia.
    - exists (arr_len (c :: h')). split; [|unfold arr_len; lia].
      replace (arr_len (c :: h') =? 0) with false
        by (symmetry; apply Z.eqb_neq; unfold arr_len; simpl List.length; lia).
      subst frame. cbn. f_equal. rewrite <- app_assoc. reflexivity. }
  destruct Hbuf as (hl & -> & Hhl).
  assert (Hlen : arr_len (h ++ frame) = arr_len h + 7).
  { unfold arr_len. rewrite length_app. simpl List.length. lia. }
  unfold soup_transfer_write_cb. cbn [write_again].
  unfold refill. cbn [write_buf]. rewrite Hlen.
  replace (arr_len h + 7 =? 0) with false
    by (symmetry; apply Z.eqb_neq; unfold arr_len; lia).
  cbn [negb lift fst snd bind].
  unfold write_once. cbn [write_buf]. rewrite Hlen.
  replace (Z.max 0 (Z.min room (arr_len h + 7))) with (arr_len h + 7)
    by (unfold arr_len in *; lia).
  replace (arr_len h + 7 =? 0) with false
    by (symmetry; apply Z.eqb_neq; unfold arr_len; lia).
  cbn [headers_done negb andb header_len].
  rewrite guint_wrap_small by (unfold arr_len in *; lia).
  replace (hl <=? arr_len h + 7) with true
    by (symmetry; apply Z.leb_le; lia).
  cbn [headers_done_cb lift fst snd bind ret of_outcome app write_buf set_headers_done].
  rewrite <- Hlen. rewrite remove_block_at_index_all by lia.
  cbn -[frame].
  split; [reflexivity|].
  unfold arr_len. rewrite Nat2Z.id, firstn_all, app_nil_r. reflexivity.
Qed.

End WriterRuns.

(** C1, evaluated.  A chunked writer is created with a header block and a
    producer that yields [hi], then an empty buffer with End; the channel
    takes all it is offered.  The first chunk is framed with the leading
    CRLF of a later chunk, the terminator is appended to the staging buffer
    after the last drain and freed with it, and the handler returns with
    the writer torn down: the channel has received the header, CRLF, [2],
    CRLF, [hi], and not the header followed by
    [2 CRLF hi CRLF 0 CRLF CRLF]. *)
Theorem chunked_writer_hi_on_the_wire :
  let h := bytes "POST / HTTP/1.1" ++ CRLF ++ CRLF in
  let w := snd (chunked_writer h [bytes "hi"]) in
  let run := Writer.soup_transfer_write_cb [WriteOk 4096] w in
  Writer.write_buf w = h ++ CRLF ++ bytes "2" ++ CRLF ++ bytes "hi" /\
  snd run = Done (Writer.mkExit false None, []) /\
  wire (fst run) = h ++ CRLF ++ bytes "2" ++ CRLF ++ bytes "hi" /\
  wire (fst run) <>
    h ++ bytes "2" ++ CRLF ++ bytes "hi" ++ CRLF ++ bytes "0" ++ CRLF ++ CRLF.
Proof.
  repeat split; try (vm_compute; reflexivity).
  vm_compute. discriminate.
Qed.

(** C4, evaluated.  A writer holds a header block of four bytes and the
    channel takes two bytes at a time.  After the second write all four
    header bytes are drained, yet the headers-done callback was never
    invoked: each write is compared with [header_len] on its own.  When the
    channel takes the four bytes at once the callback is invoked. *)
Theorem headers_done_missed_on_split_write :
  Writer.header_len header_writer = 4 /\
  Writer.soup_transfer_write_cb [WriteOk 2; WriteOk 2] header_writer =
    ([EvChannelWrite (bytes "AB"); EvChannelWrite (bytes "CD");
      EvWriteDone;
      EvSourceRemove 1; EvSourceRemove 2; EvByteArrayFree true; EvFree],
     Done (Writer.mkExit false None, [])) /\
  filter is_write_headers_done
    (fst (Writer.soup_transfer_write_cb [WriteOk 2; WriteOk 2] header_writer)) = [] /\
  Writer.soup_transfer_write_cb [WriteOk 4] header_writer =
    ([EvChannelWrite (bytes "ABCD"); EvWriteHeadersDone;
      EvWriteDone;
      EvSourceRemove 1; EvSourceRemove 2; EvByteArrayFree true; EvFree],
     Done (Writer.mkExit false None, [])).
Proof.
  repeat split; vm_compute; reflexivity.
Qed.

(** * Further properties of the byte layer *)

(** ** soup_substring_index *)

Lemma starts_with_occurs (substr str : list ascii) :
  starts_with substr str = true <-> firstn (List.length substr) str = substr.
Proof.
  revert str. induction substr as [|a substr IH]; intros [|b str]; simpl.
  - tauto.
  - tauto.
  - split; discriminate.
  - rewrite andb_true_iff, IH. split.
    + intros [Hab Hs]. apply Ascii.eqb_eq in Hab. subst. f_equal. exact Hs.
    + intros H. inversion H; subst. split; [apply Ascii.eqb_refl|].
      rewrite H2. exact H2.
Qed.

Lemma skipn_tl {A : Type} (l : list A) (k : nat) : skipn k (tl l) = skipn (S k) l.
Proof. destruct l; [destruct k|]; reflexivity. Qed.

Lemma first_byte_matches_starts_with (substr str : list ascii) :
  substr <> [] ->
  first_byte_matches substr str && starts_with substr str = starts_with substr str.
Proof.
  intros Hsub. destruct substr as [|a substr]; [contradiction Hsub; reflexivity|].
  destruct str as [|b str]; [reflexivity|].
  cbn [first_byte_matches hd starts_with].
  rewrite (Ascii.eqb_sym b a). destruct (Ascii.eqb a b); reflexivity.
Qed.

(** The scan stops at the first of its [room] positions where the substring
    lies. *)
Lemma substring_scan_first (substr str : list ascii) (room : nat) (i0 : Z) :
  substr <> [] ->
  (substring_scan substr str room i0 = -1 /\
   forall k, (k < room)%nat -> starts_with substr (skipn k str) = false) \/
  (exists k, (k < room)%nat /\
     substring_scan substr str room i0 = i0 + Z.of_nat k /\
     starts_with substr (skipn k str) = true /\
     forall j, (j < k)%nat -> starts_with substr (skipn j str) = false).
Proof.
  intros Hsub. revert str i0. induction room as [|room IH]; intros str i0.
  - left. split; [reflexivity|]. intros k Hk. lia.
  - cbn [substring_scan]. rewrite first_byte_matches_starts_with by exact Hsub.
    destruct (starts_with substr str) eqn:Hs.
    + right. exists 0%nat. repeat split; [lia|lia|exact Hs|]. intros j Hj. lia.
    + destruct (IH (tl str) (i0 + 1)) as [[Hr Hno]|(k & Hk & Hr & Hat & Hbefore)].
      * left. split; [exact Hr|]. intros [|k] Hk; [exact Hs|].
        rewrite <- skipn_tl. apply Hno. lia.
      * right. exists (S k). repeat split.
        -- lia.
        -- rewrite Hr. lia.
        -- rewrite <- skipn_tl. exact Hat.
        -- intros [|j] Hj; [exact Hs|]. rewrite <- skipn_tl. apply Hbefore. lia.
Qed.

(** X1.  For a non-empty [substr], [soup_substring_index] on [len] bytes of
    [str] returns the first position at which [substr] lies wholly inside
    those bytes, and -1 exactly when there is none. *)
Theorem soup_substring_index_first_occurrence
    (str : list ascii) (len : Z) (substr : list ascii)
    (Hsubstr : substr <> [])
    (Hlen : len <= arr_len str) :
  let r := soup_substring_index str len substr in
  (r = -1 /\
   forall i, 0 <= i <= len - arr_len substr -> ~ occurs_at substr str (Z.to_nat i))
  \/
  (0 <= r <= len - arr_len substr /\
   occurs_at substr str (Z.to_nat r) /\
   forall i, 0 <= i < r -> ~ occurs_at substr str (Z.to_nat i)).
Proof.
  intros r. subst r. unfold soup_substring_index, occurs_at, arr_len.
  set (room := Z.to_nat (len - Z.of_nat (List.length substr) + 1)).
  destruct (substring_scan_first substr str room 0 Hsubstr)
    as [[Hr Hno]|(k & Hk & Hr & Hat & Hbefore)].
  - left. split; [exact Hr|]. intros i Hi Hocc.
    apply starts_with_occurs in Hocc.
    rewrite Hno in Hocc; [discriminate|]. subst room. lia.
  - right. rewrite Hr. rewrite Z.add_0_l, Nat2Z.id. repeat split.
    + lia.
    + subst room. lia.
    + apply starts_with_occurs. exact Hat.
    + intros i Hi Hocc. apply starts_with_occurs in Hocc.
      rewrite Hbefore in Hocc; [discriminate|]. lia.
Qed.

Lemma soup_substring_index_first_occurrence_witness :
  soup_substring_index (bytes "ab" ++ CRLF ++ bytes "cd" ++ CRLF) 8 CRLF = 2 /\
  soup_substring_index (bytes "abcd") 4 CRLF = -1.
Proof.
  split.
  - destruct (soup_substring_index_first_occurrence
                (bytes "ab" ++ CRLF ++ bytes "cd" ++ CRLF) 8 CRLF)
      as [[Hr _]|_].
    + discriminate.
    + vm_compute. discriminate.
    + vm_compute in Hr. discriminate Hr.
    + vm_compute. reflexivity.
  - destruct (soup_substring_index_first_occurrence (bytes "abcd") 4 CRLF)
      as [[Hr _]|[Hr _]].
    + discriminate.
    + vm_compute. discriminate.
    + exact Hr.
    + vm_compute in Hr. destruct Hr as [Hr _]. contradiction Hr. reflexivity.
Defined.

(** ** remove_block_at_index *)



Lemma skipn_skipn_app {A : Type} (l : list A) (a b : nat) :
  skipn b (skipn a l) = skipn (a + b) l.
Proof.
  revert l. induction a as [|a IH]; intros l; [reflexivity|].
  destruct l as [|x l]; [destruct b; reflexivity|]. simpl. apply IH.
Qed.

(** Cutting a block out of the middle of three parts. *)
Lemma remove_block_at_index_middle (pre blk post : list ascii) :
  blk <> [] -> arr_len (pre ++ blk ++ post) < 2 ^ 32 ->
  remove_block_at_index (pre ++ blk ++ post) (arr_len pre) (arr_len blk) =
  Done (pre ++ post).
Proof.
  intros Hblk Hlen. unfold arr_len in *.
  assert (0 < List.length blk)%nat by (destruct blk; [contradiction|simpl; lia]).
  rewrite !length_app in Hlen.
  rewrite remove_block_at_index_ok;
    try (unfold arr_len; rewrite ?length_app; lia).
  f_equal. rewrite Nat2Z.id.
  replace (Z.to_nat (Z.of_nat (List.length pre) + Z.of_nat (List.length blk)))
    with (List.length pre + List.length blk)%nat by lia.
  rewrite firstn_prefix_exact by reflexivity.
  rewrite <- skipn_skipn_app.
  rewrite skipn_app, skipn_all, Nat.sub_diag. cbn [skipn app].
  rewrite skipn_app, skipn_all, Nat.sub_diag. reflexivity.
Qed.

(** X3.  Two adjacent blocks taken out one after the other leave what is
    left when the two are taken out as one block; this is how
    [decode_chunk] drops the CRLF of a chunk and then the next size line. *)
Theorem remove_block_at_index_adjacent
    (arr : GByteArray) (offset a b : Z)
    (Hoffset : 0 <= offset) (Ha : 0 < a) (Hb : 0 < b)
    (Hfits : offset + a + b <= arr_len arr) (Hguint : arr_len arr < 2 ^ 32) :
  (do arr1 <- remove_block_at_index arr offset a;
   remove_block_at_index arr1 offset b) =
  remove_block_at_index arr offset (a + b).
Proof.
  rewrite (remove_block_at_index_ok arr offset a) by lia.
  cbn [obind].
  assert (Hl : List.length (firstn (Z.to_nat offset) arr) = Z.to_nat offset)
    by (rewrite length_firstn; unfold arr_len in *; lia).
  rewrite remove_block_at_index_ok;
    try (unfold arr_len in *; rewrite ?length_app, ?Hl, ?length_skipn; lia).
  rewrite (remove_block_at_index_ok arr offset (a + b)) by lia.
  f_equal.
  rewrite firstn_prefix_exact by (symmetry; exact Hl).
  f_equal.
  rewrite skipn_app, Hl.
  rewrite (skipn_all2 (n := Z.to_nat (offset + b))) by lia.
  cbn [app]. rewrite skipn_skipn_app. f_equal. lia.
Qed.

Lemma remove_block_at_index_adjacent_witness :
  (do arr1 <- remove_block_at_index (bytes "hello__5,,body") 5 2;
   remove_block_at_index arr1 5 3) = Done (bytes "hellobody").
Proof.
  rewrite (remove_block_at_index_adjacent (bytes "hello__5,,body") 5 2 3).
  - vm_compute. reflexivity.
  - lia.
  - lia.
  - lia.
  - vm_compute. discriminate.
  - vm_compute. reflexivity.
Defined.

(** A block at the front, of any size up to the whole array. *)
Lemma remove_block_at_index_front (arr : GByteArray) (n : Z) :
  0 < n <= arr_len arr ->
  remove_block_at_index arr 0 n = Done (skipn (Z.to_nat n) arr).
Proof.
  intros H. unfold remove_block_at_index.
  replace (n =? 0) with false by (symmetry; apply Z.eqb_neq; lia).
  assert (Hw : guint_wrap (0 + n) <= n).
  { unfold guint_wrap. rewrite Z.add_0_l. apply Z.mod_le; lia. }
  replace (arr_len arr <? guint_wrap (0 + n)) with false
    by (symmetry; apply Z.ltb_ge; lia).
  replace (0 <? 0) with false by reflexivity.
  replace (0 + n <? 0) with false by (symmetry; apply Z.ltb_ge; lia).
  replace (arr_len arr <? 0) with false by (symmetry; apply Z.ltb_ge; lia).
  cbn [orb].
  rewrite (block_cut_out arr 0 n) by lia.
  rewrite Z.add_0_l. reflexivity.
Qed.

(** ** The size line: printf and decode_hex *)

Lemma hex_digit_is_digit (d : Z) :
  0 <= d < 16 ->
  isxdigit (hex_digit d) = true /\ hex_digit_value (hex_digit d) = d /\
  Ascii.eqb (hex_digit d) CR = false.
Proof.
  intros H.
  assert (Hd : d = 0 \/ d = 1 \/ d = 2 \/ d = 3 \/ d = 4 \/ d = 5 \/ d = 6 \/ d = 7 \/
               d = 8 \/ d = 9 \/ d = 10 \/ d = 11 \/ d = 12 \/ d = 13 \/ d = 14 \/
               d = 15) by lia.
  repeat (destruct Hd as [->|Hd]; [vm_compute; auto|]).
  subst. vm_compute. auto.
Qed.

(** The digits [hex_digits] puts in front of [acc] are those of [n]. *)
Lemma hex_digits_value (fuel : nat) :
  forall (n : Z) (acc : list ascii),
    0 <= n < 2 ^ (4 * Z.of_nat fuel) -> (0 < fuel)%nat ->
    exists ds,
      hex_digits fuel n acc = ds ++ acc /\
      ds <> [] /\
      (List.length ds <= fuel)%nat /\
      forallb isxdigit ds = true /\
      forallb (fun c => negb (Ascii.eqb c CR)) ds = true /\
      hex_numeral_value ds = n.
Proof.
  induction fuel as [|fuel IH]; intros n acc Hn Hfuel; [lia|].
  cbn [hex_digits].
  assert (Hmod : 0 <= n mod 16 < 16) by (apply Z.mod_pos_bound; lia).
  destruct (hex_digit_is_digit (n mod 16) Hmod) as (Hx & Hv & Hcr).
  destruct (n / 16 =? 0) eqn:Hq.
  - apply Z.eqb_eq in Hq.
    exists [hex_digit (n mod 16)]. repeat split.
    + discriminate.
    + simpl. lia.
    + simpl. rewrite Hx. reflexivity.
    + simpl. rewrite Hcr. reflexivity.
    + unfold hex_numeral_value. cbn [fold_left]. rewrite Hv.
      pose proof (Z.div_mod n 16). lia.
  - apply Z.eqb_neq in Hq.
    assert (Hfuel' : (0 < fuel)%nat).
    { destruct fuel; [|lia]. change (2 ^ (4 * Z.of_nat 1)) with 16 in Hn.
      contradiction Hq. apply Z.div_small. lia. }
    assert (Hn' : 0 <= n / 16 < 2 ^ (4 * Z.of_nat fuel)).
    { split; [apply Z.div_pos; lia|].
      apply Z.div_lt_upper_bound; [lia|].
      replace (4 * Z.of_nat (S fuel)) with (4 + 4 * Z.of_nat fuel) in Hn by lia.
      rewrite Z.pow_add_r in Hn by lia. change (2 ^ 4) with 16 in Hn. lia. }
    destruct (IH (n / 16) (hex_digit (n mod 16) :: acc) Hn' Hfuel')
      as (ds & Heq & Hne & Hlen & Hall & Hnocr & Hval).
    exists (ds ++ [hex_digit (n mod 16)]). repeat split.
    + rewrite Heq, <- app_assoc. reflexivity.
    + destruct ds; discriminate.
    + rewrite length_app. simpl. lia.
    + rewrite forallb_app, Hall. simpl. rewrite Hx. reflexivity.
    + rewrite forallb_app, Hnocr. simpl. rewrite Hcr. reflexivity.
    + unfold hex_numeral_value in *. rewrite fold_left_app. cbn [fold_left].
      rewrite Hval, Hv. pose proof (Z.div_mod n 16). lia.
Qed.

Lemma printf_x_digits (n : Z) :
  0 <= n < 2 ^ 32 ->
  printf_x n <> [] /\
  (List.length (printf_x n) <= 8)%nat /\
  forallb isxdigit (printf_x n) = true /\
  forallb (fun c => negb (Ascii.eqb c CR)) (printf_x n) = true /\
  hex_numeral_value (printf_x n) = n.
Proof.
  intros Hn. unfold printf_x. rewrite guint_wrap_small by exact Hn.
  destruct (hex_digits_value 8 n []) as (ds & Heq & Hne & Hlen & Hall & Hnocr & Hval).
  - change (2 ^ (4 * Z.of_nat 8)) with (2 ^ 32). exact Hn.
  - lia.
  - rewrite Heq, app_nil_r. auto.
Qed.

Lemma decode_hex_printf_x (n : Z) (c : ascii) (rest : list ascii) :
  0 <= n < 2 ^ 31 -> isxdigit c = false ->
  decode_hex (printf_x n ++ c :: rest) = (n, arr_len (printf_x n)).
Proof.
  intros Hn Hc.
  destruct (printf_x_digits n) as (_ & _ & Hall & _ & Hval); [lia|].
  pose proof (hex_numeral_positional (printf_x n) 0) as Hpos.
  fold (hex_numeral_value (printf_x n)) in Hpos.
  rewrite Hval, Z.mul_0_l, Z.add_0_l in Hpos.
  unfold decode_hex. rewrite hex_width_digits by assumption.
  rewrite decode_hex_loop_value; try assumption; try lia.
  rewrite <- Hpos. reflexivity.
Qed.

(** X4.  The size line the writer puts before a chunk of [len] bytes,
    [len] below 2^31, is read back by [decode_hex] as [len], whatever
    follows the line. *)
Theorem decode_hex_reads_written_size
    (len first_chunk : Z) (rest : list ascii)
    (Hlen : 0 < len < 2 ^ 31) (Hfirst : first_chunk <> 0) :
  write_chunk_sep [] len first_chunk = printf_x len ++ CRLF /\
  decode_hex (write_chunk_sep [] len first_chunk ++ rest) =
    (len, arr_len (printf_x len)).
Proof.
  assert (Hsep : write_chunk_sep [] len first_chunk = printf_x len ++ CRLF).
  { unfold write_chunk_sep.
    replace (len =? 0) with false by (symmetry; apply Z.eqb_neq; lia).
    replace (first_chunk =? 0) with false by (symmetry; apply Z.eqb_neq; exact Hfirst).
    reflexivity. }
  split; [exact Hsep|].
  rewrite Hsep, <- app_assoc. cbn [CRLF app].
  apply decode_hex_printf_x; [lia|reflexivity].
Qed.

Lemma decode_hex_reads_written_size_witness :
  decode_hex (write_chunk_sep [] 431 1 ++ bytes "body") = (431, 3).
Proof.
  apply (proj2 (decode_hex_reads_written_size 431 1 (bytes "body")
                  ltac:(lia) ltac:(discriminate))).
Defined.

(** * Further properties of the chunked decoder *)

Lemma substring_scan_after_prefix (pre rest : list ascii) (room : nat) (i0 : Z) :
  forallb (fun c => negb (Ascii.eqb c CR)) pre = true ->
  (List.length pre < room)%nat ->
  substring_scan CRLF (pre ++ CRLF ++ rest) room i0 = i0 + Z.of_nat (List.length pre).
Proof.
  revert room i0. induction pre as [|c pre IH]; intros room i0 Hpre Hroom.
  - destruct room; [lia|]. simpl. lia.
  - destruct room; [simpl in Hroom; lia|].
    simpl in Hpre. apply andb_prop in Hpre as [Hc Hpre].
    cbn [substring_scan app].
    rewrite first_byte_matches_starts_with by discriminate.
    cbn [starts_with CRLF].
    replace (Ascii.eqb CR c) with false
      by (symmetry; rewrite Ascii.eqb_sym; apply negb_true_iff; exact Hc).
    cbn [andb tl]. rewrite IH; [|exact Hpre|simpl in Hroom; lia].
    simpl List.length. lia.
Qed.

Lemma soup_substring_index_after_prefix (pre rest : list ascii) (n : Z) :
  forallb (fun c => negb (Ascii.eqb c CR)) pre = true ->
  arr_len pre + 2 <= n ->
  soup_substring_index (pre ++ CRLF ++ rest) n CRLF = arr_len pre.
Proof.
  intros Hpre Hn. unfold soup_substring_index, arr_len in *.
  rewrite substring_scan_after_prefix; [lia|exact Hpre|].
  simpl List.length. lia.
Qed.

Lemma skipn_app_exact {A : Type} (l1 l2 : list A) (n : nat) :
  n = List.length l1 -> skipn n (l1 ++ l2) = l2.
Proof.
  intros ->. rewrite skipn_app, skipn_all, Nat.sub_diag. reflexivity.
Qed.

Section DecoderRuns.

Import Decoder.

(** One turn of the loop on a complete size line.  The turn finds the chunk
    data [P] done (none before the first size line), the CRLF that ends
    them (none before the first size line), the size line of a chunk of
    [size] bytes and the bytes [Q] after it. *)
Lemma decode_chunk_step_size_line
    (I L : Z) (P sep Q : list ascii) (size dl : Z) (r : bool) :
  (L = 0 /\ I = 0 /\ P = [] /\ sep = [] \/ L <> 0 /\ sep = CRLF) ->
  0 <= I -> 0 <= L -> arr_len P = I + L ->
  0 <= size < 2 ^ 31 ->
  2 <= arr_len Q ->
  arr_len (P ++ sep ++ printf_x size ++ CRLF ++ Q) < 2 ^ 30 ->
  0 <= dl -> dl + L < 2 ^ 31 ->
  decode_chunk_step
    (mkDecoded (mkChunkState L I) (P ++ sep ++ printf_x size ++ CRLF ++ Q) dl r) =
  Done (Some (mkDecoded (mkChunkState size (I + L))
                (P ++ (if size =? 0 then skipn 2 Q else Q))
                (dl + L)
                (if size =? 0 then true else r))).
Proof.
  intros Hcase HI HL HP Hsize HQ Hlen Hdl Hdl'.
  destruct (printf_x_digits size) as (Hne & Hle & Hall & Hnocr & Hval); [lia|].
  set (hex := printf_x size) in *.
  assert (Hhex : 1 <= arr_len hex <= 8).
  { unfold arr_len. destruct hex; [contradiction|]. simpl List.length in *. lia. }
  assert (Hsep : arr_len sep = (if L =? 0 then 0 else 2)).
  { destruct Hcase as [(-> & _ & _ & ->)|[HL0 ->]]; [reflexivity|].
    replace (L =? 0) with false by (symmetry; apply Z.eqb_neq; exact HL0).
    reflexivity. }
  assert (Hsep' : 0 <= arr_len sep <= 2) by (destruct (L =? 0); lia).
  assert (Hlens : arr_len (P ++ sep ++ hex ++ CRLF ++ Q) =
                  arr_len P + arr_len sep + arr_len hex + 2 + arr_len Q).
  { unfold arr_len. rewrite !length_app. simpl List.length. lia. }
  unfold decode_chunk_step. cbn [d_state d_arr d_datalen d_ret idx len].
  rewrite Hlens in Hlen |- *.
  rewrite (guint_wrap_small (I + L + 5)) by lia.
  replace (arr_len P + arr_len sep + arr_len hex + 2 + arr_len Q <? I + L + 5)
    with false by (symmetry; apply Z.ltb_ge; destruct (L =? 0); lia).
  (* the header line is there *)
  assert (Hline : header_line_missing (mkChunkState L I)
                    (P ++ sep ++ hex ++ CRLF ++ Q) = false).
  { unfold header_line_missing. cbn [idx len].
    destruct Hcase as [(-> & -> & -> & ->)|[HL0 ->]].
    - cbn [Z.eqb negb app]. rewrite soup_substring_index_after_prefix.
      + apply Z.leb_gt. lia.
      + exact Hnocr.
      + cbn [app] in Hlens. rewrite Hlens. lia.
    - replace (L =? 0) with false by (symmetry; apply Z.eqb_neq; exact HL0).
      cbn [negb]. rewrite (guint_wrap_small (I + L)) by lia.
      rewrite Hlens.
      rewrite app_assoc, skipn_app_exact
        by (rewrite length_app; unfold arr_len in *; simpl List.length; lia).
      rewrite soup_substring_index_after_prefix.
      + apply Z.leb_gt. lia.
      + exact Hnocr.
      + rewrite gint_wrap_small; lia. }
  rewrite Hline.
  (* the CRLF after the data goes *)
  assert (Harr1 : (if negb (L =? 0)
                   then remove_block_at_index (P ++ sep ++ hex ++ CRLF ++ Q)
                          (gint_wrap (I + L)) 2
                   else Done (P ++ sep ++ hex ++ CRLF ++ Q)) =
                  Done (P ++ hex ++ CRLF ++ Q)).
  { destruct Hcase as [(-> & -> & -> & ->)|[HL0 ->]]; [reflexivity|].
    replace (L =? 0) with false by (symmetry; apply Z.eqb_neq; exact HL0).
    cbn [negb]. rewrite gint_wrap_small by lia. rewrite <- HP.
    change 2 with (arr_len CRLF).
    apply remove_block_at_index_middle; [discriminate|].
    rewrite Hlens. lia. }
  match goal with
  | |- obind ?m _ = _ => replace m with (Done (P ++ hex ++ CRLF ++ Q))
  end.
  cbn [obind].
  assert (Hlens1 : arr_len (P ++ hex ++ CRLF ++ Q) =
                   arr_len P + arr_len hex + 2 + arr_len Q).
  { unfold arr_len. rewrite !length_app. simpl List.length. lia. }
  rewrite (guint_wrap_small (I + L)) by lia.
  rewrite (skipn_app_exact P) by (unfold arr_len in HP; lia).
  change (hex ++ CRLF ++ Q) with (hex ++ CR :: LF :: Q).
  rewrite (hex_width_digits hex CR (LF :: Q)) by (assumption || reflexivity).
  replace (Nat.eqb (List.length hex) (List.length (hex ++ CR :: LF :: Q))) with false
    by (symmetry; apply Nat.eqb_neq; rewrite length_app; simpl List.length; lia).
  subst hex. rewrite decode_hex_printf_x by (lia || reflexivity).
  set (hex := printf_x size) in *.
  replace (size <? 0) with false by (symmetry; apply Z.ltb_ge; lia).
  rewrite (gint_wrap_small (dl + L)) by lia.
  (* the rest of the size line *)
  replace (skipn (Z.to_nat (I + L + arr_len hex)) (P ++ hex ++ CR :: LF :: Q))
    with ([] ++ CRLF ++ Q).
  2:{ symmetry. rewrite (app_assoc P hex).
      change ([] ++ CRLF ++ Q) with (CR :: LF :: Q).
      apply skipn_app_exact.
      rewrite length_app. unfold arr_len in *. lia. }
  rewrite soup_substring_index_after_prefix;
    [|reflexivity|change (P ++ hex ++ CR :: LF :: Q) with (P ++ hex ++ CRLF ++ Q);
                   rewrite Hlens1, gint_wrap_small; cbn; lia].
  change (arr_len []) with 0. rewrite Z.add_0_r.
  rewrite (gint_wrap_small (arr_len hex)) by lia.
  rewrite (gint_wrap_small (I + L)) by lia.
  change (P ++ hex ++ CR :: LF :: Q) with (P ++ hex ++ CRLF ++ Q).
  destruct (size =? 0) eqn:Hz.
  - rewrite (gint_wrap_small (arr_len hex + 2)) by lia.
    rewrite (gint_wrap_small (arr_len hex + 2 + 2)) by lia.
    destruct Q as [|x [|y Q']]; try (cbn in HQ; lia).
    replace (P ++ hex ++ CRLF ++ x :: y :: Q')
      with (P ++ (hex ++ CRLF ++ [x; y]) ++ Q')
      by (rewrite <- !app_assoc; reflexivity).
    rewrite <- HP.
    replace (arr_len hex + 2 + 2) with (arr_len (hex ++ CRLF ++ [x; y]))
      by (unfold arr_len; rewrite !length_app; simpl List.length; lia).
    rewrite remove_block_at_index_middle.
    + rewrite HP. reflexivity.
    + destruct hex; discriminate.
    + rewrite <- !app_assoc. cbn [app] in *. 
      change (P ++ hex ++ CR :: LF :: x :: y :: Q')
        with (P ++ hex ++ CRLF ++ x :: y :: Q').
      rewrite Hlens1. lia.
  - rewrite (gint_wrap_small (arr_len hex + 2)) by lia.
    replace (P ++ hex ++ CRLF ++ Q) with (P ++ (hex ++ CRLF) ++ Q)
      by (rewrite <- !app_assoc; reflexivity).
    rewrite <- HP.
    replace (arr_len hex + 2) with (arr_len (hex ++ CRLF))
      by (unfold arr_len; rewrite !length_app; simpl List.length; lia).
    rewrite remove_block_at_index_middle.
    + rewrite HP. reflexivity.
    + destruct hex; discriminate.
    + rewrite <- !app_assoc. rewrite Hlens1. lia.
Qed.

Lemma wire_chunked_cons (b : list ascii) (rest : list (list ascii)) :
  wire_chunked (b :: rest) =
  printf_x (arr_len b) ++ CRLF ++ (b ++ CRLF ++ wire_chunked rest).
Proof.
  unfold wire_chunked, wire_chunk. cbn [map List.concat].
  rewrite <- !app_assoc. reflexivity.
Qed.

Lemma wire_chunked_length (bs : list (list ascii)) :
  (List.length bs + 5 <= List.length (wire_chunked bs))%nat.
Proof.
  induction bs as [|b bs IH]; [simpl; lia|].
  rewrite wire_chunked_cons, !length_app. simpl List.length. lia.
Qed.

(** The turn that finds nothing more to decode. *)
Lemma decode_chunk_step_drained (arr : GByteArray) (dl : Z) (r : bool) :
  arr_len arr < 2 ^ 30 ->
  decode_chunk_step (mkDecoded (mkChunkState 0 (arr_len arr)) arr dl r) = Done None.
Proof.
  intros Hlen. unfold decode_chunk_step. cbn [d_state d_arr idx len].
  unfold arr_len in *.
  rewrite guint_wrap_small by lia.
  replace (_ <? _) with true by (symmetry; apply Z.ltb_lt; lia).
  reflexivity.
Qed.

(** The loop from the data of a chunk on: [D] is what earlier chunks gave,
    [b] the chunk whose size line was just taken out. *)
Lemma decode_chunk_loop_chunks (rest : list (list ascii)) :
  forall (D b : list ascii) (fuel : nat),
    b <> [] -> Forall (fun c => c <> []) rest ->
    arr_len (D ++ b ++ CRLF ++ wire_chunked rest) < 2 ^ 30 ->
    (List.length rest + 2 <= fuel)%nat ->
    decode_chunk_loop fuel
      (mkDecoded (mkChunkState (arr_len b) (arr_len D))
         (D ++ b ++ CRLF ++ wire_chunked rest) (arr_len D) false) =
    Done (mkDecoded (mkChunkState 0 (arr_len (D ++ b ++ List.concat rest)))
            (D ++ b ++ List.concat rest)
            (arr_len (D ++ b ++ List.concat rest)) true).
Proof.
  induction rest as [|b' rest IH]; intros D b fuel Hb Hrest Hlen Hfuel.
  - destruct fuel as [|[|fuel]]; try (simpl in Hfuel; lia).
    cbn [decode_chunk_loop].
    change (wire_chunked []) with (printf_x 0 ++ CRLF ++ CRLF) in *.
    rewrite (app_assoc D b) in *.
    rewrite (decode_chunk_step_size_line (arr_len D) (arr_len b) (D ++ b) CRLF CRLF 0);
      cbn [obind Z.eqb skipn CRLF].
    + rewrite app_nil_r.
      replace (arr_len D + arr_len b) with (arr_len (D ++ b))
        by (unfold arr_len; rewrite length_app; lia).
      rewrite decode_chunk_step_drained.
      * cbn [obind List.concat]. rewrite app_nil_r. reflexivity.
      * unfold arr_len in *. rewrite !length_app in *. lia.
    + right. split; [|reflexivity].
      destruct b; [contradiction|]. unfold arr_len. simpl. lia.
    + unfold arr_len. lia.
    + unfold arr_len. lia.
    + unfold arr_len. rewrite length_app. lia.
    + lia.
    + unfold arr_len. simpl. lia.
    + exact Hlen.
    + unfold arr_len. lia.
    + unfold arr_len in *. rewrite !length_app in Hlen. lia.
  - destruct fuel as [|fuel]; [simpl in Hfuel; lia|].
    cbn [decode_chunk_loop].
    inversion Hrest as [|? ? Hb' Hrest']; subst.
    rewrite wire_chunked_cons in *.
    rewrite (app_assoc D b) in *.
    assert (Hb'len : 0 < arr_len b').
    { destruct b'; [contradiction|]. unfold arr_len. simpl. lia. }
    assert (Hsz : arr_len b' < 2 ^ 30).
    { unfold arr_len in *. rewrite !length_app in Hlen. lia. }
    rewrite (decode_chunk_step_size_line (arr_len D) (arr_len b) (D ++ b) CRLF
               (b' ++ CRLF ++ wire_chunked rest) (arr_len b')).
    + cbn [obind].
      replace (arr_len b' =? 0) with false by (symmetry; apply Z.eqb_neq; lia).
      replace (arr_len D + arr_len b) with (arr_len (D ++ b))
        by (unfold arr_len; rewrite length_app; lia).
      rewrite IH.
      * cbn [List.concat]. rewrite <- !app_assoc. reflexivity.
      * exact Hb'.
      * exact Hrest'.
      * unfold arr_len in *. rewrite !length_app in *. simpl List.length in *. lia.
      * simpl in Hfuel. lia.
    + right. split; [|reflexivity].
      destruct b; [contradiction|]. unfold arr_len. simpl. lia.
    + unfold arr_len. lia.
    + unfold arr_len. lia.
    + unfold arr_len. rewrite length_app. lia.
    + lia.
    + unfold arr_len. rewrite !length_app. simpl List.length. lia.
    + exact Hlen.
    + unfold arr_len. lia.
    + unfold arr_len in *. rewrite !length_app in Hlen. lia.
Qed.

Lemma decode_chunk_wire_chunked (bs : list (list ascii)) :
  Forall (fun b => b <> []) bs ->
  arr_len (wire_chunked bs) < 2 ^ 30 ->
  decode_chunk (mkChunkState 0 0) (wire_chunked bs) =
  Done (mkDecoded (mkChunkState 0 (arr_len (List.concat bs)))
          (List.concat bs) (arr_len (List.concat bs)) true).
Proof.
  intros Hchunks Hsize. unfold decode_chunk.
  pose proof (wire_chunked_length bs) as Hfuel.
  destruct bs as [|b rest].
  - vm_compute. reflexivity.
  - cbn [decode_chunk_loop].
    inversion Hchunks as [|? ? Hb Hrest]; subst.
    rewrite wire_chunked_cons in *.
    assert (Hblen : 0 < arr_len b < 2 ^ 30).
    { destruct b; [contradiction|]. unfold arr_len in *.
      rewrite !length_app in Hsize. simpl List.length in *. lia. }
    pose proof (decode_chunk_step_size_line 0 0 [] []
                  (b ++ CRLF ++ wire_chunked rest) (arr_len b) 0 false) as Hstep.
    cbn [app] in Hstep. rewrite Hstep.
    + cbn [obind app].
      replace (arr_len b =? 0) with false by (symmetry; apply Z.eqb_neq; lia).
      change (0 + 0) with (arr_len []).
      rewrite (decode_chunk_loop_chunks rest [] b).
      * reflexivity.
      * exact Hb.
      * exact Hrest.
      * unfold arr_len in *. rewrite !length_app in *. cbn [app].
        simpl List.length in *. lia.
      * rewrite !length_app in Hfuel |- *. simpl List.length in *. lia.
    + left. auto.
    + lia.
    + lia.
    + reflexivity.
    + lia.
    + unfold arr_len. rewrite !length_app. simpl List.length. lia.
    + exact Hsize.
    + lia.
    + lia.
Qed.

(** X5.  A well-formed chunked body (chunks that are not empty, each with
    its size line in hexadecimal and its CRLF, then the terminating chunk),
    given to [decode_chunk] in one piece from the initial chunk state, is
    decoded to the concatenation of the chunks: the buffer holds exactly
    the data, [idx] and the data length are its length, and the terminal
    flag is raised. *)
Theorem decode_chunk_whole_body
    (bs : list (list ascii))
    (Hchunks : Forall (fun b => b <> []) bs)
    (Hsize : arr_len (wire_chunked bs) < 2 ^ 30) :
  decode_chunk (mkChunkState 0 0) (wire_chunked bs) =
  Done (mkDecoded (mkChunkState 0 (arr_len (List.concat bs)))
          (List.concat bs) (arr_len (List.concat bs)) true).
Proof. apply decode_chunk_wire_chunked; assumption. Qed.

End DecoderRuns.

Lemma decode_chunk_whole_body_witness :
  Decoder.decode_chunk (Decoder.mkChunkState 0 0)
    (wire_chunked [bytes "hello"; bytes " world"]) =
  Done (Decoder.mkDecoded (Decoder.mkChunkState 0 11)
          (bytes "hello world") 11 true).
Proof.
  apply (decode_chunk_whole_body [bytes "hello"; bytes " world"]).
  - repeat constructor; discriminate.
  - vm_compute. reflexivity.
Defined.

Section DecoderEdges.

Import Decoder.

(** X6.  A size line that does not start with a hexadecimal digit is taken
    for a chunk of size 0: [decode_chunk] drops the line, its CRLF and the
    two bytes after it, whatever they are, and raises the terminal flag
    with no data decoded. *)
Theorem decode_chunk_malformed_size_ends_body
    (c x y : ascii) (junk rest : list ascii)
    (Hnohex : isxdigit c = false)
    (Hline : forallb (fun a => negb (Ascii.eqb a CR)) (c :: junk) = true)
    (Hrest : arr_len rest < 5)
    (Hsize : arr_len ((c :: junk) ++ CRLF ++ x :: y :: rest) < 2 ^ 30) :
  decode_chunk (mkChunkState 0 0) ((c :: junk) ++ CRLF ++ x :: y :: rest) =
  Done (mkDecoded (mkChunkState 0 0) rest 0 true).
Proof.
  set (line := c :: junk) in *.
  assert (Hlens : arr_len (line ++ CRLF ++ x :: y :: rest) =
                  arr_len line + 4 + arr_len rest).
  { unfold arr_len. rewrite !length_app. simpl List.length. lia. }
  assert (Hl : 1 <= arr_len line) by (unfold arr_len; subst line; simpl List.length; lia).
  assert (Hr : 0 <= arr_len rest) by (unfold arr_len; lia).
  rewrite Hlens in Hsize.
  unfold decode_chunk. cbn [decode_chunk_loop].
  assert (Hstep : decode_chunk_step
            (mkDecoded (mkChunkState 0 0) (line ++ CRLF ++ x :: y :: rest) 0 false) =
          Done (Some (mkDecoded (mkChunkState 0 0) rest 0 true))).
  { unfold decode_chunk_step, header_line_missing.
    cbn [d_state d_arr d_datalen d_ret idx len Z.eqb negb Z.add].
    rewrite Hlens.
    change (guint_wrap 5) with 5. change (guint_wrap 0) with 0.
    change (gint_wrap 0) with 0.
    replace (arr_len line + 4 + arr_len rest <? 5) with false
      by (symmetry; apply Z.ltb_ge; lia).
    rewrite soup_substring_index_after_prefix by (assumption || lia).
    replace (arr_len line <=? 0) with false by (symmetry; apply Z.leb_gt; lia).
    cbn [obind Z.to_nat skipn].
    assert (Hw : hex_width (line ++ CRLF ++ x :: y :: rest) = 0%nat).
    { subst line. cbn [app hex_width]. rewrite Hnohex. reflexivity. }
    unfold decode_hex. rewrite Hw.
    replace (Nat.eqb 0 (List.length (line ++ CRLF ++ x :: y :: rest))) with false
      by (symmetry; apply Nat.eqb_neq; subst line; simpl; lia).
    cbn [decode_hex_loop Z.of_nat Z.ltb Z.compare Z.eqb Z.add Z.sub].
    change (skipn (Z.to_nat 0) (line ++ CRLF ++ x :: y :: rest))
      with (line ++ CRLF ++ x :: y :: rest).
    rewrite Z.sub_0_r, Hlens.
    rewrite soup_substring_index_after_prefix
      by (assumption || (rewrite gint_wrap_small; lia)).
    rewrite !(gint_wrap_small (arr_len line)) by lia.
    rewrite (gint_wrap_small (arr_len line + 2)) by lia.
    rewrite (gint_wrap_small (arr_len line + 2 + 2)) by lia.
    change (line ++ CRLF ++ x :: y :: rest)
      with ([] ++ line ++ CRLF ++ x :: y :: rest).
    replace (line ++ CRLF ++ x :: y :: rest)
      with ((line ++ CRLF ++ [x; y]) ++ rest)
      by (rewrite <- !app_assoc; reflexivity).
    replace (arr_len line + 2 + 2) with (arr_len (line ++ CRLF ++ [x; y]))
      by (unfold arr_len; rewrite !length_app; simpl List.length; lia).
    change 0 with (arr_len []) at 1.
    rewrite remove_block_at_index_middle.
    - reflexivity.
    - subst line. discriminate.
    - cbn [app]. rewrite <- !app_assoc. cbn [app].
      change (line ++ CR :: LF :: x :: y :: rest)
        with (line ++ CRLF ++ x :: y :: rest).
      rewrite Hlens. lia. }
  rewrite Hstep. cbn [obind].
  destruct (List.length (line ++ CRLF ++ x :: y :: rest)) eqn:Hn.
  { subst line. simpl in Hn. lia. }
  cbn [decode_chunk_loop].
  unfold decode_chunk_step. cbn [d_state d_arr idx len Z.add].
  change (guint_wrap 5) with 5.
  replace (arr_len rest <? 5) with true by (symmetry; apply Z.ltb_lt; lia).
  reflexivity.
Qed.

End DecoderEdges.

Lemma decode_chunk_malformed_size_ends_body_witness :
  Decoder.decode_chunk (Decoder.mkChunkState 0 0)
    (bytes "xyz" ++ CRLF ++ bytes "5" ++ CRLF) =
  Done (Decoder.mkDecoded (Decoder.mkChunkState 0 0) [LF] 0 true).
Proof.
  apply (decode_chunk_malformed_size_ends_body
           "x"%char "5"%char CR (bytes "yz") [LF]).
  - reflexivity.
  - reflexivity.
  - vm_compute. reflexivity.
  - vm_compute. reflexivity.
Defined.

Lemma substring_scan_no_cr (str : list ascii) (room : nat) (i0 : Z) :
  forallb (fun a => negb (Ascii.eqb a CR)) str = true ->
  substring_scan CRLF str room i0 = -1.
Proof.
  revert str i0. induction room as [|room IH]; intros str i0 Hstr; [reflexivity|].
  cbn [substring_scan]. rewrite first_byte_matches_starts_with by discriminate.
  destruct str as [|a str].
  - cbn [starts_with CRLF tl]. apply IH. reflexivity.
  - simpl in Hstr. apply andb_prop in Hstr as [Ha Hstr].
    cbn [starts_with CRLF].
    replace (Ascii.eqb CR a) with false
      by (symmetry; rewrite Ascii.eqb_sym; apply negb_true_iff; exact Ha).
    cbn [andb tl]. apply IH. exact Hstr.
Qed.

Section DecoderWaits.

Import Decoder.

(** X7.  [decode_chunk] consumes nothing it cannot finish: when fewer than
    five bytes follow the data of the current chunk, or when the buffer
    holds the start of the first size line but no CR yet, the buffer and
    the chunk state are returned as they were, with no data and the
    terminal flag down. *)
Theorem decode_chunk_waits_for_size_line
    (s : SoupTransferChunkState) (arr : GByteArray)
    (Hwait : arr_len arr < guint_wrap (idx s + len s + 5) \/
             (len s = 0 /\ forallb (fun a => negb (Ascii.eqb a CR)) arr = true)) :
  decode_chunk s arr = Done (mkDecoded s arr 0 false).
Proof.
  unfold decode_chunk. cbn [decode_chunk_loop].
  unfold decode_chunk_step. cbn [d_state d_arr].
  destruct (arr_len arr <? guint_wrap (idx s + len s + 5)) eqn:Hshort;
    [reflexivity|].
  destruct Hwait as [Hlt|[Hlen Hnocr]].
  - apply Z.ltb_ge in Hshort. lia.
  - unfold header_line_missing. rewrite Hlen. cbn [Z.eqb negb].
    unfold soup_substring_index. rewrite substring_scan_no_cr by exact Hnocr.
    reflexivity.
Qed.

End DecoderWaits.

Lemma decode_chunk_waits_for_size_line_witness :
  Decoder.decode_chunk (Decoder.mkChunkState 0 0) (bytes "1a2b3c") =
  Done (Decoder.mkDecoded (Decoder.mkChunkState 0 0) (bytes "1a2b3c") 0 false).
Proof.
  apply decode_chunk_waits_for_size_line.
  right. split; reflexivity.
Defined.

(** * Further properties of the reader *)

Section ReaderOrder.

Import Reader Decoder.
Context {U : Type}.
Implicit Types r : SoupReader U.

Lemma closing_events_ids r r' t :
  ids r' = ids r -> closing_events r' t -> closing_events r t.
Proof.
  unfold ids, closing_events. intros H. injection H as Hr He.
  rewrite Hr, He. auto.
Qed.

Lemma body_events_ids r r' t :
  ids r' = ids r -> body_events r' t -> body_events r t.
Proof.
  intros H (chunks & fin & Ht & Hc & Hf).
  exists chunks, fin. split; [exact Ht|]. split; [exact Hc|].
  eapply closing_events_ids; eassumption.
Qed.

Lemma body_events_nil r : body_events r [].
Proof.
  exists [], []. split; [reflexivity|]. split; [constructor|].
  exists [], []. auto.
Qed.

Lemma body_events_chunks r t1 t2 :
  Forall chunk_event t1 -> body_events r t2 -> body_events r (t1 ++ t2).
Proof.
  intros H1 (chunks & fin & -> & Hc & Hf).
  exists (t1 ++ chunks), fin. split; [apply app_assoc|].
  split; [apply Forall_app; split; assumption|exact Hf].
Qed.

Lemma body_events_closing r t : closing_events r t -> body_events r t.
Proof.
  intros H. exists [], t. split; [reflexivity|]. split; [constructor|exact H].
Qed.

Lemma body_events_only_chunks r t : Forall chunk_event t -> body_events r t.
Proof.
  intros H. rewrite <- (app_nil_r t).
  apply body_events_chunks; [exact H|apply body_events_nil].
Qed.

Lemma issue_chunk_callback_order r data dlen c :
  Forall chunk_event (fst (issue_chunk_callback r data dlen c)) /\
  ids (fst (snd (issue_chunk_callback r data dlen c))) = ids r.
Proof.
  unfold issue_chunk_callback.
  destruct (read_chunk_cb r) as [cb|]; [|split; [constructor|reflexivity]].
  destruct (dlen =? 0) eqn:Hd; cbn [negb]; [split; [constructor|reflexivity]|].
  destruct (cb _ _) as [cont u]. cbn [fst snd]. split; [|reflexivity].
  constructor; [|constructor]. eexists. split; [reflexivity|].
  simpl. apply Z.eqb_neq. exact Hd.
Qed.

Lemma read_content_length_order r c :
  Forall chunk_event (fst (read_content_length r c)) /\
  ids (fst (fst (snd (read_content_length r c)))) = ids r.
Proof.
  unfold read_content_length.
  destruct (arr_len (recv_buf r) =? 0); [split; [constructor|reflexivity]|].
  pose proof (issue_chunk_callback_order r (recv_buf r) (arr_len (recv_buf r)) c) as H.
  destruct (issue_chunk_callback _ _ _ _) as [t [r' c']]. cbn [fst snd] in *.
  destruct c'; [exact H|].
  destruct (overwrite_chunks r'); exact H.
Qed.

Lemma read_unknown_order r c :
  Forall chunk_event (fst (read_unknown r c)) /\
  ids (fst (fst (snd (read_unknown r c)))) = ids r.
Proof.
  unfold read_unknown.
  destruct (arr_len (recv_buf r) =? 0); [split; [constructor|reflexivity]|].
  pose proof (issue_chunk_callback_order r (recv_buf r) (arr_len (recv_buf r)) c) as H.
  destruct (issue_chunk_callback _ _ _ _) as [t [r' c']]. cbn [fst snd] in *.
  destruct c'; [exact H|].
  destruct (overwrite_chunks r'); exact H.
Qed.

Lemma read_chunk_order r c :
  Forall chunk_event (fst (read_chunk r c)) /\
  (forall r' c' d, snd (read_chunk r c) = Done (r', c', d) -> ids r' = ids r).
Proof.
  unfold read_chunk.
  destruct (decode_chunk (chunk_state r) (recv_buf r)) as [dec| |];
    cbn [of_outcome bind]; try (split; [constructor|discriminate]).
  destruct (d_datalen dec =? 0).
  { cbn. split; [constructor|]. intros r' c' d H. inversion H; subst. reflexivity. }
  match goal with
  | |- context [issue_chunk_callback ?a ?b ?c ?d] =>
      pose proof (issue_chunk_callback_order a b c d) as [Ht Hid];
      destruct (issue_chunk_callback a b c d) as [t [r1 c1]]
  end.
  cbn [fst snd lift bind] in *.
  destruct c1.
  { cbn. rewrite app_nil_r. split; [exact Ht|].
    intros r' c' d H. inversion H; subst. exact Hid. }
  destruct (overwrite_chunks r1).
  - destruct (remove_block_at_index _ _ _) as [arr| |]; cbn;
      rewrite ?app_nil_r; (split; [exact Ht|]); try discriminate.
    intros r' c' d H. inversion H; subst. exact Hid.
  - cbn. rewrite app_nil_r. split; [exact Ht|].
    intros r' c' d H. inversion H; subst. exact Hid.
Qed.

Lemma issue_final_callback_order r :
  (fst (issue_final_callback r) = [] \/
   exists b, fst (issue_final_callback r) = [EvReadDone b]) /\
  ids (snd (issue_final_callback r)) = ids r.
Proof.
  unfold issue_final_callback. cbn.
  destruct (read_done_cb r); cbn; split; eauto.
Qed.

Lemma soup_transfer_read_cancel_order r :
  fst (soup_transfer_read_cancel r) = [] \/
  exists fs, fst (soup_transfer_read_cancel r) =
             [EvSourceRemove (read_tag r); EvSourceRemove (err_tag r);
              EvByteArrayFree fs; EvFree].
Proof.
  unfold soup_transfer_read_cancel. destruct (processing r); cbn; eauto.
Qed.

Lemma finish_read_order r : closing_events r (fst (finish_read r)).
Proof.
  unfold finish_read.
  pose proof (soup_transfer_read_cancel_order r) as H.
  destruct (soup_transfer_read_cancel r) as [t o]. cbn [fst] in *.
  exists [], t. auto.
Qed.

(** The body of [PROCESS_READ]: chunk callbacks only when the handler goes
    on reading, chunk callbacks and an end otherwise. *)
Lemma process_body_order r n :
  body_events r (fst (process_body r n)) /\
  (forall r', snd (process_body r n) = Done (ReadMore r') ->
     Forall chunk_event (fst (process_body r n)) /\
     ids r' = ids r /\ header_len r' = header_len r).
Proof.
  unfold process_body.
  assert (Hstep : exists m : M (SoupReader U * bool * bool),
            m = (if n =? 0 then ret (r, false, true)
                 else match encoding r with
                      | SOUP_TRANSFER_CHUNKED => read_chunk r false
                      | SOUP_TRANSFER_CONTENT_LENGTH => lift (read_content_length r false)
                      | SOUP_TRANSFER_UNKNOWN => lift (read_unknown r false)
                      end) /\
            Forall chunk_event (fst m) /\
            (forall r' c' d, snd m = Done (r', c', d) ->
               ids r' = ids r /\ framing r' = framing r)).
  { eexists. split; [reflexivity|].
    destruct (n =? 0).
    { split; [constructor|]. intros r' c' d H. inversion H; subst. auto. }
    destruct (encoding r) eqn:Henc.
    - pose proof (read_unknown_order r false) as [Ht Hid].
      pose proof (read_unknown_framing r false) as Hf.
      split; [exact Ht|]. intros r' c' d H. cbn in H. inversion H as [Hx].
      rewrite Hx in Hid, Hf. auto.
    - pose proof (read_chunk_order r false) as [Ht Hid].
      split; [exact Ht|]. intros r' c' d H. split; [eapply Hid; exact H|].
      destruct (read_chunk r false) as [t o] eqn:Hrc. cbn [snd] in H. subst o.
      eapply read_chunk_framing. exact Hrc.
    - pose proof (read_content_length_order r false) as [Ht Hid].
      pose proof (read_content_length_framing r false) as Hf.
      split; [exact Ht|]. intros r' c' d H. cbn in H. inversion H as [Hx].
      rewrite Hx in Hid, Hf. auto. }
  destruct Hstep as (m & <- & Ht & Hkeep).
  destruct m as [t [[[r1 c1] d1]| |]]; cbn [bind fst snd] in *;
    try (split; [apply body_events_only_chunks; exact Ht|discriminate]).
  destruct (Hkeep r1 c1 d1 eq_refl) as [Hid Hfr].
  destruct c1.
  { pose proof (finish_read_order r1) as Hfin.
    destruct (finish_read r1) as [t2 o2] eqn:Hf. cbn [fst snd] in *. split.
    - apply body_events_chunks; [exact Ht|].
      apply body_events_closing. eapply closing_events_ids; eassumption.
    - unfold finish_read in Hf. destruct (soup_transfer_read_cancel r1).
      inversion Hf; subst. discriminate. }
  destruct d1; cbn [negb].
  - pose proof (issue_final_callback_order r1) as [Hdone Hid2].
    destruct (issue_final_callback r1) as [t2 r2]. cbn [lift bind fst snd] in *.
    pose proof (finish_read_order r2) as Hfin.
    destruct (finish_read r2) as [t3 o3] eqn:Hf. cbn [fst snd] in *. split.
    + apply body_events_chunks; [exact Ht|].
      apply body_events_closing.
      destruct Hfin as (last & td & -> & Hlast & Htd).
      assert (Hlast' : last = []).
      { unfold finish_read in Hf. destruct (soup_transfer_read_cancel r2) as [t4 o4] eqn:Hc.
        inversion Hf as [[Ht3 Ho3]].
        pose proof (soup_transfer_read_cancel_order r2) as Hc'. rewrite Hc in Hc'.
        cbn [fst] in Hc'. rewrite Ht3 in Hc'.
        destruct Hlast as [->|[[b ->]|[b ->]]]; [reflexivity| |];
          destruct Hc' as [Hc'|[fs Hc']]; cbn in Hc'; try discriminate;
          destruct Htd as [->|[fs' ->]]; cbn in Hc'; discriminate. }
      subst last. cbn [app].
      exists t2, td. split; [reflexivity|]. split.
      * destruct Hdone as [->|[b ->]]; eauto.
      * assert (Hids : ids r2 = ids r) by congruence.
        unfold ids in Hids. injection Hids as Hr He.
        rewrite <- Hr, <- He. exact Htd.
    + unfold finish_read in Hf. destruct (soup_transfer_read_cancel r2).
      inversion Hf; subst. discriminate.
  - cbn. rewrite app_nil_r. split; [apply body_events_only_chunks; exact Ht|].
    intros r' H. inversion H; subst. split; [exact Ht|]. split; [exact Hid|].
    unfold framing in Hfr. congruence.
Qed.

Lemma bind_trace {A B : Type} (m : M A) (k : A -> M B) :
  (exists a, snd m = Done a /\ fst (bind m k) = fst m ++ fst (k a) /\
             snd (bind m k) = snd (k a)) \/
  ((forall a, snd m <> Done a) /\ fst (bind m k) = fst m /\
   forall b, snd (bind m k) <> Done b).
Proof.
  destruct m as [t [a| |]]; cbn.
  - left. exists a. destruct (k a). auto.
  - right. repeat split; discriminate.
  - right. repeat split; discriminate.
Qed.

Lemma soup_transfer_read_error_cb_order r :
  closing_events r (fst (soup_transfer_read_error_cb r)).
Proof.
  unfold soup_transfer_read_error_cb.
  destruct (encoding_eqb _ _).
  - pose proof (issue_final_callback_order r) as [Hdone Hid].
    destruct (issue_final_callback r) as [t1 r1]. cbn [fst snd] in *.
    pose proof (soup_transfer_read_cancel_order r1) as Hc.
    destruct (soup_transfer_read_cancel r1) as [t2 o]. cbn [fst] in *.
    exists t1, t2. split; [reflexivity|]. split.
    + destruct Hdone as [->|[b ->]]; eauto.
    + unfold ids in Hid. injection Hid as Hr He. rewrite <- Hr, <- He. exact Hc.
  - destruct (error_cb (IGNORE_CANCEL r)) as [cb|];
      match goal with
      | |- context [soup_transfer_read_cancel ?x] =>
          pose proof (soup_transfer_read_cancel_order x) as Hc;
          destruct (soup_transfer_read_cancel x) as [t2 o]
      end; cbn [fst] in *.
    + eexists [_], t2. split; [reflexivity|]. split; [eauto|exact Hc].
    + exists [], t2. split; [reflexivity|]. split; [auto|exact Hc].
Qed.

Lemma process_read_order r n :
  run_events r (fst (process_read r n)) /\
  (header_len r <> 0 -> body_events r (fst (process_read r n))) /\
  (forall r', snd (process_read r n) = Done (ReadMore r') ->
     opening_events r (fst (process_read r n)) /\
     (header_len r <> 0 -> Forall chunk_event (fst (process_read r n))) /\
     ids r' = ids r /\ header_len r' <> 0).
Proof.
  unfold process_read.
  destruct (header_len r =? 0) eqn:Hh.
  - apply Z.eqb_eq in Hh.
    set (index := soup_substring_index (recv_buf r) (arr_len (recv_buf r)) CRLFCRLF).
    destruct (index <? 0) eqn:Hidx.
    { cbn. split; [left; apply body_events_nil|]. split; [intros H; contradiction|].
      discriminate. }
    apply Z.ltb_ge in Hidx.
    assert (Hbody : forall (r1 : SoupReader U) arr,
              ids r1 = ids r ->
              let r2 := set_header_len (set_recv_buf r1 arr) (index + 4) in
              body_events r (fst (process_body r2 n)) /\
              (forall r', snd (process_body r2 n) = Done (ReadMore r') ->
                 Forall chunk_event (fst (process_body r2 n)) /\
                 ids r' = ids r /\ header_len r' <> 0)).
    { intros r1 arr Hid r2.
      pose proof (process_body_order r2 n) as [Hb Hmore].
      assert (Hid2 : ids r2 = ids r) by exact Hid.
      split; [eapply body_events_ids; [exact Hid2|exact Hb]|].
      intros r' Hr'. destruct (Hmore r' Hr') as (Hc & Hid' & Hh').
      split; [exact Hc|]. split; [congruence|].
      rewrite Hh'. cbn. lia. }
    destruct (headers_done_cb r) as [cb|].
    + destruct (cb _ _ _ _) as [[[res enc] clen] u].
      cbn [lift bind fst snd app].
      destruct res.
      * match goal with
        | |- context [finish_read ?x] =>
            pose proof (finish_read_order x) as Hfin;
            destruct (finish_read x) as [t2 o2] eqn:Hf
        end.
        cbn [fst snd] in *. split; [|split; [intros H; contradiction|]].
        -- right. split; [exact Hh|]. eexists _, t2. split; [reflexivity|].
           apply body_events_closing. exact Hfin.
        -- unfold finish_read in Hf. destruct (soup_transfer_read_cancel _).
           inversion Hf; subst. discriminate.
      * match goal with
        | |- context [remove_block_at_index ?a ?b ?c] =>
            destruct (remove_block_at_index a b c) as [arr| |]
        end; cbn [of_outcome bind fst snd app].
        -- match goal with
           | |- context [process_body (set_header_len (set_recv_buf ?r1 arr) _) n] =>
               destruct (Hbody r1 arr eq_refl) as [Hb Hmore];
               destruct (process_body (set_header_len (set_recv_buf r1 arr) (index + 4)) n)
                 as [t2 o2]
           end.
           cbn [fst snd] in *. split; [|split; [intros H; contradiction|]].
           ++ right. split; [exact Hh|]. eexists _, t2. split; [reflexivity|exact Hb].
           ++ intros r' Hr'. destruct (Hmore r' Hr') as (Hc & Hid' & Hh').
              split; [|split; [intros H; contradiction|auto]].
              right. split; [exact Hh|]. eexists _, t2. split; [reflexivity|exact Hc].
        -- split; [|split; [intros H; contradiction|discriminate]].
           right. split; [exact Hh|]. eexists _, []. split; [reflexivity|].
           apply body_events_nil.
        -- split; [|split; [intros H; contradiction|discriminate]].
           right. split; [exact Hh|]. eexists _, []. split; [reflexivity|].
           apply body_events_nil.
    + match goal with
      | |- context [remove_block_at_index ?a ?b ?c] =>
          destruct (remove_block_at_index a b c) as [arr| |]
      end; cbn [of_outcome bind fst snd app].
      * destruct (Hbody r arr eq_refl) as [Hb Hmore].
        destruct (process_body (set_header_len (set_recv_buf r arr) (index + 4)) n)
          as [t2 o2].
        cbn [fst snd] in *. split; [left; exact Hb|].
        split; [intros H; contradiction|].
        intros r' Hr'. destruct (Hmore r' Hr') as (Hc & Hid' & Hh').
        split; [left; exact Hc|]. split; [intros H; contradiction|auto].
      * split; [left; apply body_events_nil|].
        split; [intros H; contradiction|discriminate].
      * split; [left; apply body_events_nil|].
        split; [intros H; contradiction|discriminate].
  - apply Z.eqb_neq in Hh.
    pose proof (process_body_order r n) as [Hb Hmore].
    split; [left; exact Hb|]. split; [intros _; exact Hb|].
    intros r' Hr'. destruct (Hmore r' Hr') as (Hc & Hid' & Hh').
    split; [left; exact Hc|]. split; [intros _; exact Hc|].
    split; [exact Hid'|]. rewrite Hh'. exact Hh.
Qed.

(** Once the headers are behind, a run of the handler gives chunk callbacks
    and then at most one end. *)
Lemma read_again_body_order (chan : list read_result) r n :
  header_len r <> 0 -> body_events r (fst (read_again chan r n)).
Proof.
  revert r n. induction chan as [|a chan IH]; intros r n Hh.
  - cbn [read_again]. destruct (n =? 0); cbn [negb]; [apply body_events_nil|].
    pose proof (process_read_order r n) as (_ & Hb & Hmore).
    destruct (bind_trace (process_read r n)
                (fun x => after x [] (fun _ r' => ret (mkExit true (Some r'), []))))
      as [(s & Hs & -> & _)|(_ & -> & _)]; [|apply Hb; exact Hh].
    destruct s as [e|r']; cbn; rewrite app_nil_r; apply Hb; exact Hh.
  - assert (Hproc : body_events r
              (fst (x <~ process_read r n ;;
                    after x chan (fun c r' => read_again c r' 0)))).
    { pose proof (process_read_order r n) as (_ & Hb & Hmore).
      destruct (bind_trace (process_read r n)
                  (fun x => after x chan (fun c r' => read_again c r' 0)))
        as [(s & Hs & -> & _)|(_ & -> & _)]; [|apply Hb; exact Hh].
      destruct s as [e|r']; cbn [after].
      - cbn. rewrite app_nil_r. apply Hb. exact Hh.
      - destruct (Hmore r' Hs) as (_ & Hc & Hid & Hh').
        apply body_events_chunks; [apply Hc; exact Hh|].
        eapply body_events_ids; [exact Hid|]. apply IH. exact Hh'. }
    destruct a as [data| |]; cbn [read_again].
    + destruct (arr_len data =? 0); cbn [negb]; [exact Hproc|].
      apply (IH (set_recv_buf r (recv_buf r ++ data))). exact Hh.
    + destruct (n =? 0); cbn [negb]; [apply body_events_nil|exact Hproc].
    + destruct (n =? 0); cbn [negb]; [|exact Hproc].
      cbn. rewrite app_nil_r. apply body_events_closing.
      apply soup_transfer_read_error_cb_order.
Qed.

Lemma run_events_opening r r' t1 t2 :
  opening_events r t1 -> ids r' = ids r -> body_events r' t2 ->
  run_events r (t1 ++ t2).
Proof.
  intros [Hc|(Hh & str & t' & -> & Hc)] Hid Hb.
  - left. apply body_events_chunks; [exact Hc|].
    eapply body_events_ids; [exact Hid|exact Hb].
  - right. split; [exact Hh|]. exists str, (t' ++ t2). split; [reflexivity|].
    apply body_events_chunks; [exact Hc|].
    eapply body_events_ids; [exact Hid|exact Hb].
Qed.

Lemma read_again_order (chan : list read_result) r n :
  run_events r (fst (read_again chan r n)).
Proof.
  revert r n. induction chan as [|a chan IH]; intros r n.
  - cbn [read_again]. destruct (n =? 0); cbn [negb]; [left; apply body_events_nil|].
    pose proof (process_read_order r n) as (Hrun & _ & _).
    destruct (bind_trace (process_read r n)
                (fun x => after x [] (fun _ r' => ret (mkExit true (Some r'), []))))
      as [(s & Hs & -> & _)|(_ & -> & _)]; [|exact Hrun].
    destruct s as [e|r']; cbn; rewrite app_nil_r; exact Hrun.
  - assert (Hproc : run_events r
              (fst (x <~ process_read r n ;;
                    after x chan (fun c r' => read_again c r' 0)))).
    { pose proof (process_read_order r n) as (Hrun & _ & Hmore).
      destruct (bind_trace (process_read r n)
                  (fun x => after x chan (fun c r' => read_again c r' 0)))
        as [(s & Hs & -> & _)|(_ & -> & _)]; [|exact Hrun].
      destruct s as [e|r']; cbn [after].
      - cbn. rewrite app_nil_r. exact Hrun.
      - destruct (Hmore r' Hs) as (Hopen & _ & Hid & Hh').
        eapply run_events_opening; [exact Hopen|exact Hid|].
        apply read_again_body_order. exact Hh'. }
    destruct a as [data| |]; cbn [read_again].
    + destruct (arr_len data =? 0); cbn [negb]; [exact Hproc|].
      apply (IH (set_recv_buf r (recv_buf r ++ data))).
    + destruct (n =? 0); cbn [negb]; [left; apply body_events_nil|exact Hproc].
    + destruct (n =? 0); cbn [negb]; [|exact Hproc].
      cbn. rewrite app_nil_r. left. apply body_events_closing.
      apply soup_transfer_read_error_cb_order.
Qed.

(** X8.  The callbacks of a run of the read handler come in a fixed order,
    on any channel and from any reader: the headers-done callback at most
    once and before everything else (and not at all once the headers are
    behind), then chunk callbacks with data, then at most one done or error
    callback, then at most the teardown of this reader, after which nothing
    follows. *)
Theorem read_handler_callback_order (chan : list read_result) r :
  run_events r (fst (soup_transfer_read_cb chan r)) /\
  (header_len r <> 0 -> body_events r (fst (soup_transfer_read_cb chan r))).
Proof.
  split; [apply read_again_order|apply read_again_body_order].
Qed.

End ReaderOrder.

Lemma read_handler_callback_order_witness :
  run_events (fresh_reader 5)
    (fst (Reader.soup_transfer_read_cb
            [ReadOk (ok_header ++ bytes "he"); ReadOk (bytes "llo")]
            (fresh_reader 5))) /\
  body_events short_body_reader
    (fst (Reader.soup_transfer_read_cb [ReadOk (bytes "llo")] short_body_reader)).
Proof.
  split.
  - apply (proj1 (read_handler_callback_order
                    [ReadOk (ok_header ++ bytes "he"); ReadOk (bytes "llo")]
                    (fresh_reader 5))).
  - apply (proj2 (read_handler_callback_order [ReadOk (bytes "llo")]
                    short_body_reader)).
    discriminate.
Defined.

(** ** Who owns the bytes of the receive buffer *)

Section ReaderOwnership.

Import Reader Decoder.
Context {U : Type}.
Implicit Types r : SoupReader U.

Lemma lent_app (t1 t2 : list event) : lent (t1 ++ t2) = lent t1 || lent t2.
Proof. unfold lent. apply existsb_app. Qed.

Lemma no_free_not_in (t : list event) (fs : bool) :
  no_free t -> ~ In (EvByteArrayFree fs) t.
Proof.
  intros H Hin. unfold no_free in H. rewrite Forall_forall in H.
  apply (H _ Hin fs). reflexivity.
Qed.

Lemma frees_right_after r r1 t1 t2 :
  no_free t1 -> callback_issued r1 = callback_issued r || lent t1 ->
  frees_right r1 t2 -> frees_right r (t1 ++ t2).
Proof.
  intros Hn Hc Hf fs Hin. apply in_app_or in Hin as [Hin|Hin].
  - exfalso. eapply no_free_not_in; eassumption.
  - rewrite (Hf fs Hin), Hc, lent_app, orb_assoc. reflexivity.
Qed.

Lemma frees_right_no_free r t : no_free t -> frees_right r t.
Proof. intros Hn fs Hin. exfalso. eapply no_free_not_in; eassumption. Qed.

Lemma issue_chunk_callback_lends r data dlen c :
  let '(t, (r', _)) := issue_chunk_callback r data dlen c in
  no_free t /\ callback_issued r' = callback_issued r || lent t.
Proof.
  unfold issue_chunk_callback.
  destruct (read_chunk_cb r) as [cb|].
  2:{ split; [constructor|]. cbn. rewrite orb_false_r. reflexivity. }
  destruct (dlen =? 0); cbn [negb].
  { split; [constructor|]. cbn. rewrite orb_false_r. reflexivity. }
  destruct (cb _ _) as [cont u]. split.
  - constructor; [discriminate|constructor].
  - cbn. rewrite orb_true_r. reflexivity.
Qed.

Lemma issue_final_callback_lends r :
  let '(t, r') := issue_final_callback r in
  no_free t /\ callback_issued r' = callback_issued r || lent t.
Proof.
  unfold issue_final_callback. cbn.
  destruct (read_done_cb r); cbn; split; try constructor;
    try discriminate; try constructor;
    rewrite ?orb_true_r, ?orb_false_r; reflexivity.
Qed.

Lemma read_content_length_lends r c :
  let '(t, (r', _, _)) := read_content_length r c in
  no_free t /\ callback_issued r' = callback_issued r || lent t.
Proof.
  unfold read_content_length.
  destruct (arr_len (recv_buf r) =? 0).
  { split; [constructor|]. cbn. rewrite orb_false_r. reflexivity. }
  pose proof (issue_chunk_callback_lends r (recv_buf r) (arr_len (recv_buf r)) c) as H.
  destruct (issue_chunk_callback _ _ _ _) as [t [r' c']].
  destruct c'; [exact H|].
  destruct (overwrite_chunks r'); exact H.
Qed.

Lemma read_unknown_lends r c :
  let '(t, (r', _, _)) := read_unknown r c in
  no_free t /\ callback_issued r' = callback_issued r || lent t.
Proof.
  unfold read_unknown.
  destruct (arr_len (recv_buf r) =? 0).
  { split; [constructor|]. cbn. rewrite orb_false_r. reflexivity. }
  pose proof (issue_chunk_callback_lends r (recv_buf r) (arr_len (recv_buf r)) c) as H.
  destruct (issue_chunk_callback _ _ _ _) as [t [r' c']].
  destruct c'; [exact H|].
  destruct (overwrite_chunks r'); exact H.
Qed.

Lemma read_chunk_lends r c :
  no_free (fst (read_chunk r c)) /\
  (forall r' c' d, snd (read_chunk r c) = Done (r', c', d) ->
     callback_issued r' = callback_issued r || lent (fst (read_chunk r c))).
Proof.
  unfold read_chunk.
  destruct (decode_chunk (chunk_state r) (recv_buf r)) as [dec| |];
    cbn [of_outcome bind]; try (split; [constructor|discriminate]).
  destruct (d_datalen dec =? 0).
  { cbn. split; [constructor|]. intros r' c' d H. inversion H; subst.
    cbn. rewrite orb_false_r. reflexivity. }
  match goal with
  | |- context [issue_chunk_callback ?a ?b ?c ?d] =>
      pose proof (issue_chunk_callback_lends a b c d) as Hl;
      destruct (issue_chunk_callback a b c d) as [t [r1 c1]]
  end.
  destruct Hl as [Hn Hc]. cbn [fst snd lift bind] in *.
  change (callback_issued (set_recv_buf (set_chunk_state r (d_state dec)) (d_arr dec)))
    with (callback_issued r) in Hc.
  destruct c1.
  { cbn. rewrite app_nil_r. split; [exact Hn|].
    intros r' c' d H. inversion H; subst. exact Hc. }
  destruct (overwrite_chunks r1).
  - destruct (remove_block_at_index _ _ _) as [arr| |]; cbn;
      rewrite ?app_nil_r; (split; [exact Hn|]); try discriminate.
    intros r' c' d H. inversion H; subst. exact Hc.
  - cbn. rewrite app_nil_r. split; [exact Hn|].
    intros r' c' d H. inversion H; subst. exact Hc.
Qed.

Lemma soup_transfer_read_cancel_frees r :
  frees_right r (fst (soup_transfer_read_cancel r)).
Proof.
  unfold soup_transfer_read_cancel, frees_right.
  destruct (processing r); cbn; intros fs H; [contradiction|].
  destruct H as [H|[H|[H|[H|H]]]]; try discriminate; try contradiction.
  inversion H. destruct (callback_issued r); reflexivity.
Qed.

Lemma finish_read_frees r : frees_right r (fst (finish_read r)).
Proof.
  unfold finish_read.
  pose proof (soup_transfer_read_cancel_frees r) as H.
  destruct (soup_transfer_read_cancel r). exact H.
Qed.

Lemma process_body_frees r n :
  frees_right r (fst (process_body r n)) /\
  (forall r', snd (process_body r n) = Done (ReadMore r') ->
     no_free (fst (process_body r n)) /\
     callback_issued r' = callback_issued r || lent (fst (process_body r n))).
Proof.
  unfold process_body.
  assert (Hstep : exists m : M (SoupReader U * bool * bool),
            m = (if n =? 0 then ret (r, false, true)
                 else match encoding r with
                      | SOUP_TRANSFER_CHUNKED => read_chunk r false
                      | SOUP_TRANSFER_CONTENT_LENGTH => lift (read_content_length r false)
                      | SOUP_TRANSFER_UNKNOWN => lift (read_unknown r false)
                      end) /\
            no_free (fst m) /\
            (forall r' c' d, snd m = Done (r', c', d) ->
               callback_issued r' = callback_issued r || lent (fst m))).
  { eexists. split; [reflexivity|].
    destruct (n =? 0).
    { split; [constructor|]. intros r' c' d H. inversion H; subst.
      cbn. rewrite orb_false_r. reflexivity. }
    destruct (encoding r).
    - pose proof (read_unknown_lends r false) as H.
      destruct (read_unknown r false) as [t [[r1 c1] d1]]. destruct H as [Hn Hc].
      split; [exact Hn|]. intros r' c' d H. inversion H; subst. exact Hc.
    - apply read_chunk_lends.
    - pose proof (read_content_length_lends r false) as H.
      destruct (read_content_length r false) as [t [[r1 c1] d1]]. destruct H as [Hn Hc].
      split; [exact Hn|]. intros r' c' d H. inversion H; subst. exact Hc. }
  destruct Hstep as (m & <- & Hn & Hkeep).
  destruct m as [t [[[r1 c1] d1]| |]]; cbn [bind fst snd] in *;
    try (split; [apply frees_right_no_free; exact Hn|discriminate]).
  pose proof (Hkeep r1 c1 d1 eq_refl) as Hc.
  destruct c1.
  { pose proof (finish_read_frees r1) as Hfin.
    destruct (finish_read r1) as [t2 o2] eqn:Hf. cbn [fst snd] in *. split.
    - eapply frees_right_after; eassumption.
    - unfold finish_read in Hf. destruct (soup_transfer_read_cancel r1).
      inversion Hf; subst. discriminate. }
  destruct d1; cbn [negb].
  - pose proof (issue_final_callback_lends r1) as Hfinal.
    destruct (issue_final_callback r1) as [t2 r2]. destruct Hfinal as [Hn2 Hc2].
    cbn [lift bind fst snd] in *.
    pose proof (finish_read_frees r2) as Hfin.
    destruct (finish_read r2) as [t3 o3] eqn:Hf. cbn [fst snd] in *. split.
    + eapply frees_right_after; [exact Hn|exact Hc|].
      eapply frees_right_after; eassumption.
    + unfold finish_read in Hf. destruct (soup_transfer_read_cancel r2).
      inversion Hf; subst. discriminate.
  - cbn. rewrite app_nil_r. split; [apply frees_right_no_free; exact Hn|].
    intros r' H. inversion H; subst. split; [exact Hn|exact Hc].
Qed.

Lemma no_free_cons (e : event) (t : list event) :
  (forall fs, e <> EvByteArrayFree fs) -> no_free t -> no_free (e :: t).
Proof. intros He Ht. constructor; assumption. Qed.

Lemma process_read_frees r n :
  frees_right r (fst (process_read r n)) /\
  (forall r', snd (process_read r n) = Done (ReadMore r') ->
     no_free (fst (process_read r n)) /\
     callback_issued r' = callback_issued r || lent (fst (process_read r n))).
Proof.
  unfold process_read.
  destruct (header_len r =? 0); [|apply process_body_frees].
  set (index := soup_substring_index (recv_buf r) (arr_len (recv_buf r)) CRLFCRLF).
  destruct (index <? 0).
  { cbn. split; [intros fs H; contradiction|discriminate]. }
  assert (Hhdr : forall str, no_free [EvReadHeadersDone str])
    by (intros str; constructor; [discriminate|constructor]).
  destruct (headers_done_cb r) as [cb|].
  - destruct (cb _ _ _ _) as [[[res enc] clen] u].
    cbn [lift bind fst snd app].
    destruct res.
    + match goal with
      | |- context [finish_read ?x] =>
          pose proof (finish_read_frees x) as Hfin;
          destruct (finish_read x) as [t2 o2] eqn:Hf
      end.
      cbn [fst snd] in *. split.
      * eapply (frees_right_after r _ [_] t2); [apply Hhdr| |exact Hfin].
        cbn. rewrite orb_false_r. reflexivity.
      * unfold finish_read in Hf. destruct (soup_transfer_read_cancel _).
        inversion Hf; subst. discriminate.
    + match goal with
      | |- context [remove_block_at_index ?a ?b ?c] =>
          destruct (remove_block_at_index a b c) as [arr| |]
      end; cbn [of_outcome bind fst snd app];
        try (split; [apply frees_right_no_free; apply Hhdr|discriminate]).
      match goal with
      | |- context [process_body ?x n] =>
          pose proof (process_body_frees x n) as [Hb Hmore];
          destruct (process_body x n) as [t2 o2]
      end.
      cbn [fst snd] in *. split.
      * eapply (frees_right_after r _ [_] t2); [apply Hhdr| |exact Hb].
        cbn. rewrite orb_false_r. reflexivity.
      * intros r' Hr'. destruct (Hmore r' Hr') as [Hn Hc]. split.
        -- apply no_free_cons; [discriminate|exact Hn].
        -- exact Hc.
  - match goal with
    | |- context [remove_block_at_index ?a ?b ?c] =>
        destruct (remove_block_at_index a b c) as [arr| |]
    end; cbn [of_outcome bind fst snd app];
      try (split; [intros fs H; contradiction|discriminate]).
    match goal with
    | |- context [process_body ?x n] =>
        pose proof (process_body_frees x n) as [Hb Hmore];
        destruct (process_body x n) as [t2 o2]
    end.
    cbn [fst snd] in *. split; [exact Hb|exact Hmore].
Qed.

Lemma soup_transfer_read_error_cb_frees r :
  frees_right r (fst (soup_transfer_read_error_cb r)).
Proof.
  unfold soup_transfer_read_error_cb.
  destruct (encoding_eqb _ _).
  - pose proof (issue_final_callback_lends r) as Hfinal.
    destruct (issue_final_callback r) as [t1 r1]. destruct Hfinal as [Hn Hc].
    pose proof (soup_transfer_read_cancel_frees r1) as Hcan.
    destruct (soup_transfer_read_cancel r1) as [t2 o]. cbn [fst] in *.
    eapply frees_right_after; eassumption.
  - destruct (error_cb (IGNORE_CANCEL r)) as [cb|];
      match goal with
      | |- context [soup_transfer_read_cancel ?x] =>
          pose proof (soup_transfer_read_cancel_frees x) as Hcan;
          destruct (soup_transfer_read_cancel x) as [t2 o]
      end; cbn [fst] in *.
    + eapply (frees_right_after r _ [_] t2); [| |exact Hcan].
      * constructor; [discriminate|constructor].
      * cbn. rewrite orb_false_r. reflexivity.
    + exact Hcan.
Qed.

Lemma read_again_frees (chan : list read_result) r n :
  frees_right r (fst (read_again chan r n)).
Proof.
  revert r n. induction chan as [|a chan IH]; intros r n.
  - cbn [read_again]. destruct (n =? 0); cbn [negb]; [intros fs H; contradiction|].
    pose proof (process_read_frees r n) as (Hf & _).
    destruct (bind_trace (process_read r n)
                (fun x => after x [] (fun _ r' => ret (mkExit true (Some r'), []))))
      as [(s & Hs & -> & _)|(_ & -> & _)]; [|exact Hf].
    destruct s as [e|r']; cbn; rewrite app_nil_r; exact Hf.
  - assert (Hproc : frees_right r
              (fst (x <~ process_read r n ;;
                    after x chan (fun c r' => read_again c r' 0)))).
    { pose proof (process_read_frees r n) as (Hf & Hmore).
      destruct (bind_trace (process_read r n)
                  (fun x => after x chan (fun c r' => read_again c r' 0)))
        as [(s & Hs & -> & _)|(_ & -> & _)]; [|exact Hf].
      destruct s as [e|r']; cbn [after].
      - cbn. rewrite app_nil_r. exact Hf.
      - destruct (Hmore r' Hs) as (Hn & Hc).
        eapply frees_right_after; [exact Hn|exact Hc|apply IH]. }
    destruct a as [data| |]; cbn [read_again].
    + destruct (arr_len data =? 0); cbn [negb]; [exact Hproc|].
      apply (IH (set_recv_buf r (recv_buf r ++ data))).
    + destruct (n =? 0); cbn [negb]; [intros fs H; contradiction|exact Hproc].
    + destruct (n =? 0); cbn [negb]; [|exact Hproc].
      cbn. rewrite app_nil_r. apply soup_transfer_read_error_cb_frees.
Qed.

(** X9.  When a run of the read handler, or the error handler, frees the
    receive buffer, it frees the bytes themselves exactly when no chunk or
    done callback has ever been handed them: neither before the run
    ([callback_issued]) nor in the course of it. *)
Theorem receive_buffer_freed_unless_lent
    (chan : list read_result) r (fs : bool) :
  (In (EvByteArrayFree fs) (fst (soup_transfer_read_cb chan r)) ->
   fs = negb (callback_issued r || lent (fst (soup_transfer_read_cb chan r)))) /\
  (In (EvByteArrayFree fs) (fst (soup_transfer_read_error_cb r)) ->
   fs = negb (callback_issued r || lent (fst (soup_transfer_read_error_cb r)))).
Proof.
  split.
  - apply read_again_frees.
  - apply soup_transfer_read_error_cb_frees.
Qed.

End ReaderOwnership.

Lemma receive_buffer_freed_unless_lent_witness :
  In (EvByteArrayFree true)
     (fst (Reader.soup_transfer_read_cb [ReadError] awaiting_body_reader)) /\
  In (EvByteArrayFree false)
     (fst (Reader.soup_transfer_read_error_cb short_body_reader)) /\
  (true = negb (Reader.callback_issued awaiting_body_reader ||
                lent (fst (Reader.soup_transfer_read_cb [ReadError]
                             awaiting_body_reader)))) /\
  (false = negb (Reader.callback_issued short_body_reader ||
                 lent (fst (Reader.soup_transfer_read_error_cb short_body_reader)))).
Proof.
  assert (H1 : In (EvByteArrayFree true)
     (fst (Reader.soup_transfer_read_cb [ReadError] awaiting_body_reader)))
    by (vm_compute; repeat (first [left; reflexivity | right])).
  assert (H2 : In (EvByteArrayFree false)
     (fst (Reader.soup_transfer_read_error_cb short_body_reader)))
    by (vm_compute; repeat (first [left; reflexivity | right])).
  split; [exact H1|]. split; [exact H2|]. split.
  - apply (proj1 (receive_buffer_freed_unless_lent [ReadError]
                    awaiting_body_reader true) H1).
  - apply (proj2 (receive_buffer_freed_unless_lent []
                    short_body_reader false) H2).
Defined.

(** ** Whole transfers *)

Lemma strncpy_whole (s rest : list ascii) :
  forallb (fun c => negb (Ascii.eqb c NUL)) s = true ->
  Reader.strncpy (s ++ rest) (List.length s) = s.
Proof.
  induction s as [|c s IH]; intros H; [destruct rest; reflexivity|].
  simpl in H. apply andb_prop in H as [Hc Hs].
  cbn [List.length app Reader.strncpy].
  replace (Ascii.eqb c NUL) with false by (symmetry; apply negb_true_iff; exact Hc).
  rewrite IH by exact Hs. reflexivity.
Qed.

Lemma arr_len_app (a b : list ascii) : arr_len (a ++ b) = arr_len a + arr_len b.
Proof. unfold arr_len. rewrite length_app. lia. Qed.

Lemma arr_len_nonneg (a : list ascii) : 0 <= arr_len a.
Proof. unfold arr_len. lia. Qed.

Lemma arr_len_pos (a : list ascii) : a <> [] -> 0 < arr_len a.
Proof. destruct a; [contradiction|]. intros _. unfold arr_len. simpl. lia. Qed.

Lemma firstn_arr_len (a rest : list ascii) :
  firstn (Z.to_nat (arr_len a)) (a ++ rest) = a.
Proof. apply firstn_prefix_exact. unfold arr_len. lia. Qed.

Lemma firstn_arr_len_self (a : list ascii) :
  firstn (Z.to_nat (arr_len a)) a = a.
Proof. unfold arr_len. rewrite Nat2Z.id. apply firstn_all. Qed.

Lemma remove_block_at_index_head (pre post : list ascii) :
  pre <> [] -> arr_len (pre ++ post) < 2 ^ 32 ->
  remove_block_at_index (pre ++ post) 0 (arr_len pre) = Done post.
Proof.
  intros Hpre Hlen.
  apply (remove_block_at_index_middle [] pre post); assumption.
Qed.

Lemma bind_of_outcome_done {A B : Type} (a : A) (k : A -> M B) :
  bind (of_outcome (Done a)) k = k a.
Proof. unfold of_outcome, bind. destruct (k a). reflexivity. Qed.

Lemma bind_lift_event {B : Type} (e : event) (k : unit -> M B) :
  bind (lift ([e], tt)) k = (e :: fst (k tt), snd (k tt)).
Proof. unfold lift, bind. cbn. destruct (k tt). reflexivity. Qed.

Lemma wire_chunked_sizes (bs : list (list ascii)) :
  arr_len (List.concat bs) < arr_len (wire_chunked bs).
Proof.
  induction bs as [|b bs IH]; [cbn; lia|].
  rewrite wire_chunked_cons. cbn [List.concat].
  rewrite !arr_len_app.
  pose proof (arr_len_nonneg (printf_x (arr_len b))).
  pose proof (arr_len_nonneg CRLF). lia.
Qed.

Section ReaderTransfers.

Import Reader Decoder.
Context {U : Type}.
Implicit Types r : SoupReader U.

(** [PROCESS_READ] on a buffer that holds the whole header block [hdr] and
    the bytes [body] after it: the headers-done callback sees [hdr], the
    block is taken out and the body step runs on [body]. *)
Lemma process_read_headers r cb (hdr body : list ascii) n enc clen u' :
  header_len r = 0 ->
  headers_done_cb r = Some cb ->
  recv_buf r = hdr ++ body ->
  soup_substring_index (hdr ++ body) (arr_len (hdr ++ body)) CRLFCRLF = arr_len hdr - 4 ->
  4 <= arr_len hdr ->
  forallb (fun c => negb (Ascii.eqb c NUL)) hdr = true ->
  arr_len (hdr ++ body) < 2 ^ 32 ->
  cb hdr (encoding r) (content_length r) (user_data r) =
    (SOUP_TRANSFER_CONTINUE, enc, clen, u') ->
  process_read r n =
    (x <~ lift ([EvReadHeadersDone hdr], tt) ;;
     process_body
       (set_header_len
          (set_recv_buf
             (UNIGNORE_CANCEL
                (set_user_data
                   (set_content_length (set_encoding (IGNORE_CANCEL r) enc) clen) u'))
             body)
          (arr_len hdr)) n).
Proof.
  intros Hh Hcb Hbuf Hidx H4 Hnul Hlen Hres.
  unfold process_read. rewrite Hh, Hbuf, Hidx, Hcb. cbn [Z.eqb].
  replace (arr_len hdr - 4 <? 0) with false by (symmetry; apply Z.ltb_ge; lia).
  replace (arr_len hdr - 4 + 4) with (arr_len hdr) by lia.
  change (recv_buf (IGNORE_CANCEL r)) with (recv_buf r).
  change (encoding (IGNORE_CANCEL r)) with (encoding r).
  change (content_length (IGNORE_CANCEL r)) with (content_length r).
  change (user_data (IGNORE_CANCEL r)) with (user_data r).
  rewrite ?Hbuf.
  replace (Z.to_nat (arr_len hdr)) with (List.length hdr) by (unfold arr_len; lia).
  rewrite strncpy_whole by exact Hnul. rewrite Hres.
  match goal with
  | |- context [remove_block_at_index ?a 0 (arr_len hdr)] =>
      change a with (recv_buf r)
  end.
  rewrite Hbuf, remove_block_at_index_head.
  - rewrite bind_of_outcome_done. reflexivity.
  - intros ->. cbn in H4. lia.
  - exact Hlen.
Qed.

(** X10.  A transfer with a declared content length whose headers and whole
    body arrive in one read: the headers-done callback gets the header
    block, the chunk callback the body, the done callback the body (an
    empty buffer in overwrite mode), and the reader is torn down without
    freeing the bytes it has lent. *)
Theorem content_length_transfer_in_one_read
    (ow : bool) hcb ccb dcb ecb (u u1 u2 : U) (ch rt et : Z)
    (hdr body : list ascii) (chan : list read_result)
    (Hidx : soup_substring_index (hdr ++ body) (arr_len (hdr ++ body)) CRLFCRLF =
            arr_len hdr - 4)
    (H4 : 4 <= arr_len hdr)
    (Hnul : forallb (fun c => negb (Ascii.eqb c NUL)) hdr = true)
    (Hbody : body <> [])
    (Hlen : arr_len (hdr ++ body) < 2 ^ 31)
    (Hhcb : hcb hdr SOUP_TRANSFER_UNKNOWN 0 u =
            (SOUP_TRANSFER_CONTINUE, SOUP_TRANSFER_CONTENT_LENGTH, arr_len body, u1))
    (Hccb : ccb (mkBuffer SOUP_BUFFER_SYSTEM_OWNED body (arr_len body)) u1 =
            (SOUP_TRANSFER_CONTINUE, u2)) :
  soup_transfer_read_cb (ReadOk (hdr ++ body) :: ReadAgain :: chan)
    (soup_transfer_read ch ow (Some hcb) (Some ccb) (Some dcb) ecb u rt et) =
  ([EvReadHeadersDone hdr;
    EvReadChunk (mkBuffer SOUP_BUFFER_SYSTEM_OWNED body (arr_len body));
    EvReadDone (mkBuffer SOUP_BUFFER_SYSTEM_OWNED
                  (if ow then [] else body) (if ow then 0 else arr_len body));
    EvSourceRemove rt; EvSourceRemove et; EvByteArrayFree false; EvFree],
   Done (mkExit false None, chan)).
Proof.
  pose proof (arr_len_pos body Hbody) as Hb.
  pose proof (arr_len_app hdr body) as Happ.
  unfold soup_transfer_read_cb, soup_transfer_read.
  cbn [read_again].
  replace (arr_len (hdr ++ body) =? 0) with false
    by (symmetry; apply Z.eqb_neq; lia).
  cbn [negb read_again set_recv_buf recv_buf app Z.add].
  rewrite (gint_wrap_small (arr_len (hdr ++ body))) by lia.
  replace (arr_len (hdr ++ body) =? 0) with false
    by (symmetry; apply Z.eqb_neq; lia).
  cbn [negb].
  rewrite (process_read_headers _ hcb hdr body _
             SOUP_TRANSFER_CONTENT_LENGTH (arr_len body) u1);
    try reflexivity; try assumption; try lia.
  rewrite bind_lift_event.
  unfold process_body, read_content_length, issue_chunk_callback,
    issue_final_callback, finish_read, soup_transfer_read_cancel.
  reader_fields.
  replace (arr_len (hdr ++ body) =? 0) with false
    by (symmetry; apply Z.eqb_neq; lia).
  replace (arr_len body =? 0) with false by (symmetry; apply Z.eqb_neq; lia).
  cbn [negb]. rewrite firstn_arr_len_self, Hccb.
  destruct ow.
  - cbn -[arr_len guint_wrap]. rewrite Z.sub_diag. cbn.
    reflexivity.
  - cbn -[arr_len]. rewrite Z.eqb_refl. cbn -[arr_len].
    rewrite arr_len_app.
    replace (arr_len body + arr_len [zero] - 1) with (arr_len body)
      by (unfold arr_len; simpl List.length; lia).
    rewrite firstn_arr_len. reflexivity.
Qed.

(** X11.  A chunked transfer whose headers and whole well-formed body
    arrive in one read: the chunk callback gets the decoded data, all the
    chunks joined, in one piece, the done callback gets the same data (an
    empty buffer in overwrite mode), and the reader is torn down. *)
Theorem chunked_transfer_in_one_read
    (ow : bool) hcb ccb dcb ecb (u u1 u2 : U) (ch rt et : Z)
    (hdr : list ascii) (bs : list (list ascii)) (chan : list read_result)
    (Hidx : soup_substring_index (hdr ++ wire_chunked bs)
              (arr_len (hdr ++ wire_chunked bs)) CRLFCRLF = arr_len hdr - 4)
    (H4 : 4 <= arr_len hdr)
    (Hnul : forallb (fun c => negb (Ascii.eqb c NUL)) hdr = true)
    (Hchunks : Forall (fun b => b <> []) bs)
    (Hsome : bs <> [])
    (Hlen : arr_len (hdr ++ wire_chunked bs) < 2 ^ 30)
    (Hhcb : hcb hdr SOUP_TRANSFER_UNKNOWN 0 u =
            (SOUP_TRANSFER_CONTINUE, SOUP_TRANSFER_CHUNKED, 0, u1))
    (Hccb : ccb (mkBuffer SOUP_BUFFER_SYSTEM_OWNED (List.concat bs)
                   (arr_len (List.concat bs))) u1 =
            (SOUP_TRANSFER_CONTINUE, u2)) :
  soup_transfer_read_cb (ReadOk (hdr ++ wire_chunked bs) :: ReadAgain :: chan)
    (soup_transfer_read ch ow (Some hcb) (Some ccb) (Some dcb) ecb u rt et) =
  ([EvReadHeadersDone hdr;
    EvReadChunk (mkBuffer SOUP_BUFFER_SYSTEM_OWNED (List.concat bs)
                   (arr_len (List.concat bs)));
    EvReadDone (mkBuffer SOUP_BUFFER_SYSTEM_OWNED
                  (if ow then [] else List.concat bs)
                  (if ow then 0 else arr_len (List.concat bs)));
    EvSourceRemove rt; EvSourceRemove et; EvByteArrayFree false; EvFree],
   Done (mkExit false None, chan)).
Proof.
  set (data := List.concat bs) in *.
  set (wire := wire_chunked bs) in *.
  pose proof (arr_len_app hdr wire) as Happ.
  pose proof (arr_len_nonneg wire) as Hw.
  assert (Hdata : 0 < arr_len data < 2 ^ 30).
  { subst data wire. destruct bs as [|b rest]; [contradiction|].
    inversion Hchunks as [|? ? Hb _]; subst.
    rewrite wire_chunked_cons in *. cbn [List.concat].
    pose proof (arr_len_pos b Hb).
    pose proof (wire_chunked_sizes rest).
    rewrite !arr_len_app in *. 
    pose proof (arr_len_nonneg (List.concat rest)).
    pose proof (arr_len_nonneg (printf_x (arr_len b))).
    pose proof (arr_len_nonneg CRLF). lia. }
  assert (Hdec : decode_chunk (mkChunkState 0 0) wire =
                 Done (mkDecoded (mkChunkState 0 (arr_len data)) data
                         (arr_len data) true)).
  { apply decode_chunk_wire_chunked; [exact Hchunks|fold wire; lia]. }
  unfold soup_transfer_read_cb, soup_transfer_read.
  cbn [read_again].
  replace (arr_len (hdr ++ wire) =? 0) with false
    by (symmetry; apply Z.eqb_neq; lia).
  cbn [negb read_again set_recv_buf recv_buf app Z.add].
  rewrite (gint_wrap_small (arr_len (hdr ++ wire))) by lia.
  replace (arr_len (hdr ++ wire) =? 0) with false
    by (symmetry; apply Z.eqb_neq; lia).
  cbn [negb].
  rewrite (process_read_headers _ hcb hdr wire _ SOUP_TRANSFER_CHUNKED 0 u1);
    try reflexivity; try assumption; try lia.
  rewrite bind_lift_event.
  unfold process_body, read_chunk, issue_chunk_callback,
    issue_final_callback, finish_read, soup_transfer_read_cancel.
  reader_fields.
  replace (arr_len (hdr ++ wire) =? 0) with false
    by (symmetry; apply Z.eqb_neq; lia).
  rewrite Hdec, bind_of_outcome_done.
  cbv [d_state d_arr d_datalen d_ret idx len].
  replace (arr_len data =? 0) with false by (symmetry; apply Z.eqb_neq; lia).
  rewrite (gint_wrap_small (arr_len data)) by lia.
  replace (arr_len data =? 0) with false by (symmetry; apply Z.eqb_neq; lia).
  cbn [negb]. rewrite firstn_arr_len_self, Hccb.
  destruct ow.
  - cbn [lift fst snd bind app].
    rewrite ?gint_wrap_small by lia.
    rewrite remove_block_at_index_all by lia.
    cbn. reflexivity.
  - cbn -[arr_len].
    rewrite arr_len_app.
    replace (arr_len data + arr_len [zero] - 1) with (arr_len data)
      by (unfold arr_len; simpl List.length; lia).
    rewrite firstn_arr_len. reflexivity.
Qed.

End ReaderTransfers.

Lemma content_length_transfer_in_one_read_witness :
  Reader.soup_transfer_read_cb
    [ReadOk (ok_header ++ bytes "hello"); ReadAgain] (fresh_reader 5) =
  ([EvReadHeadersDone ok_header;
    EvReadChunk (mkBuffer SOUP_BUFFER_SYSTEM_OWNED (bytes "hello") 5);
    EvReadDone (mkBuffer SOUP_BUFFER_SYSTEM_OWNED (bytes "hello") 5);
    EvSourceRemove 1; EvSourceRemove 2; EvByteArrayFree false; EvFree],
   Done (Reader.mkExit false None, [])).
Proof.
  apply (content_length_transfer_in_one_read false (declare_length 5)
           keep_reading (fun _ u => u) (Some (fun _ u => u)) tt tt tt 0 1 2
           ok_header (bytes "hello") []);
    try reflexivity; try discriminate; vm_compute; intros; discriminate.
Defined.

Lemma chunked_transfer_in_one_read_witness :
  Reader.soup_transfer_read_cb
    [ReadOk (ok_header ++ wire_chunked [bytes "hel"; bytes "lo"]); ReadAgain]
    (Reader.soup_transfer_read 0 true (Some declare_chunked)
       (Some keep_reading) (Some (fun _ u => u)) None tt 1 2) =
  ([EvReadHeadersDone ok_header;
    EvReadChunk (mkBuffer SOUP_BUFFER_SYSTEM_OWNED (bytes "hello") 5);
    EvReadDone (mkBuffer SOUP_BUFFER_SYSTEM_OWNED [] 0);
    EvSourceRemove 1; EvSourceRemove 2; EvByteArrayFree false; EvFree],
   Done (Reader.mkExit false None, [])).
Proof.
  apply (chunked_transfer_in_one_read true declare_chunked
           keep_reading (fun _ u => u) None tt tt tt 0 1 2
           ok_header [bytes "hel"; bytes "lo"] []);
    try reflexivity; try discriminate.
  repeat constructor; discriminate.
Defined.

(** ** A body that ends with the connection *)

Section ReaderCloseDelimited.

Import Reader Decoder.
Context {U : Type}.

(** X12.  A body whose length is not known ends when the peer hangs up:
    after the headers and the bytes [body] have come in one read the chunk
    callback has had the body and the reader waits for more; the hangup
    then makes the done callback, with the whole body (an empty buffer in
    overwrite mode), not the error callback, and tears the reader down. *)
Theorem close_delimited_transfer
    (ow : bool) hcb ccb dcb ecb (u u1 u2 : U) (ch rt et clen : Z)
    (hdr body : list ascii) (chan : list read_result)
    (Hidx : soup_substring_index (hdr ++ body) (arr_len (hdr ++ body)) CRLFCRLF =
            arr_len hdr - 4)
    (H4 : 4 <= arr_len hdr)
    (Hnul : forallb (fun c => negb (Ascii.eqb c NUL)) hdr = true)
    (Hbody : body <> [])
    (Hlen : arr_len (hdr ++ body) < 2 ^ 31)
    (Hhcb : hcb hdr SOUP_TRANSFER_UNKNOWN 0 u =
            (SOUP_TRANSFER_CONTINUE, SOUP_TRANSFER_UNKNOWN, clen, u1))
    (Hccb : ccb (mkBuffer SOUP_BUFFER_SYSTEM_OWNED body (arr_len body)) u1 =
            (SOUP_TRANSFER_CONTINUE, u2)) :
  let waiting :=
    mkReader ch rt et true false (if ow then [] else body) (arr_len hdr) ow
      SOUP_TRANSFER_UNKNOWN clen (mkChunkState 0 0)
      (Some hcb) (Some ccb) (Some dcb) ecb u2 in
  soup_transfer_read_cb (ReadOk (hdr ++ body) :: ReadAgain :: ReadAgain :: chan)
    (soup_transfer_read ch ow (Some hcb) (Some ccb) (Some dcb) ecb u rt et) =
  ([EvReadHeadersDone hdr;
    EvReadChunk (mkBuffer SOUP_BUFFER_SYSTEM_OWNED body (arr_len body))],
   Done (mkExit true (Some waiting), chan)) /\
  fst (soup_transfer_read_error_cb waiting) =
  [EvReadDone (mkBuffer SOUP_BUFFER_SYSTEM_OWNED
                 (if ow then [] else body) (if ow then 0 else arr_len body));
   EvSourceRemove rt; EvSourceRemove et; EvByteArrayFree false; EvFree] /\
  survivor (snd (soup_transfer_read_error_cb waiting)) = None.
Proof.
  pose proof (arr_len_pos body Hbody) as Hb.
  pose proof (arr_len_app hdr body) as Happ.
  cbv zeta. split.
  - unfold soup_transfer_read_cb, soup_transfer_read.
    cbn [read_again].
    replace (arr_len (hdr ++ body) =? 0) with false
      by (symmetry; apply Z.eqb_neq; lia).
    cbn [negb read_again set_recv_buf recv_buf app Z.add].
    rewrite (gint_wrap_small (arr_len (hdr ++ body))) by lia.
    replace (arr_len (hdr ++ body) =? 0) with false
      by (symmetry; apply Z.eqb_neq; lia).
    cbn [negb].
    rewrite (process_read_headers _ hcb hdr body _
               SOUP_TRANSFER_UNKNOWN clen u1);
      try reflexivity; try assumption; try lia.
    rewrite bind_lift_event.
    unfold process_body, read_unknown, issue_chunk_callback.
    reader_fields.
    replace (arr_len (hdr ++ body) =? 0) with false
      by (symmetry; apply Z.eqb_neq; lia).
    replace (arr_len body =? 0) with false by (symmetry; apply Z.eqb_neq; lia).
    cbn [negb]. rewrite firstn_arr_len_self, Hccb.
    destruct ow; cbn; reflexivity.
  - unfold soup_transfer_read_error_cb, issue_final_callback,
      soup_transfer_read_cancel.
    reader_fields. cbn [encoding_eqb].
    destruct ow.
    + cbn. split; reflexivity.
    + cbn -[arr_len]. rewrite arr_len_app.
      replace (arr_len body + arr_len [zero] - 1) with (arr_len body)
        by (unfold arr_len; simpl List.length; lia).
      rewrite firstn_arr_len. split; reflexivity.
Qed.

End ReaderCloseDelimited.

Lemma close_delimited_transfer_witness :
  let waiting :=
    Reader.mkReader 0 1 2 true false (bytes "hello") (arr_len ok_header) false
      SOUP_TRANSFER_UNKNOWN 0 (Decoder.mkChunkState 0 0)
      (Some declare_unknown) (Some keep_reading) (Some (fun _ u => u)) None tt in
  Reader.soup_transfer_read_cb
    [ReadOk (ok_header ++ bytes "hello"); ReadAgain; ReadAgain]
    (Reader.soup_transfer_read 0 false (Some declare_unknown)
       (Some keep_reading) (Some (fun _ u => u)) None tt 1 2) =
  ([EvReadHeadersDone ok_header;
    EvReadChunk (mkBuffer SOUP_BUFFER_SYSTEM_OWNED (bytes "hello")
                   (arr_len (bytes "hello")))],
   Done (Reader.mkExit true (Some waiting), [])) /\
  fst (Reader.soup_transfer_read_error_cb waiting) =
  [EvReadDone (mkBuffer SOUP_BUFFER_SYSTEM_OWNED (bytes "hello")
                 (arr_len (bytes "hello")));
   EvSourceRemove 1; EvSourceRemove 2; EvByteArrayFree false; EvFree] /\
  Reader.survivor (snd (Reader.soup_transfer_read_error_cb waiting)) = None.
Proof.
  apply (close_delimited_transfer false declare_unknown keep_reading
           (fun _ u => u) None tt tt tt 0 1 2 0 ok_header (bytes "hello") []);
    try reflexivity; try discriminate; vm_compute; intros; discriminate.
Defined.

(** ** A body with a declared length, in several reads *)

Section ReaderParts.

Import Reader Decoder.
Context {U : Type}.

Variable ccb : SoupReadChunkFn (U := U).
Hypothesis ccb_continues : forall b u, fst (ccb b u) = SOUP_TRANSFER_CONTINUE.

(** One read of a part that is not empty, by a reader past the headers. *)
Lemma content_length_part
    (ow ci : bool) hcb dcb ecb (u : U) (ch rt et hl cl rest : Z)
    (cs : SoupTransferChunkState) (acc p : list ascii) :
  p <> [] -> hl <> 0 -> 0 <= rest ->
  cl = arr_len acc + arr_len p + rest -> cl < 2 ^ 31 ->
  (ow = true -> acc = []) ->
  let buf := mkBuffer SOUP_BUFFER_SYSTEM_OWNED (acc ++ p) (arr_len (acc ++ p)) in
  let kept := if ow then [] else acc ++ p in
  soup_transfer_read_cb [ReadOk p; ReadAgain]
    (mkReader ch rt et ci false acc hl ow SOUP_TRANSFER_CONTENT_LENGTH cl cs
       hcb (Some ccb) (Some dcb) ecb u) =
  if rest =? 0 then
    ([EvReadChunk buf;
      EvReadDone (mkBuffer SOUP_BUFFER_SYSTEM_OWNED kept (arr_len kept));
      EvSourceRemove rt; EvSourceRemove et; EvByteArrayFree false; EvFree],
     Done (mkExit false None, []))
  else
    ([EvReadChunk buf],
     Done (mkExit true
             (Some (mkReader ch rt et true false kept hl ow
                      SOUP_TRANSFER_CONTENT_LENGTH (if ow then rest else cl) cs
                      hcb (Some ccb) (Some dcb) ecb (snd (ccb buf u)))), [])).
Proof.
  intros Hp Hhl Hrest Hcl Hbound How buf kept.
  pose proof (arr_len_pos p Hp) as Hppos.
  pose proof (arr_len_nonneg acc) as Hacc.
  pose proof (arr_len_app acc p) as Happ.
  unfold soup_transfer_read_cb. cbn [read_again].
  replace (arr_len p =? 0) with false by (symmetry; apply Z.eqb_neq; lia).
  cbn [negb read_again set_recv_buf recv_buf Z.add].
  rewrite (gint_wrap_small (arr_len p)) by lia.
  replace (arr_len p =? 0) with false by (symmetry; apply Z.eqb_neq; lia).
  cbn [negb].
  unfold process_read. reader_fields.
  replace (hl =? 0) with false by (symmetry; apply Z.eqb_neq; exact Hhl).
  unfold process_body, read_content_length, issue_chunk_callback,
    issue_final_callback, finish_read, soup_transfer_read_cancel.
  reader_fields.
  replace (arr_len p =? 0) with false by (symmetry; apply Z.eqb_neq; lia).
  replace (arr_len (acc ++ p) =? 0) with false by (symmetry; apply Z.eqb_neq; lia).
  cbn [negb]. rewrite firstn_arr_len_self. fold buf.
  pose proof (ccb_continues buf u) as Hc.
  destruct (ccb buf u) as [cont u'] eqn:Hccb. cbn [fst snd] in *. subst cont.
  destruct ow.
  - rewrite (How eq_refl) in *. cbn [app] in *. subst kept.
    change (arr_len []) with 0 in *.
    cbn -[arr_len guint_wrap Z.eqb].
    rewrite guint_wrap_small by lia.
    replace (cl - arr_len p) with rest by lia.
    destruct (rest =? 0) eqn:Hr; cbn; rewrite ?Hr; cbn; reflexivity.
  - subst kept. cbn -[arr_len Z.eqb].
    replace (cl =? arr_len (acc ++ p)) with (rest =? 0).
    2:{ destruct (rest =? 0) eqn:Hr; symmetry.
        - apply Z.eqb_eq in Hr. apply Z.eqb_eq. lia.
        - apply Z.eqb_neq in Hr. apply Z.eqb_neq. lia. }
    destruct (rest =? 0) eqn:Hr; cbn -[arr_len]; [|reflexivity].
    rewrite arr_len_app.
    replace (arr_len (acc ++ p) + arr_len [zero] - 1) with (arr_len (acc ++ p))
      by (unfold arr_len; simpl List.length; lia).
    rewrite firstn_arr_len. reflexivity.
Qed.

Lemma feed_content_length (parts : list (list ascii)) :
  forall (ow ci : bool) hcb dcb ecb (u : U) (ch rt et hl cl : Z)
         (cs : SoupTransferChunkState) (acc : list ascii),
    parts <> [] -> Forall (fun p => p <> []) parts ->
    hl <> 0 ->
    cl = arr_len acc + arr_len (List.concat parts) -> cl < 2 ^ 31 ->
    (ow = true -> acc = []) ->
    let all := if ow then [] else acc ++ List.concat parts in
    feed parts
      (mkReader ch rt et ci false acc hl ow SOUP_TRANSFER_CONTENT_LENGTH cl cs
         hcb (Some ccb) (Some dcb) ecb u) =
    (arrivals ow acc parts ++
     [EvReadDone (mkBuffer SOUP_BUFFER_SYSTEM_OWNED all (arr_len all));
      EvSourceRemove rt; EvSourceRemove et; EvByteArrayFree false; EvFree],
     None).
Proof.
  induction parts as [|p ps IH];
    intros ow ci hcb dcb ecb u ch rt et hl cl cs acc Hne Hall Hhl Hcl Hbound How all;
    [contradiction|].
  assert (Hp : p <> []) by (inversion Hall; assumption).
  assert (Hps : Forall (fun p => p <> []) ps) by (inversion Hall; assumption).
  cbn [List.concat] in Hcl. rewrite arr_len_app in Hcl.
  pose proof (arr_len_nonneg (List.concat ps)) as Hrest.
  cbn [feed arrivals].
  rewrite (content_length_part ow ci hcb dcb ecb u ch rt et hl cl
             (arr_len (List.concat ps)) cs acc p Hp Hhl Hrest
             ltac:(lia) Hbound How).
  destruct ps as [|q ps'].
  - cbn [List.concat] in *. change (arr_len []) with 0. cbn [Z.eqb].
    cbn [survivor keep_source arrivals app].
    subst all. rewrite app_nil_r. reflexivity.
  - assert (Hq : q <> []) by (inversion Hps; assumption).
    assert (Hpos : 0 < arr_len (List.concat (q :: ps'))).
    { cbn [List.concat]. rewrite arr_len_app.
      pose proof (arr_len_pos q Hq). pose proof (arr_len_nonneg (List.concat ps')). lia. }
    replace (arr_len (List.concat (q :: ps')) =? 0) with false
      by (symmetry; apply Z.eqb_neq; lia).
    cbn [survivor keep_source].
    rewrite (IH ow true hcb dcb ecb _ ch rt et hl
               (if ow then arr_len (List.concat (q :: ps')) else cl) cs
               (if ow then [] else acc ++ p)); try assumption; try discriminate.
    + cbn [app]. subst all. destruct ow.
      * reflexivity.
      * cbn [List.concat]. rewrite <- !app_assoc. reflexivity.
    + destruct ow.
      * change (arr_len []) with 0. lia.
      * rewrite arr_len_app. lia.
    + pose proof (arr_len_nonneg acc). pose proof (arr_len_nonneg p).
      destruct ow; lia.
    + intros ->. reflexivity.
Qed.

(** X13.  A body with a declared length is put together from any number of
    reads: a reader past the headers that is fed the body in parts, none
    empty, one readable event each, makes one chunk callback per part,
    handing it all the bytes received so far (in overwrite mode: the part
    alone), and with the last part, when the declared length is reached,
    the done callback with the whole body (in overwrite mode: an empty
    buffer) and the teardown. *)
Theorem content_length_body_in_parts
    (ow ci : bool) hcb dcb ecb (u : U) (ch rt et hl : Z)
    (cs : SoupTransferChunkState) (parts : list (list ascii))
    (Hparts : parts <> []) (Hnonempty : Forall (fun p => p <> []) parts)
    (Hheaders : hl <> 0)
    (Hsize : arr_len (List.concat parts) < 2 ^ 31) :
  let all := if ow then [] else List.concat parts in
  feed parts
    (mkReader ch rt et ci false [] hl ow SOUP_TRANSFER_CONTENT_LENGTH
       (arr_len (List.concat parts)) cs hcb (Some ccb) (Some dcb) ecb u) =
  (arrivals ow [] parts ++
   [EvReadDone (mkBuffer SOUP_BUFFER_SYSTEM_OWNED all (arr_len all));
    EvSourceRemove rt; EvSourceRemove et; EvByteArrayFree false; EvFree],
   None).
Proof.
  apply (feed_content_length parts ow ci hcb dcb ecb u ch rt et hl
           (arr_len (List.concat parts)) cs []); try assumption.
  - change (arr_len []) with 0. lia.
  - intros _. reflexivity.
Qed.

End ReaderParts.

Lemma content_length_body_in_parts_witness :
  feed [bytes "he"; bytes "l"; bytes "lo"] awaiting_body_reader =
  ([EvReadChunk (mkBuffer SOUP_BUFFER_SYSTEM_OWNED (bytes "he") 2);
    EvReadChunk (mkBuffer SOUP_BUFFER_SYSTEM_OWNED (bytes "hel") 3);
    EvReadChunk (mkBuffer SOUP_BUFFER_SYSTEM_OWNED (bytes "hello") 5);
    EvReadDone (mkBuffer SOUP_BUFFER_SYSTEM_OWNED (bytes "hello") 5);
    EvSourceRemove 1; EvSourceRemove 2; EvByteArrayFree false; EvFree],
   None).
Proof.
  apply (content_length_body_in_parts keep_reading (fun _ _ => eq_refl)
           false false (Some (declare_length 5)) (fun _ u => u)
           (Some (fun _ u => u)) tt 0 1 2 19 (Decoder.mkChunkState 0 0)
           [bytes "he"; bytes "l"; bytes "lo"]).
  - discriminate.
  - repeat constructor; discriminate.
  - discriminate.
  - vm_compute. reflexivity.
Defined.

(** ** A chunk callback that ends the transfer *)

Lemma no_chunk_split (t1 td pre post : list event) (b0 b : SoupDataBuffer) :
  no_chunk t1 -> no_chunk td ->
  t1 ++ EvReadChunk b0 :: td = pre ++ EvReadChunk b :: post ->
  pre = t1 /\ b = b0 /\ post = td.
Proof.
  intros H1 Htd. revert pre.
  induction t1 as [|e t1 IH]; intros pre Heq.
  - destruct pre as [|e' pre'].
    + cbn in Heq. inversion Heq; subst. auto.
    + cbn in Heq. inversion Heq as [[He Hrest]]. subst td.
      exfalso. apply Forall_app in Htd as [_ Htd]. inversion Htd as [|x l Hx _]; subst.
      apply (Hx b). reflexivity.
  - inversion H1 as [|x l He H1']; subst.
    destruct pre as [|e' pre'].
    + cbn in Heq. inversion Heq as [[He' Hrest]]. subst e.
      exfalso. apply (He b). reflexivity.
    + cbn in Heq. inversion Heq as [[He' Hrest]]. subst e'.
      destruct (IH H1' pre' Hrest) as (-> & -> & ->). auto.
Qed.

Lemma no_chunk_no_split (t pre post : list event) (b : SoupDataBuffer) :
  no_chunk t -> t <> pre ++ EvReadChunk b :: post.
Proof.
  intros H ->. apply Forall_app in H as [_ H]. inversion H as [|x l Hx _]; subst.
  apply (Hx b). reflexivity.
Qed.

Section ReaderEnd.

Import Reader Decoder.
Context {U : Type}.
Implicit Types r : SoupReader U.

Variable ccb : SoupReadChunkFn (U := U).
Hypothesis ccb_ends : forall b u, fst (ccb b u) = SOUP_TRANSFER_END.

Lemma lent_teardown_no_chunk r : no_chunk (lent_teardown r).
Proof. repeat constructor; discriminate. Qed.

Lemma issue_chunk_callback_end r data dlen c :
  read_chunk_cb r = Some ccb ->
  (issue_chunk_callback r data dlen c = ([], (r, c))) \/
  (exists b r', issue_chunk_callback r data dlen c = ([EvReadChunk b], (r', true)) /\
                stopped_at r r').
Proof.
  intros Hcb. unfold issue_chunk_callback. rewrite Hcb.
  destruct (dlen =? 0); cbn [negb]; [left; reflexivity|].
  right.
  match goal with |- context [ccb ?b ?u] =>
    pose proof (ccb_ends b u) as He; destruct (ccb b u) as [cont u'] end.
  cbn [fst] in He. subst cont.
  eexists _, _. split; [reflexivity|]. repeat split.
Qed.

Lemma read_content_length_end r :
  read_chunk_cb r = Some ccb ->
  (exists r' d, read_content_length r false = ([], (r', false, d)) /\ kept r r') \/
  (exists b r' d, read_content_length r false = ([EvReadChunk b], (r', true, d)) /\
                  stopped_at r r').
Proof.
  intros Hcb. unfold read_content_length.
  destruct (arr_len (recv_buf r) =? 0).
  { left. eexists _, _. split; [reflexivity|]. split; reflexivity. }
  destruct (issue_chunk_callback_end r (recv_buf r) (arr_len (recv_buf r)) false Hcb)
    as [->|(b & r' & -> & Hs)].
  - left. destruct (overwrite_chunks r);
      eexists _, _; (split; [reflexivity|]); split; reflexivity.
  - right. eexists _, _, _. split; [reflexivity|exact Hs].
Qed.

Lemma read_unknown_end r :
  read_chunk_cb r = Some ccb ->
  (exists r' d, read_unknown r false = ([], (r', false, d)) /\ kept r r') \/
  (exists b r' d, read_unknown r false = ([EvReadChunk b], (r', true, d)) /\
                  stopped_at r r').
Proof.
  intros Hcb. unfold read_unknown.
  destruct (arr_len (recv_buf r) =? 0).
  { left. eexists _, _. split; [reflexivity|]. split; reflexivity. }
  destruct (issue_chunk_callback_end r (recv_buf r) (arr_len (recv_buf r)) false Hcb)
    as [->|(b & r' & -> & Hs)].
  - left. destruct (overwrite_chunks r);
      eexists _, _; (split; [reflexivity|]); split; reflexivity.
  - right. eexists _, _, _. split; [reflexivity|exact Hs].
Qed.

Lemma read_chunk_end r :
  read_chunk_cb r = Some ccb ->
  (fst (read_chunk r false) = [] /\
   forall r' c' d, snd (read_chunk r false) = Done (r', c', d) ->
                   c' = false /\ kept r r') \/
  (exists b r' d, read_chunk r false = ([EvReadChunk b], Done (r', true, d)) /\
                  stopped_at r r').
Proof.
  intros Hcb. unfold read_chunk.
  destruct (decode_chunk (chunk_state r) (recv_buf r)) as [dec| |];
    cbn [of_outcome bind]; try (left; split; [reflexivity|discriminate]).
  destruct (d_datalen dec =? 0).
  { left. cbn. split; [reflexivity|]. intros r' c' d H. inversion H; subst.
    split; [reflexivity|]. split; reflexivity. }
  match goal with
  | |- context [issue_chunk_callback ?a ?b ?c ?d] =>
      destruct (issue_chunk_callback_end a b c d Hcb) as [->|(b0 & r1 & -> & Hs)]
  end.
  - left. cbn [lift bind fst snd app].
    match goal with |- context [overwrite_chunks ?x] => destruct (overwrite_chunks x) end.
    + match goal with
      | |- context [remove_block_at_index ?a ?b ?c] =>
          destruct (remove_block_at_index a b c) as [arr| |]
      end; cbn; (split; [reflexivity|]); try discriminate.
      intros r' c' d H. inversion H; subst. split; [reflexivity|]. split; reflexivity.
    + cbn. split; [reflexivity|]. intros r' c' d H. inversion H; subst.
      split; [reflexivity|]. split; reflexivity.
  - right. cbn. eexists _, _, _. split; [reflexivity|].
    destruct Hs as (Hp & Hi & Hid). repeat split; assumption.
Qed.

Lemma finish_read_stopped r r' :
  stopped_at r r' ->
  finish_read r' = (lent_teardown r, Done (Return (mkExit false None))).
Proof.
  intros (Hp & Hi & Hid). unfold finish_read, soup_transfer_read_cancel.
  rewrite Hp, Hi. unfold ids in Hid. injection Hid as -> ->. reflexivity.
Qed.

Lemma finish_read_no_chunk r :
  no_chunk (fst (finish_read r)) /\
  forall r', snd (finish_read r) <> Done (ReadMore r').
Proof.
  unfold finish_read, soup_transfer_read_cancel.
  destruct (processing r); cbn; split; try discriminate;
    repeat constructor; discriminate.
Qed.

Lemma issue_final_callback_no_chunk r :
  no_chunk (fst (issue_final_callback r)).
Proof.
  unfold issue_final_callback. cbn.
  destruct (read_done_cb r); cbn; repeat constructor; discriminate.
Qed.

(** The body of [PROCESS_READ]: no chunk callback, or one and the
    teardown. *)
Lemma process_body_end r n :
  read_chunk_cb r = Some ccb ->
  (no_chunk (fst (process_body r n)) /\
   forall r', snd (process_body r n) = Done (ReadMore r') -> kept r r') \/
  (exists b, process_body r n =
             (EvReadChunk b :: lent_teardown r, Done (Return (mkExit false None)))).
Proof.
  intros Hcb. unfold process_body.
  assert (Hstep :
    let m := (if n =? 0 then ret (r, false, true)
              else match encoding r with
                   | SOUP_TRANSFER_CHUNKED => read_chunk r false
                   | SOUP_TRANSFER_CONTENT_LENGTH => lift (read_content_length r false)
                   | SOUP_TRANSFER_UNKNOWN => lift (read_unknown r false)
                   end) in
    (fst m = [] /\
     forall r' c' d, snd m = Done (r', c', d) -> c' = false /\ kept r r') \/
    (exists b r' d, m = ([EvReadChunk b], Done (r', true, d)) /\ stopped_at r r')).
  { cbv zeta. destruct (n =? 0).
    { left. split; [reflexivity|]. intros r' c' d H. inversion H; subst.
      split; [reflexivity|]. split; reflexivity. }
    destruct (encoding r).
    - destruct (read_unknown_end r Hcb) as [(r' & d & -> & Hk)|(b & r' & d & -> & Hs)].
      + left. split; [reflexivity|]. intros r'' c' d' H. inversion H; subst. auto.
      + right. eexists _, _, _. split; [reflexivity|exact Hs].
    - apply read_chunk_end. exact Hcb.
    - destruct (read_content_length_end r Hcb)
        as [(r' & d & -> & Hk)|(b & r' & d & -> & Hs)].
      + left. split; [reflexivity|]. intros r'' c' d' H. inversion H; subst. auto.
      + right. eexists _, _, _. split; [reflexivity|exact Hs]. }
  cbv zeta in Hstep.
  destruct Hstep as [[Ht Hk]|(b & r' & d & -> & Hs)].
  - match type of Ht with fst ?m = [] => destruct m as [t [[[r1 c1] d1]| |]] end;
      cbn [fst snd] in *; subst t; cbn [bind];
      try (left; split; [constructor|discriminate]).
    destruct (Hk r1 c1 d1 eq_refl) as [-> Hkept].
    destruct d1; cbn [negb].
    + left.
      pose proof (issue_final_callback_no_chunk r1) as Hf.
      destruct (issue_final_callback r1) as [t2 r2]. cbn [lift bind fst snd] in *.
      pose proof (finish_read_no_chunk r2) as [Hn Hm].
      destruct (finish_read r2) as [t3 o3]. cbn [fst snd app] in *.
      split; [apply Forall_app; split; assumption|].
      intros r'' H. exfalso. apply (Hm r''). exact H.
    + left. cbn. split; [constructor|].
      intros r'' H. inversion H; subst. exact Hkept.
  - right. exists b. cbn [bind].
    rewrite (finish_read_stopped r r' Hs). reflexivity.
Qed.

Lemma process_read_end r n :
  read_chunk_cb r = Some ccb ->
  (no_chunk (fst (process_read r n)) /\
   forall r', snd (process_read r n) = Done (ReadMore r') -> kept r r') \/
  (exists t1 b, no_chunk t1 /\
     process_read r n =
     (t1 ++ EvReadChunk b :: lent_teardown r, Done (Return (mkExit false None)))).
Proof.
  intros Hcb. unfold process_read.
  destruct (header_len r =? 0).
  - set (index := soup_substring_index (recv_buf r) (arr_len (recv_buf r)) CRLFCRLF).
    destruct (index <? 0).
    { left. cbn. split; [constructor|discriminate]. }
    assert (Hbody : forall (r1 : SoupReader U) arr (t0 : list event),
              kept r r1 -> no_chunk t0 ->
              let r2 := set_header_len (set_recv_buf r1 arr) (index + 4 ) in
              let m := process_body r2 n in
              (no_chunk (t0 ++ fst m) /\
               forall r', snd m = Done (ReadMore r') -> kept r r') \/
              (exists t1 b, no_chunk t1 /\
                 (t0 ++ fst m, snd m) =
                 (t1 ++ EvReadChunk b :: lent_teardown r,
                  Done (Return (mkExit false None))))).
    { intros r1 arr t0 [Hid Hc1] Ht0 r2 m.
      assert (Hcb2 : read_chunk_cb r2 = Some ccb) by (cbn; congruence).
      destruct (process_body_end r2 n Hcb2) as [[Hn Hk]|(b & Heq)].
      - left. split; [apply Forall_app; split; assumption|].
        intros r' H. destruct (Hk r' H) as [Hid' Hc'].
        split; [rewrite Hid'; exact Hid|rewrite Hc'; exact Hc1].
      - right. exists t0, b. split; [exact Ht0|].
        subst m. rewrite Heq. subst r2. cbn [fst snd].
        unfold lent_teardown. unfold ids in Hid. injection Hid as Hr He.
        cbn [read_tag err_tag set_header_len set_recv_buf]. rewrite Hr, He.
        reflexivity. }
    destruct (headers_done_cb r) as [cb|].
    + destruct (cb _ _ _ _) as [[[res enc] clen] u].
      cbn [lift bind fst snd app].
      destruct res.
      * left.
        match goal with
        | |- context [finish_read ?x] =>
            pose proof (finish_read_no_chunk x) as [Hn Hm];
            destruct (finish_read x) as [t2 o2]
        end.
        cbn [fst snd] in *. split.
        -- constructor; [discriminate|exact Hn].
        -- intros r' H. exfalso. apply (Hm r'). exact H.
      * match goal with
        | |- context [remove_block_at_index ?a ?b ?c] =>
            destruct (remove_block_at_index a b c) as [arr| |]
        end; cbn [of_outcome bind fst snd app];
          try (left; split; [repeat constructor; discriminate|discriminate]).
        match goal with
        | |- context [process_body (set_header_len (set_recv_buf ?r1 arr) _) n] =>
            destruct (Hbody r1 arr [EvReadHeadersDone
                        (strncpy (recv_buf (IGNORE_CANCEL r)) (Z.to_nat (index + 4)))]
                        (conj eq_refl eq_refl)
                        ltac:(repeat constructor; discriminate))
              as [[Hn Hk]|(t1 & b & Ht1 & Heq)];
            destruct (process_body (set_header_len (set_recv_buf r1 arr) (index + 4)) n)
              as [t2 o2]
        end; cbn [fst snd app] in *.
        -- left. split; [exact Hn|exact Hk].
        -- right. exists t1, b. split; [exact Ht1|]. exact Heq.
    + match goal with
      | |- context [remove_block_at_index ?a ?b ?c] =>
          destruct (remove_block_at_index a b c) as [arr| |]
      end; cbn [of_outcome bind fst snd app];
        try (left; split; [repeat constructor; discriminate|discriminate]).
      destruct (Hbody r arr [] (conj eq_refl eq_refl) ltac:(constructor))
        as [[Hn Hk]|(t1 & b & Ht1 & Heq)];
        destruct (process_body (set_header_len (set_recv_buf r arr) (index + 4)) n)
          as [t2 o2]; cbn [fst snd app] in *.
      * left. split; [exact Hn|exact Hk].
      * right. exists t1, b. split; [exact Ht1|exact Heq].
  - destruct (process_body_end r n Hcb) as [H|(b & Heq)].
    + left. exact H.
    + right. exists [], b. split; [constructor|exact Heq].
Qed.

Lemma soup_transfer_read_error_cb_no_chunk r :
  no_chunk (fst (soup_transfer_read_error_cb r)).
Proof.
  unfold soup_transfer_read_error_cb.
  destruct (encoding_eqb _ _).
  - pose proof (issue_final_callback_no_chunk r) as Hf.
    destruct (issue_final_callback r) as [t1 r1]. cbn [fst snd] in *.
    unfold soup_transfer_read_cancel. destruct (processing r1); cbn [fst];
      apply Forall_app; split; try exact Hf; repeat constructor; discriminate.
  - destruct (error_cb (IGNORE_CANCEL r)) as [cb|];
      unfold soup_transfer_read_cancel;
      match goal with |- context [processing ?x] => destruct (processing x) end;
      cbn; repeat constructor; discriminate.
Qed.

Lemma read_again_end (chan : list read_result) :
  forall r n, read_chunk_cb r = Some ccb ->
  no_chunk (fst (read_again chan r n)) \/
  (exists t1 b chan', no_chunk t1 /\
     read_again chan r n =
     (t1 ++ EvReadChunk b :: lent_teardown r, Done (mkExit false None, chan'))).
Proof.
  induction chan as [|a chan IH]; intros r n Hcb.
  - cbn [read_again]. destruct (n =? 0); cbn [negb]; [left; constructor|].
    destruct (process_read_end r n Hcb) as [[Hn Hk]|(t1 & b & Ht1 & Heq)].
    + left. destruct (process_read r n) as [t [s| |]]; cbn [fst snd bind] in *;
        try exact Hn.
      destruct s as [e|r']; cbn; rewrite app_nil_r; exact Hn.
    + right. exists t1, b, []. split; [exact Ht1|].
      rewrite Heq. cbn. rewrite app_nil_r. reflexivity.
  - assert (Hproc :
      let m := (x <~ process_read r n ;;
                after x chan (fun c r' => read_again c r' 0)) in
      no_chunk (fst m) \/
      (exists t1 b chan', no_chunk t1 /\
         m = (t1 ++ EvReadChunk b :: lent_teardown r,
              Done (mkExit false None, chan')))).
    { cbv zeta.
      destruct (process_read_end r n Hcb) as [[Hn Hk]|(t1 & b & Ht1 & Heq)].
      - destruct (process_read r n) as [t [s| |]]; cbn [fst snd bind] in *;
          try (left; exact Hn).
        destruct s as [e|r']; cbn [after].
        + left. cbn. rewrite app_nil_r. exact Hn.
        + destruct (Hk r' eq_refl) as [Hid Hc].
          assert (Hcb' : read_chunk_cb r' = Some ccb) by congruence.
          destruct (IH r' 0 Hcb') as [Hn2|(t1 & b & chan' & Ht1 & Heq)].
          * left. destruct (read_again chan r' 0) as [t2 o2]. cbn [fst] in *.
            apply Forall_app. split; assumption.
          * right. rewrite Heq. exists (t ++ t1), b, chan'.
            split; [apply Forall_app; split; assumption|].
            rewrite <- app_assoc. unfold lent_teardown.
            unfold ids in Hid. injection Hid as -> ->. reflexivity.
      - right. rewrite Heq. exists t1, b, chan. split; [exact Ht1|].
        cbn. rewrite app_nil_r. reflexivity. }
    cbv zeta in Hproc.
    destruct a as [data| |]; cbn [read_again].
    + destruct (arr_len data =? 0); cbn [negb]; [exact Hproc|].
      destruct (IH (set_recv_buf r (recv_buf r ++ data))
                  (gint_wrap (n + arr_len data)) Hcb) as [H|H]; [left; exact H|].
      right. exact H.
    + destruct (n =? 0); cbn [negb]; [left; constructor|exact Hproc].
    + destruct (n =? 0); cbn [negb]; [|exact Hproc].
      left. cbn. rewrite app_nil_r. apply soup_transfer_read_error_cb_no_chunk.
Qed.

(** X14.  A chunk callback that answers [SOUP_TRANSFER_END] stops the
    transfer: on any channel, what follows the first chunk callback of a
    run of the read handler is the teardown of the reader and nothing
    else (no further chunk, no done and no error callback, the lent bytes
    are not freed), and the handler returns [FALSE] with the reader
    gone. *)
Theorem chunk_callback_end_stops_transfer
    (chan : list read_result) r (pre post : list event) (b : SoupDataBuffer)
    (Hcb : read_chunk_cb r = Some ccb)
    (Hsplit : fst (soup_transfer_read_cb chan r) = pre ++ EvReadChunk b :: post) :
  post = lent_teardown r /\
  no_chunk pre /\
  exists chan', snd (soup_transfer_read_cb chan r) = Done (mkExit false None, chan').
Proof.
  unfold soup_transfer_read_cb in *.
  destruct (read_again_end chan r 0 Hcb) as [Hn|(t1 & b0 & chan' & Ht1 & Heq)].
  - exfalso. exact (no_chunk_no_split _ pre post b Hn Hsplit).
  - rewrite Heq in Hsplit |- *. cbn [fst snd] in *.
    destruct (no_chunk_split t1 (lent_teardown r) pre post b0 b Ht1
                (lent_teardown_no_chunk r) Hsplit) as (-> & -> & ->).
    split; [reflexivity|]. split; [exact Ht1|]. exists chan'. reflexivity.
Qed.

End ReaderEnd.

Lemma chunk_callback_end_stops_transfer_witness :
  [EvSourceRemove 1; EvSourceRemove 2; EvByteArrayFree false; EvFree] =
    lent_teardown stopping_reader /\
  no_chunk [EvReadHeadersDone ok_header] /\
  exists chan',
    snd (Reader.soup_transfer_read_cb
           [ReadOk (ok_header ++ bytes "hello"); ReadAgain; ReadOk (bytes "world")]
           stopping_reader) =
    Done (Reader.mkExit false None, chan').
Proof.
  apply (chunk_callback_end_stops_transfer stop_reading
           (fun _ _ => eq_refl)
           [ReadOk (ok_header ++ bytes "hello"); ReadAgain; ReadOk (bytes "world")]
           stopping_reader
           [EvReadHeadersDone ok_header]
           [EvSourceRemove 1; EvSourceRemove 2; EvByteArrayFree false; EvFree]
           (mkBuffer SOUP_BUFFER_SYSTEM_OWNED (bytes "hello") 5)
           eq_refl).
  vm_compute. reflexivity.
Defined.

(** ** The handler returns when the body is not chunked *)

Section ReaderReturns.

Import Reader Decoder.
Context {U : Type}.
Implicit Types r : SoupReader U.

Lemma issue_chunk_callback_unchunked r data dlen c :
  unchunked r -> unchunked (fst (snd (issue_chunk_callback r data dlen c))).
Proof.
  intros H. unfold issue_chunk_callback.
  destruct (read_chunk_cb r) as [cb|]; [|exact H].
  destruct (dlen =? 0); cbn [negb]; [exact H|].
  destruct (cb _ _) as [cont u]. exact H.
Qed.

Lemma read_content_length_unchunked r c :
  unchunked r -> unchunked (fst (fst (snd (read_content_length r c)))).
Proof.
  intros H. unfold read_content_length.
  destruct (arr_len (recv_buf r) =? 0); [exact H|].
  pose proof (issue_chunk_callback_unchunked r (recv_buf r)
                (arr_len (recv_buf r)) c H) as H'.
  destruct (issue_chunk_callback _ _ _ _) as [t [r' c']]. cbn [fst snd] in *.
  destruct c'; [exact H'|].
  destruct (overwrite_chunks r'); exact H'.
Qed.

Lemma read_unknown_unchunked r c :
  unchunked r -> unchunked (fst (fst (snd (read_unknown r c)))).
Proof.
  intros H. unfold read_unknown.
  destruct (arr_len (recv_buf r) =? 0); [exact H|].
  pose proof (issue_chunk_callback_unchunked r (recv_buf r)
                (arr_len (recv_buf r)) c H) as H'.
  destruct (issue_chunk_callback _ _ _ _) as [t [r' c']]. cbn [fst snd] in *.
  destruct c'; [exact H'|].
  destruct (overwrite_chunks r'); exact H'.
Qed.

Lemma finish_read_returns r :
  exists t e, finish_read r = (t, Done (Return e)).
Proof.
  unfold finish_read. destruct (soup_transfer_read_cancel r) as [t o].
  eexists _, _. reflexivity.
Qed.

Lemma process_body_returns r n :
  unchunked r ->
  exists t nx, process_body r n = (t, Done nx) /\
               (forall r', nx = ReadMore r' -> unchunked r').
Proof.
  intros H. unfold process_body.
  assert (Hstep : exists t r1 c1 d1,
            (if n =? 0 then ret (r, false, true)
             else match encoding r with
                  | SOUP_TRANSFER_CHUNKED => read_chunk r false
                  | SOUP_TRANSFER_CONTENT_LENGTH => lift (read_content_length r false)
                  | SOUP_TRANSFER_UNKNOWN => lift (read_unknown r false)
                  end) = (t, Done (r1, c1, d1)) /\ unchunked r1).
  { destruct (n =? 0); [eexists _, _, _, _; split; [reflexivity|exact H]|].
    destruct (encoding r) eqn:Henc.
    - pose proof (read_unknown_unchunked r false H) as H'.
      destruct (read_unknown r false) as [t [[r1 c1] d1]].
      eexists _, _, _, _. split; [reflexivity|exact H'].
    - exfalso. destruct H as [H _]. apply H. exact Henc.
    - pose proof (read_content_length_unchunked r false H) as H'.
      destruct (read_content_length r false) as [t [[r1 c1] d1]].
      eexists _, _, _, _. split; [reflexivity|exact H']. }
  destruct Hstep as (t & r1 & c1 & d1 & -> & H1).
  cbn [bind].
  destruct c1.
  { destruct (finish_read_returns r1) as (t2 & e & ->).
    eexists _, _. split; [reflexivity|]. intros r' Hr. discriminate. }
  destruct d1; cbn [negb].
  - destruct (issue_final_callback r1) as [t2 r2]. cbn [lift bind fst snd].
    destruct (finish_read_returns r2) as (t3 & e & ->).
    eexists _, _. split; [reflexivity|]. intros r' Hr. discriminate.
  - cbn. eexists _, _. split; [reflexivity|].
    intros r' Hr. inversion Hr; subst. exact H1.
Qed.

(** The header block found lies inside the buffer. *)
Lemma header_block_inside (buf : list ascii) :
  0 <= soup_substring_index buf (arr_len buf) CRLFCRLF ->
  0 < soup_substring_index buf (arr_len buf) CRLFCRLF + 4 <= arr_len buf.
Proof.
  unfold soup_substring_index.
  destruct (substring_scan_first CRLFCRLF buf
              (Z.to_nat (arr_len buf - Z.of_nat (List.length CRLFCRLF) + 1)) 0
              ltac:(discriminate))
    as [[-> _]|(k & Hk & -> & _)]; [lia|].
  intros _. change (Z.of_nat (List.length CRLFCRLF)) with 4 in Hk. lia.
Qed.

Lemma process_read_returns r n :
  unchunked r ->
  exists t nx, process_read r n = (t, Done nx) /\
               (forall r', nx = ReadMore r' -> unchunked r').
Proof.
  intros H. unfold process_read.
  destruct (header_len r =? 0); [|apply process_body_returns; exact H].
  set (index := soup_substring_index (recv_buf r) (arr_len (recv_buf r)) CRLFCRLF).
  destruct (index <? 0) eqn:Hneg.
  { eexists _, _. split; [reflexivity|]. intros r' Hr. discriminate. }
  apply Z.ltb_ge in Hneg.
  pose proof (header_block_inside (recv_buf r) Hneg) as Hin. fold index in Hin.
  destruct H as [Henc Hcb].
  destruct (headers_done_cb r) as [cb|] eqn:Hh.
  - pose proof (Hcb cb eq_refl
                  (strncpy (recv_buf (IGNORE_CANCEL r)) (Z.to_nat (index + 4)))
                  (encoding (IGNORE_CANCEL r)) (content_length (IGNORE_CANCEL r))
                  (user_data (IGNORE_CANCEL r))) as Hdecl.
    destruct (cb _ _ _ _) as [[[res enc] clen] u]. cbn [fst snd] in Hdecl.
    cbn [lift bind fst snd app].
    destruct res.
    + match goal with
      | |- context [finish_read ?x] =>
          destruct (finish_read_returns x) as (t2 & e & ->)
      end.
      eexists _, _. split; [reflexivity|]. intros r' Hr. discriminate.
    + match goal with
      | |- context [remove_block_at_index ?a 0 _] => change a with (recv_buf r)
      end.
      rewrite remove_block_at_index_front by exact Hin.
      cbn [of_outcome bind app].
      match goal with
      | |- context [process_body ?x n] =>
          destruct (process_body_returns x n) as (t2 & nx & -> & Hnx)
      end.
      { split; [exact Hdecl|]. cbn. rewrite Hh. exact Hcb. }
      eexists _, _. split; [reflexivity|exact Hnx].
  - rewrite remove_block_at_index_front by exact Hin.
    cbn [of_outcome bind app].
    match goal with
    | |- context [process_body ?x n] =>
        destruct (process_body_returns x n) as (t2 & nx & -> & Hnx)
    end.
    { split; [exact Henc|]. cbn. rewrite Hh. exact Hcb. }
    eexists _, _. split; [reflexivity|exact Hnx].
Qed.

Lemma read_again_returns (chan : list read_result) :
  forall r n, unchunked r ->
  exists t e chan', read_again chan r n = (t, Done (e, chan')).
Proof.
  induction chan as [|a chan IH]; intros r n H.
  - cbn [read_again]. destruct (n =? 0); cbn [negb];
      [eexists _, _, _; reflexivity|].
    destruct (process_read_returns r n H) as (t & nx & -> & Hnx).
    destruct nx as [e|r']; cbn; eexists _, _, _; reflexivity.
  - assert (Hproc : exists t e chan',
              (x <~ process_read r n ;;
               after x chan (fun c r' => read_again c r' 0)) =
              (t, Done (e, chan'))).
    { destruct (process_read_returns r n H) as (t & nx & -> & Hnx).
      destruct nx as [e|r']; cbn [bind after].
      - cbn. eexists _, _, _. reflexivity.
      - destruct (IH r' 0 (Hnx r' eq_refl)) as (t2 & e & chan' & ->).
        eexists _, _, _. reflexivity. }
    destruct a as [data| |]; cbn [read_again].
    + destruct (arr_len data =? 0); cbn [negb]; [exact Hproc|].
      apply IH. exact H.
    + destruct (n =? 0); cbn [negb]; [eexists _, _, _; reflexivity|exact Hproc].
    + destruct (n =? 0); cbn [negb]; [|exact Hproc].
      destruct (soup_transfer_read_error_cb r) as [t e]. cbn.
      eexists _, _, _. reflexivity.
Qed.

(** X15.  Only a chunked body can stop the read handler on an assertion:
    a reader whose encoding is not chunked and whose headers-done callback
    never declares a chunked body returns from [soup_transfer_read_cb] on
    any channel, whatever the peer sends and however the reads split
    it. *)
Theorem read_handler_returns_unless_chunked
    (chan : list read_result) r (Hr : unchunked r) :
  exists e chan', snd (soup_transfer_read_cb chan r) = Done (e, chan').
Proof.
  destruct (read_again_returns chan r 0 Hr) as (t & e & chan' & Hrun).
  exists e, chan'. unfold soup_transfer_read_cb. rewrite Hrun. reflexivity.
Qed.

End ReaderReturns.

Lemma read_handler_returns_unless_chunked_witness :
  exists e chan',
    snd (Reader.soup_transfer_read_cb
           [ReadOk (ok_header ++ bytes "he"); ReadAgain; ReadOk (bytes "llo")]
           (fresh_reader 5)) = Done (e, chan').
Proof.
  apply (read_handler_returns_unless_chunked
           [ReadOk (ok_header ++ bytes "he"); ReadAgain; ReadOk (bytes "llo")]
           (fresh_reader 5)).
  split; [discriminate|].
  intros cb Hcb s e l u. inversion Hcb; subst. cbn. discriminate.
Defined.

(** * Further properties of the writer *)

(** ** The writer's staging buffer *)

Lemma wire_app (t1 t2 : list event) : wire (t1 ++ t2) = wire t1 ++ wire t2.
Proof. unfold wire. apply flat_map_app. Qed.

Section WriterDrain.

Import Writer.
Context {U : Type}.
Implicit Types w : SoupWriter U.

Lemma soup_transfer_write_cancel_wire w :
  wire (fst (soup_transfer_write_cancel w)) = [] /\
  (forall w', snd (soup_transfer_write_cancel w) = Some w' -> w' = w).
Proof.
  unfold soup_transfer_write_cancel. destruct (processing w); cbn.
  - split; [reflexivity|]. intros w' H. inversion H. reflexivity.
  - split; [reflexivity|]. intros w' H. discriminate.
Qed.

Lemma complete_wire w :
  exists t o, complete w = (t, Completed (mkExit false o)) /\
              wire t = [] /\
              (forall w', o = Some w' -> write_buf w' = write_buf w).
Proof.
  unfold complete.
  destruct (write_done_cb w) as [cb|].
  - destruct (soup_transfer_write_cancel _) as [t2 o] eqn:Hc.
    exists ([EvWriteDone] ++ t2), o. split; [reflexivity|].
    pose proof (soup_transfer_write_cancel_wire
                  (UNIGNORE_CANCEL
                     (set_user_data (IGNORE_CANCEL w)
                        (cb (user_data (IGNORE_CANCEL w)))))) as [Hw Hs].
    rewrite Hc in Hw, Hs. cbn [fst snd] in Hw, Hs.
    split; [rewrite wire_app, Hw; reflexivity|].
    intros w' ->. rewrite (Hs w' eq_refl). reflexivity.
  - destruct (soup_transfer_write_cancel w) as [t2 o] eqn:Hc.
    exists ([] ++ t2), o. split; [reflexivity|].
    pose proof (soup_transfer_write_cancel_wire w) as [Hw Hs].
    rewrite Hc in Hw, Hs. cbn [fst snd] in Hw, Hs.
    split; [exact Hw|].
    intros w' ->. rewrite (Hs w' eq_refl). reflexivity.
Qed.

Lemma soup_transfer_write_error_cb_wire w :
  exists t o, soup_transfer_write_error_cb w = (t, mkExit false o) /\
              wire t = [] /\
              (forall w', o = Some w' -> write_buf w' = write_buf w).
Proof.
  unfold soup_transfer_write_error_cb.
  destruct (error_cb w) as [cb|].
  - destruct (soup_transfer_write_cancel _) as [t2 o] eqn:Hc.
    eexists _, o. split; [reflexivity|].
    match type of Hc with soup_transfer_write_cancel ?x = _ =>
      pose proof (soup_transfer_write_cancel_wire x) as [Hw Hs] end.
    rewrite Hc in Hw, Hs. cbn [fst snd] in Hw, Hs.
    split; [rewrite wire_app, Hw; reflexivity|].
    intros w' ->. rewrite (Hs w' eq_refl). reflexivity.
  - destruct (soup_transfer_write_cancel w) as [t2 o] eqn:Hc.
    eexists _, o. split; [reflexivity|].
    pose proof (soup_transfer_write_cancel_wire w) as [Hw Hs].
    rewrite Hc in Hw, Hs. cbn [fst snd] in Hw, Hs.
    split; [exact Hw|].
    intros w' ->. rewrite (Hs w' eq_refl). reflexivity.
Qed.

(** A writer with no producer, on any channel: the handler returns, the
    bytes the channel took followed by the bytes still staged are the bytes
    staged at the start, and when the writer is gone and the channel never
    failed nothing was left. *)
Lemma write_again_drains (chan : list write_result) :
  forall w, write_chunk_cb w = None ->
  exists t e chan' rest,
    write_again chan w = (t, Done (e, chan')) /\
    write_buf w = wire t ++ rest /\
    (forall w', survivor e = Some w' -> write_buf w' = rest) /\
    (survivor e = None -> ~ In WriteError chan -> rest = []).
Proof.
  induction chan as [|a chan IH]; intros w Hcb.
  - cbn [write_again]. unfold refill. rewrite Hcb.
    destruct (arr_len (write_buf w) =? 0) eqn:Hz; cbn [negb].
    + destruct (complete_wire w) as (t & o & Hc & Hw & Hs).
      rewrite Hc. cbn.
      exists (t ++ []), (mkExit false o), [], (write_buf w).
      split; [reflexivity|]. rewrite app_nil_r, Hw.
      split; [reflexivity|]. split; [exact Hs|].
      intros _ _. apply Z.eqb_eq in Hz. unfold arr_len in Hz.
      destruct (write_buf w); [reflexivity|simpl in Hz; lia].
    + cbn. exists [], (mkExit true (Some w)), [], (write_buf w).
      split; [reflexivity|]. split; [reflexivity|].
      split; [intros w' H; inversion H; reflexivity|intros H; discriminate].
  - cbn [write_again]. unfold refill. rewrite Hcb.
    destruct (arr_len (write_buf w) =? 0) eqn:Hz; cbn [negb].
    + destruct (complete_wire w) as (t & o & Hc & Hw & Hs).
      rewrite Hc. cbn.
      exists (t ++ []), (mkExit false o), (a :: chan), (write_buf w).
      split; [reflexivity|]. rewrite app_nil_r, Hw.
      split; [reflexivity|]. split; [exact Hs|].
      intros _ _. apply Z.eqb_eq in Hz. unfold arr_len in Hz.
      destruct (write_buf w); [reflexivity|simpl in Hz; lia].
    + apply Z.eqb_neq in Hz.
      cbn [lift fst snd bind app].
      destruct a as [room| |].
      * unfold write_once.
        set (bw := Z.max 0 (Z.min room (arr_len (write_buf w)))).
        destruct (bw =? 0) eqn:Hbw.
        { cbn. exists [], (mkExit true (Some w)), chan, (write_buf w).
          split; [reflexivity|]. split; [reflexivity|].
          split; [intros w' H; inversion H; reflexivity|intros H; discriminate]. }
        apply Z.eqb_neq in Hbw.
        assert (Hrange : 0 < bw <= arr_len (write_buf w)) by (subst bw; lia).
        set (w1 := if negb (headers_done w) && (header_len w <=? guint_wrap bw)
                   then match headers_done_cb w with
                        | Some cb =>
                            set_headers_done
                              (UNIGNORE_CANCEL
                                 (set_user_data (IGNORE_CANCEL w)
                                    (cb (user_data (IGNORE_CANCEL w))))) true
                        | None => set_headers_done w true
                        end
                   else w).
        assert (Hw1 : write_buf w1 = write_buf w /\ write_chunk_cb w1 = None).
        { subst w1. destruct (negb (headers_done w) && _); [|auto].
          destruct (headers_done_cb w); auto. }
        destruct Hw1 as [Hbuf1 Hcb1].
        destruct (IH (set_write_buf w1 (skipn (Z.to_nat bw) (write_buf w))) Hcb1)
          as (t & e & chan' & rest & Hrun & Hsplit & Hsurv & Hgone).
        cbn [write_buf set_write_buf] in Hsplit.
        exists ((EvChannelWrite (firstn (Z.to_nat bw) (write_buf w)) ::
                 (if negb (headers_done w) && (header_len w <=? guint_wrap bw)
                  then match headers_done_cb w with
                       | Some _ => [EvWriteHeadersDone]
                       | None => []
                       end
                  else [])) ++ t), e, chan', rest.
        split.
        { subst w1.
          destruct (negb (headers_done w) && (header_len w <=? guint_wrap bw)).
          - destruct (headers_done_cb w) as [cb|];
              cbn [lift fst snd bind ret of_outcome app];
              match goal with
              | |- context [remove_block_at_index ?b 0 bw] =>
                  change b with (write_buf w)
              end;
              rewrite remove_block_at_index_front by exact Hrange;
              cbn [bind app]; rewrite Hrun; reflexivity.
          - cbn [lift fst snd bind ret of_outcome app].
            rewrite remove_block_at_index_front by exact Hrange.
            cbn [bind app]. rewrite Hrun. reflexivity. }
        split.
        { rewrite wire_app.
          assert (Hhd : wire (EvChannelWrite (firstn (Z.to_nat bw) (write_buf w)) ::
                 (if negb (headers_done w) && (header_len w <=? guint_wrap bw)
                  then match headers_done_cb w with
                       | Some _ => [EvWriteHeadersDone]
                       | None => []
                       end
                  else [])) = firstn (Z.to_nat bw) (write_buf w)).
          { destruct (negb (headers_done w) && _); [destruct (headers_done_cb w)|];
              cbn; rewrite ?app_nil_r; reflexivity. }
          rewrite Hhd, <- app_assoc, <- Hsplit. symmetry. apply firstn_skipn. }
        split; [exact Hsurv|].
        intros Hn Hin. apply Hgone; [exact Hn|].
        intros Hc. apply Hin. right. exact Hc.
      * cbn. exists [], (mkExit true (Some w)), chan, (write_buf w).
        split; [reflexivity|]. split; [reflexivity|].
        split; [intros w' H; inversion H; reflexivity|intros H; discriminate].
      * unfold write_once.
        destruct (soup_transfer_write_error_cb_wire w) as (t & o & He & Hw & Hs).
        rewrite He. cbn.
        exists ((t ++ []) ++ []), (mkExit false o), chan, (write_buf w).
        split; [reflexivity|]. rewrite !app_nil_r, Hw.
        split; [reflexivity|]. split; [exact Hs|].
        intros _ Hin. exfalso. apply Hin. left. reflexivity.
Qed.

(** X16.  A writer that has no producer never loses or reorders a byte: on
    any channel the handler returns, what the channel took followed by what
    is still staged is what was staged when the handler was entered, and a
    writer torn down on a channel that never failed had written it all. *)
Theorem writer_drains_staged_bytes
    (chan : list write_result) w (Hcb : write_chunk_cb w = None) :
  exists e chan' rest,
    snd (soup_transfer_write_cb chan w) = Done (e, chan') /\
    write_buf w = wire (fst (soup_transfer_write_cb chan w)) ++ rest /\
    (forall w', survivor e = Some w' -> write_buf w' = rest) /\
    (survivor e = None -> ~ In WriteError chan -> rest = []).
Proof.
  destruct (write_again_drains chan w Hcb) as (t & e & chan' & rest & Hrun & H).
  exists e, chan', rest. unfold soup_transfer_write_cb. rewrite Hrun.
  split; [reflexivity|exact H].
Qed.

End WriterDrain.

Lemma writer_drains_staged_bytes_witness :
  exists e chan' rest,
    snd (Writer.soup_transfer_write_cb [WriteOk 3; WriteAgain] header_writer) =
      Done (e, chan') /\
    Writer.write_buf header_writer =
      wire (fst (Writer.soup_transfer_write_cb [WriteOk 3; WriteAgain] header_writer))
      ++ rest /\
    (forall w', Writer.survivor e = Some w' -> Writer.write_buf w' = rest) /\
    (Writer.survivor e = None -> ~ In WriteError [WriteOk 3; WriteAgain] -> rest = []).
Proof.
  apply (writer_drains_staged_bytes [WriteOk 3; WriteAgain] header_writer).
  reflexivity.
Defined.

(** ** The writer's headers-done callback *)

Lemma headers_done_calls_app (t1 t2 : list event) :
  headers_done_calls (t1 ++ t2) =
  (headers_done_calls t1 + headers_done_calls t2)%nat.
Proof. unfold headers_done_calls. rewrite filter_app, length_app. reflexivity. Qed.

Section WriterHeaders.

Import Writer.
Context {U : Type}.
Implicit Types w : SoupWriter U.

Lemma soup_transfer_write_cancel_quiet w :
  headers_done_calls (fst (soup_transfer_write_cancel w)) = 0%nat /\
  (forall w', snd (soup_transfer_write_cancel w) = Some w' -> w' = w).
Proof.
  unfold soup_transfer_write_cancel. destruct (processing w); cbn.
  - split; [reflexivity|]. intros w' H. inversion H. reflexivity.
  - split; [reflexivity|]. intros w' H. discriminate.
Qed.

Lemma complete_quiet w :
  exists t o, complete w = (t, Completed (mkExit false o)) /\
    headers_done_calls t = 0%nat /\
    (forall w', o = Some w' -> headers_done w' = headers_done w).
Proof.
  unfold complete.
  destruct (write_done_cb w) as [cb|].
  - destruct (soup_transfer_write_cancel _) as [t2 o] eqn:Hc.
    eexists _, o. split; [reflexivity|].
    match type of Hc with soup_transfer_write_cancel ?x = _ =>
      pose proof (soup_transfer_write_cancel_quiet x) as [Hw Hs] end.
    rewrite Hc in Hw, Hs. cbn [fst snd] in Hw, Hs.
    split; [rewrite headers_done_calls_app, Hw; reflexivity|].
    intros w' ->. rewrite (Hs w' eq_refl). reflexivity.
  - destruct (soup_transfer_write_cancel w) as [t2 o] eqn:Hc.
    eexists _, o. split; [reflexivity|].
    pose proof (soup_transfer_write_cancel_quiet w) as [Hw Hs].
    rewrite Hc in Hw, Hs. cbn [fst snd] in Hw, Hs.
    split; [exact Hw|].
    intros w' ->. rewrite (Hs w' eq_refl). reflexivity.
Qed.

Lemma soup_transfer_write_error_cb_quiet w :
  exists t o, soup_transfer_write_error_cb w = (t, mkExit false o) /\
    headers_done_calls t = 0%nat /\
    (forall w', o = Some w' -> headers_done w' = headers_done w).
Proof.
  unfold soup_transfer_write_error_cb.
  destruct (error_cb w) as [cb|].
  - destruct (soup_transfer_write_cancel _) as [t2 o] eqn:Hc.
    eexists _, o. split; [reflexivity|].
    match type of Hc with soup_transfer_write_cancel ?x = _ =>
      pose proof (soup_transfer_write_cancel_quiet x) as [Hw Hs] end.
    rewrite Hc in Hw, Hs. cbn [fst snd] in Hw, Hs.
    split; [rewrite headers_done_calls_app, Hw; reflexivity|].
    intros w' ->. rewrite (Hs w' eq_refl). reflexivity.
  - destruct (soup_transfer_write_cancel w) as [t2 o] eqn:Hc.
    eexists _, o. split; [reflexivity|].
    pose proof (soup_transfer_write_cancel_quiet w) as [Hw Hs].
    rewrite Hc in Hw, Hs. cbn [fst snd] in Hw, Hs.
    split; [exact Hw|].
    intros w' ->. rewrite (Hs w' eq_refl). reflexivity.
Qed.

Lemma write_chunk_headers_done w (b : SoupDataBuffer) :
  headers_done (write_chunk w b) = headers_done w.
Proof.
  unfold write_chunk. destruct (encoding_eqb _ _); reflexivity.
Qed.

(** The refill makes no headers-done callback and leaves the flag alone. *)
Lemma refill_quiet w :
  headers_done_calls (fst (refill w)) = 0%nat /\
  match snd (refill w) with
  | Filled w' | Waiting w' => headers_done w' = headers_done w
  | Completed e => forall w', survivor e = Some w' -> headers_done w' = headers_done w
  end.
Proof.
  unfold refill.
  destruct (negb (arr_len (write_buf w) =? 0)); [cbn; auto|].
  destruct (write_chunk_cb w) as [cb|].
  - destruct (cb (user_data (IGNORE_CANCEL w))) as [[buf res] u].
    set (w1 := UNIGNORE_CANCEL (set_user_data (IGNORE_CANCEL w) u)).
    assert (H1 : headers_done w1 = headers_done w) by reflexivity.
    assert (Hend :
      match res with
      | SOUP_TRANSFER_CONTINUE =>
          headers_done_calls (fst ([EvWriteChunk], Waiting w1)) = 0%nat /\
          headers_done w1 = headers_done w
      | SOUP_TRANSFER_END =>
          let w2 := if encoding_eqb (encoding w1) SOUP_TRANSFER_CHUNKED
                    then set_write_buf w1 (write_chunk_sep (write_buf w1) 0 (chunk_cnt w1))
                    else w1 in
          headers_done_calls (fst (let '(t, x) := complete w2 in ([EvWriteChunk] ++ t, x)))
            = 0%nat /\
          match snd (let '(t, x) := complete w2 in ([EvWriteChunk] ++ t, x)) with
          | Filled w' | Waiting w' => headers_done w' = headers_done w
          | Completed e =>
              forall w', survivor e = Some w' -> headers_done w' = headers_done w
          end
      end).
    { destruct res; [|split; [reflexivity|exact H1]].
      cbv zeta.
      match goal with |- context [complete ?x] =>
        destruct (complete_quiet x) as (t & o & Hc & Hq & Hs);
        assert (Hx : headers_done x = headers_done w)
          by (destruct (encoding_eqb _ _); reflexivity)
      end.
      rewrite Hc. cbn [fst snd survivor].
      split; [rewrite headers_done_calls_app, Hq; reflexivity|].
      intros w' Ho. rewrite (Hs w' Ho). exact Hx. }
    destruct buf as [b|].
    + unfold has_data. destruct (negb (length b =? 0)).
      * cbn [fst snd]. split; [reflexivity|].
        rewrite write_chunk_headers_done. exact H1.
      * destruct res; exact Hend.
    + cbn [has_data]. destruct res; exact Hend.
  - destruct (complete_quiet w) as (t & o & Hc & Hq & Hs).
    rewrite Hc. cbn [fst snd survivor]. split; [exact Hq|exact Hs].
Qed.

(** One write: at most the one callback that is due, and then the flag is
    set. *)
Lemma write_once_headers w (a : write_result) :
  (headers_done_calls (fst (write_once w a)) <= headers_done_due w)%nat /\
  (forall y, snd (write_once w a) = Done y ->
     match y with
     | inl w' =>
         (headers_done w = true \/
          (0 < headers_done_calls (fst (write_once w a)))%nat) ->
         headers_done w' = true
     | inr e =>
         forall w', survivor e = Some w' ->
         (headers_done w = true \/
          (0 < headers_done_calls (fst (write_once w a)))%nat) ->
         headers_done w' = true
     end).
Proof.
  unfold headers_done_due. destruct a as [room| |].
  - unfold write_once.
    set (bw := Z.max 0 (Z.min room (arr_len (write_buf w)))).
    destruct (bw =? 0) eqn:Hbw.
    { cbn. split; [lia|]. intros y H. inversion H; subst.
      intros w' Hw' [Hd|Hd]; [inversion Hw'; subst; exact Hd|inversion Hd]. }
    apply Z.eqb_neq in Hbw.
    assert (Hrange : 0 < bw <= arr_len (write_buf w)) by (subst bw; lia).
    destruct (headers_done w) eqn:Hhd; cbn [negb andb].
    + cbn [lift fst snd bind ret of_outcome app].
      rewrite remove_block_at_index_front by exact Hrange.
      cbn. split; [lia|]. intros y H. inversion H; subst.
      intros _. cbn. exact Hhd.
    + destruct (header_len w <=? guint_wrap bw).
      * destruct (headers_done_cb w) as [cb|];
          cbn [lift fst snd bind ret of_outcome app];
          match goal with
          | |- context [remove_block_at_index ?b 0 bw] =>
              change b with (write_buf w)
          end;
          rewrite remove_block_at_index_front by exact Hrange;
          cbn; (split; [lia|]); intros y H; inversion H; subst;
          intros _; reflexivity.
      * cbn [lift fst snd bind ret of_outcome app].
        rewrite remove_block_at_index_front by exact Hrange.
        cbn. split; [lia|]. intros y H. inversion H; subst.
        intros [Hd|Hd]; [discriminate|inversion Hd].
  - cbn. split; [lia|]. intros y H. inversion H; subst.
    intros w' Hw' [Hd|Hd]; [inversion Hw'; subst; exact Hd|inversion Hd].
  - unfold write_once.
    destruct (soup_transfer_write_error_cb_quiet w) as (t & o & He & Hq & Hs).
    rewrite He. cbn [lift bind fst snd ret]. rewrite app_nil_r, Hq.
    split; [lia|].
    intros y H. inversion H; subst. cbn [survivor].
    intros w' Hw' [Hd|Hd]; [rewrite (Hs w' Hw'); exact Hd|inversion Hd].
Qed.

Lemma write_again_headers (chan : list write_result) :
  forall w,
    (headers_done_calls (fst (write_again chan w)) <= headers_done_due w)%nat /\
    (forall e chan' w',
       snd (write_again chan w) = Done (e, chan') ->
       survivor e = Some w' ->
       (headers_done w = true \/
        (0 < headers_done_calls (fst (write_again chan w)))%nat) ->
       headers_done w' = true).
Proof.
  induction chan as [|a chan IH]; intros w.
  - cbn [write_again].
    pose proof (refill_quiet w) as [Hq Hx].
    destruct (refill w) as [t x]. cbn [fst snd] in Hq, Hx.
    destruct x as [w1|w1|e1]; cbn [lift bind fst snd ret]; rewrite app_nil_r, Hq.
    + split; [lia|]. intros e chan' w' H Hs [Hd|Hd]; [|inversion Hd].
      inversion H; subst. inversion Hs; subst. rewrite Hx. exact Hd.
    + split; [lia|]. intros e chan' w' H Hs [Hd|Hd]; [|inversion Hd].
      inversion H; subst. inversion Hs; subst. rewrite Hx. exact Hd.
    + split; [lia|]. intros e chan' w' H Hs [Hd|Hd]; [|inversion Hd].
      inversion H; subst. rewrite (Hx w' Hs). exact Hd.
  - cbn [write_again].
    pose proof (refill_quiet w) as [Hq Hx].
    destruct (refill w) as [t x]. cbn [fst snd] in Hq, Hx.
    destruct x as [w1|w1|e1].
    + cbn [lift fst snd bind].
      pose proof (write_once_headers w1 a) as [Hb Hy].
      destruct (write_once w1 a) as [t1 [y| |]]; cbn [fst snd bind] in *;
        try (rewrite headers_done_calls_app, Hq; unfold headers_done_due in *;
             rewrite <- Hx; split; [cbn; lia|intros; discriminate]).
      specialize (Hy y eq_refl).
      destruct y as [w2|e2].
      * pose proof (IH w2) as [Hb2 Hs2].
        destruct (write_again chan w2) as [t2 o2]. cbn [fst snd] in *.
        rewrite !headers_done_calls_app, Hq. cbn [Nat.add].
        unfold headers_done_due in *. rewrite Hx in Hb, Hy.
        split.
        { destruct (headers_done w) eqn:Hhd.
          - rewrite Hy in Hb2 by (left; reflexivity). lia.
          - destruct (headers_done_calls t1) as [|n] eqn:Hn.
            + destruct (headers_done w2); lia.
            + rewrite Hy in Hb2 by (right; lia). lia. }
        intros e chan' w' H Hs Hor.
        apply (Hs2 e chan' w' H Hs).
        destruct Hor as [Hd|Hd]; [left; apply Hy; left; exact Hd|].
        destruct (headers_done_calls t1) as [|n] eqn:Hn.
        { right. lia. }
        left. apply Hy. right. lia.
      * cbn [lift bind fst snd ret].
        rewrite ?app_nil_r, !headers_done_calls_app, Hq. cbn [Nat.add].
        unfold headers_done_due in *. rewrite Hx in Hb, Hy.
        split; [lia|].
        intros e chan' w' H Hs Hor. inversion H; subst.
        apply (Hy w' Hs). exact Hor.
    + cbn [lift bind fst snd ret]. rewrite app_nil_r, Hq.
      split; [lia|]. intros e chan' w' H Hs [Hd|Hd]; [|inversion Hd].
      inversion H; subst. inversion Hs; subst. rewrite Hx. exact Hd.
    + cbn [lift bind fst snd ret]. rewrite app_nil_r, Hq.
      split; [lia|]. intros e chan' w' H Hs [Hd|Hd]; [|inversion Hd].
      inversion H; subst. rewrite (Hx w' Hs). exact Hd.
Qed.

(** X17.  The headers-done callback of a writer is made at most once: a run
    of the write handler makes it at most once, and not at all when the
    flag [headers_done] is set; and a writer that survives a run in which
    the callback was made, or that had the flag set, has the flag set. *)
Theorem write_headers_done_at_most_once (chan : list write_result) w :
  (headers_done_calls (fst (soup_transfer_write_cb chan w)) <=
   (if headers_done w then 0 else 1))%nat /\
  (forall e chan' w',
     snd (soup_transfer_write_cb chan w) = Done (e, chan') ->
     survivor e = Some w' ->
     (headers_done w = true \/
      (0 < headers_done_calls (fst (soup_transfer_write_cb chan w)))%nat) ->
     headers_done w' = true).
Proof.
  exact (write_again_headers chan w).
Qed.

End WriterHeaders.

Lemma write_headers_done_at_most_once_witness :
  (headers_done_calls
     (fst (Writer.soup_transfer_write_cb [WriteOk 4; WriteAgain] message_writer))
   <= 1)%nat /\
  match snd (Writer.soup_transfer_write_cb [WriteOk 4; WriteAgain] message_writer) with
  | Done (e, _) =>
      option_map Writer.headers_done (Writer.survivor e) = Some true
  | _ => False
  end.
Proof.
  pose proof (write_headers_done_at_most_once [WriteOk 4; WriteAgain]
                message_writer) as [H1 H2].
  split; [exact H1|].
  destruct (snd (Writer.soup_transfer_write_cb [WriteOk 4; WriteAgain]
                   message_writer)) as [[e c]| |] eqn:Hrun;
    try (vm_compute in Hrun; discriminate).
  destruct (Writer.survivor e) as [w'|] eqn:Hs.
  - cbn [option_map]. f_equal. apply (H2 e c w' eq_refl Hs).
    right. vm_compute. lia.
  - vm_compute in Hrun. inversion Hrun; subst. discriminate.
Defined.

(** ** A whole message in one write *)

Section WriterMessage.

Import Writer.
Context {U : Type}.

(** X18.  A message that is not chunked, staged by [soup_transfer_write]
    from a header block and a body, on a channel whose first write takes
    it whole: the channel gets the header block followed by the body, then
    the headers-done and the done callbacks are made, in this order, and the
    writer is torn down; the rest of the channel is not touched. *)
Theorem message_written_in_one_write
    (enc : SoupTransferEncoding) (hcb : SoupWriteHeadersDoneFn (U := U))
    (dcb : SoupWriteDoneFn (U := U)) ecb (u : U) (ch wt et : Z)
    (own : SoupOwnership) (h b : list ascii) (room : Z)
    (chan : list write_result)
    (Henc : enc <> SOUP_TRANSFER_CHUNKED)
    (Hh : h <> [])
    (Hroom : arr_len (h ++ b) <= room)
    (Hlen : arr_len (h ++ b) < 2 ^ 32) :
  soup_transfer_write_cb (WriteOk room :: chan)
    (snd (soup_transfer_write ch (Some h) (Some (mkBuffer own b (arr_len b)))
            enc (Some hcb) None (Some dcb) ecb u wt et)) =
  ([EvChannelWrite (h ++ b); EvWriteHeadersDone; EvWriteDone;
    EvSourceRemove wt; EvSourceRemove et; EvByteArrayFree true; EvFree],
   Done (mkExit false None, chan)).
Proof.
  pose proof (arr_len_pos h Hh) as Hhpos.
  pose proof (arr_len_nonneg b) as Hbpos.
  pose proof (arr_len_app h b) as Happ.
  assert (Hstage :
    snd (soup_transfer_write ch (Some h) (Some (mkBuffer own b (arr_len b)))
           enc (Some hcb) None (Some dcb) ecb u wt et) =
    mkWriter ch wt et false enc (h ++ b) (arr_len h) false 0
      (Some hcb) None (Some dcb) ecb u).
  { unfold soup_transfer_write.
    replace (arr_len h =? 0) with false by (symmetry; apply Z.eqb_neq; lia).
    cbn [negb length]. unfold write_chunk.
    assert (Hne : encoding_eqb enc SOUP_TRANSFER_CHUNKED = false)
      by (destruct enc; [reflexivity|exfalso; apply Henc; reflexivity|reflexivity]).
    destruct (arr_len b =? 0) eqn:Hb0; cbn [negb].
    - apply Z.eqb_eq in Hb0. unfold arr_len in Hb0.
      destruct b; [|simpl in Hb0; lia].
      cbn. rewrite app_nil_r. reflexivity.
    - cbn [encoding set_header_len set_write_buf]. rewrite Hne.
      cbn. rewrite firstn_arr_len_self. reflexivity. }
  rewrite Hstage.
  unfold soup_transfer_write_cb. cbn [write_again].
  unfold refill at 1. cbn [write_buf].
  replace (arr_len (h ++ b) =? 0) with false by (symmetry; apply Z.eqb_neq; lia).
  cbn [negb lift fst snd bind app].
  unfold write_once. cbn [write_buf].
  replace (Z.max 0 (Z.min room (arr_len (h ++ b)))) with (arr_len (h ++ b)) by lia.
  replace (arr_len (h ++ b) =? 0) with false by (symmetry; apply Z.eqb_neq; lia).
  cbn [headers_done negb andb header_len].
  rewrite guint_wrap_small by lia.
  replace (arr_len h <=? arr_len (h ++ b)) with true
    by (symmetry; apply Z.leb_le; lia).
  cbn [headers_done_cb lift fst snd bind ret of_outcome app].
  match goal with
  | |- context [remove_block_at_index ?x 0 _] => change x with (h ++ b)
  end.
  rewrite remove_block_at_index_all by lia.
  rewrite firstn_arr_len_self.
  destruct chan; cbn; reflexivity.
Qed.

End WriterMessage.

Lemma message_written_in_one_write_witness :
  Writer.soup_transfer_write_cb [WriteOk 64; WriteError] message_writer =
  ([EvChannelWrite (bytes "ABCDhello"); EvWriteHeadersDone; EvWriteDone;
    EvSourceRemove 1; EvSourceRemove 2; EvByteArrayFree true; EvFree],
   Done (Writer.mkExit false None, [WriteError])).
Proof.
  apply (message_written_in_one_write SOUP_TRANSFER_CONTENT_LENGTH
           (fun u => u) (fun u => u) None tt 0 1 2 SOUP_BUFFER_USER_OWNED
           (bytes "ABCD") (bytes "hello") 64 [WriteError]);
    [discriminate|discriminate|vm_compute; discriminate|reflexivity].
Defined.

(** ** A body handed over by a producer *)

Section WriterProducer.

Import Writer.

Variable enc : SoupTransferEncoding.
Hypothesis enc_plain : enc <> SOUP_TRANSFER_CHUNKED.
Variable room : Z.

Lemma encoding_eqb_plain : encoding_eqb enc SOUP_TRANSFER_CHUNKED = false.
Proof.
  destruct enc; [reflexivity|exfalso; apply enc_plain; reflexivity|reflexivity].
Qed.

(** The writer has written all it had staged; the producer still holds
    [rest]. *)
Lemma write_again_produces
    (dcb : SoupWriteDoneFn (U := list (list ascii))) ecb (ch wt et hl cnt : Z)
    (chan : list write_result) (rest : list (list ascii)) :
  Forall (fun b => b <> [] /\ arr_len b <= room) rest ->
  exists t0,
    write_again (repeat (WriteOk room) (List.length rest) ++ chan)
      (mkWriter ch wt et false enc [] hl true cnt None (Some chunk_producer)
         (Some dcb) ecb rest) =
    (t0 ++ [EvWriteDone; EvSourceRemove wt; EvSourceRemove et;
            EvByteArrayFree true; EvFree],
     Done (mkExit false None, chan)) /\
    wire t0 = List.concat rest.
Proof.
  pose proof encoding_eqb_plain as Henc.
  induction rest as [|b rest IH]; intros Hfits.
  - exists [EvWriteChunk]. split; [|reflexivity].
    cbn [repeat List.length app].
    destruct chan; cbn [write_again]; unfold refill; cbn -[encoding_eqb];
      rewrite Henc; cbn; reflexivity.
  - inversion Hfits as [|? ? [Hb Hroom] Hrest]; subst.
    destruct (IH Hrest) as (t0 & Hrun & Hwire).
    pose proof (arr_len_pos b Hb) as Hpos.
    exists (EvWriteChunk :: EvChannelWrite b :: t0).
    split; [|unfold wire in *; cbn [flat_map app List.concat];
             rewrite Hwire; reflexivity].
    cbn [repeat List.length app write_again].
    unfold refill, write_chunk. writer_fields.
    change (arr_len [] =? 0) with true. cbn [negb chunk_producer].
    cbn [has_data length body].
    replace (arr_len b =? 0) with false by (symmetry; apply Z.eqb_neq; lia).
    cbn [negb lift fst snd bind app]. rewrite Henc. writer_fields.
    cbn [app]. rewrite firstn_arr_len_self.
    unfold write_once. writer_fields.
    replace (Z.max 0 (Z.min room (arr_len b))) with (arr_len b) by lia.
    replace (arr_len b =? 0) with false by (symmetry; apply Z.eqb_neq; lia).
    cbn [negb andb lift fst snd bind ret app].
    rewrite firstn_arr_len_self.
    rewrite remove_block_at_index_front by lia.
    cbn [of_outcome bind ret app].
    replace (skipn (Z.to_nat (arr_len b)) b) with (@nil ascii)
      by (unfold arr_len; rewrite Nat2Z.id, skipn_all; reflexivity).
    rewrite Hrun. reflexivity.
Qed.

(** X19.  A body that is not chunked and comes from a producer goes out
    whole and in order: the writer [soup_transfer_write] makes from a
    header block and a producer of the buffers [bs], on a channel that
    takes each write whole, puts the header block and then the buffers on
    the channel, one write for the header block with the first buffer and
    one for each further buffer, and only then makes the done callback and
    is torn down. *)
Theorem produced_body_on_the_wire
    (dcb : SoupWriteDoneFn (U := list (list ascii))) ecb (ch wt et : Z)
    (h b : list ascii) (bs : list (list ascii)) (chan : list write_result)
    (Hfirst : b <> [] /\ arr_len (h ++ b) <= room)
    (Hfits : Forall (fun b => b <> [] /\ arr_len b <= room) bs)
    (Hguint : arr_len (h ++ b) < 2 ^ 32) :
  exists t0,
    soup_transfer_write_cb
      (repeat (WriteOk room) (S (List.length bs)) ++ chan)
      (snd (soup_transfer_write ch (Some h) None enc None (Some chunk_producer)
              (Some dcb) ecb (b :: bs) wt et)) =
    (t0 ++ [EvWriteDone; EvSourceRemove wt; EvSourceRemove et;
            EvByteArrayFree true; EvFree],
     Done (mkExit false None, chan)) /\
    wire t0 = h ++ b ++ List.concat bs.
Proof.
  pose proof encoding_eqb_plain as Henc.
  destruct Hfirst as [Hb Hroom].
  pose proof (arr_len_pos b Hb) as Hpos.
  pose proof (arr_len_nonneg h) as Hh.
  pose proof (arr_len_app h b) as Happ.
  assert (Hstage :
    snd (soup_transfer_write ch (Some h) None enc None (Some chunk_producer)
           (Some dcb) ecb (b :: bs) wt et) =
    mkWriter ch wt et false enc (h ++ b) (arr_len h) false 0
      None (Some chunk_producer) (Some dcb) ecb bs).
  { unfold soup_transfer_write, write_chunk. writer_fields.
    cbn [chunk_producer length body].
    replace (arr_len b =? 0) with false by (symmetry; apply Z.eqb_neq; lia).
    cbn [negb].
    destruct (arr_len h =? 0) eqn:Hh0; cbn [negb]; writer_fields; rewrite Henc;
      cbn [snd app]; rewrite firstn_arr_len_self; [|reflexivity].
    apply Z.eqb_eq in Hh0. unfold arr_len in Hh0.
    destruct h; [reflexivity|simpl in Hh0; lia]. }
  rewrite Hstage.
  destruct (write_again_produces dcb ecb ch wt et (arr_len h) 0 chan bs Hfits)
    as (t0 & Hrun & Hwire).
  exists (EvChannelWrite (h ++ b) :: t0).
  split; [|unfold wire in *; cbn [flat_map app];
           rewrite Hwire, <- app_assoc; reflexivity].
  unfold soup_transfer_write_cb. cbn [repeat app write_again].
  unfold refill. writer_fields.
  replace (arr_len (h ++ b) =? 0) with false by (symmetry; apply Z.eqb_neq; lia).
  cbn [negb lift fst snd bind app].
  unfold write_once. writer_fields.
  replace (Z.max 0 (Z.min room (arr_len (h ++ b)))) with (arr_len (h ++ b)) by lia.
  replace (arr_len (h ++ b) =? 0) with false by (symmetry; apply Z.eqb_neq; lia).
  cbn [negb andb].
  rewrite guint_wrap_small by lia.
  replace (arr_len h <=? arr_len (h ++ b)) with true
    by (symmetry; apply Z.leb_le; lia).
  cbn [lift fst snd bind ret of_outcome app]. writer_fields.
  rewrite firstn_arr_len_self.
  rewrite remove_block_at_index_all by lia.
  cbn [of_outcome bind ret app].
  rewrite Hrun. reflexivity.
Qed.

End WriterProducer.

Lemma produced_body_on_the_wire_witness :
  exists t0,
    Writer.soup_transfer_write_cb
      (repeat (WriteOk 64) (S (List.length [bytes "lo"; bytes "!"])) ++ [WriteError])
      (snd (Writer.soup_transfer_write 0 (Some (bytes "ABCD")) None
              SOUP_TRANSFER_CONTENT_LENGTH None (Some chunk_producer)
              (Some (fun u => u)) None
              (bytes "hel" :: [bytes "lo"; bytes "!"]) 1 2)) =
    (t0 ++ [EvWriteDone; EvSourceRemove 1; EvSourceRemove 2;
            EvByteArrayFree true; EvFree],
     Done (Writer.mkExit false None, [WriteError])) /\
    wire t0 = bytes "ABCD" ++ bytes "hel" ++ List.concat [bytes "lo"; bytes "!"].
Proof.
  apply (produced_body_on_the_wire SOUP_TRANSFER_CONTENT_LENGTH
           ltac:(discriminate) 64 (fun u => u) None 0 1 2
           (bytes "ABCD") (bytes "hel") [bytes "lo"; bytes "!"] [WriteError]).
  - split; [discriminate|vm_compute; discriminate].
  - repeat constructor; try discriminate; vm_compute; discriminate.
  - reflexivity.
Defined.

(** ** The write handler returns *)

Section WriterReturns.

Import Writer.
Context {U : Type}.
Implicit Types w : SoupWriter U.

Lemma write_once_returns w (a : write_result) :
  exists t y, write_once w a = (t, Done y).
Proof.
  destruct a as [room| |].
  - unfold write_once.
    set (bw := Z.max 0 (Z.min room (arr_len (write_buf w)))).
    destruct (bw =? 0) eqn:Hbw; [eexists _, _; reflexivity|].
    apply Z.eqb_neq in Hbw.
    assert (Hrange : 0 < bw <= arr_len (write_buf w)) by (subst bw; lia).
    destruct (negb (headers_done w) && (header_len w <=? guint_wrap bw)).
    + destruct (headers_done_cb w) as [cb|];
        cbn [lift fst snd bind ret of_outcome app];
        match goal with
        | |- context [remove_block_at_index ?b 0 bw] =>
            change b with (write_buf w)
        end;
        rewrite remove_block_at_index_front by exact Hrange;
        cbn; eexists _, _; reflexivity.
    + cbn [lift fst snd bind ret of_outcome app].
      rewrite remove_block_at_index_front by exact Hrange.
      cbn. eexists _, _. reflexivity.
  - eexists _, _. reflexivity.
  - unfold write_once.
    destruct (soup_transfer_write_error_cb w) as [t e]. cbn.
    eexists _, _. reflexivity.
Qed.

Lemma write_again_returns (chan : list write_result) :
  forall w, exists t e chan', write_again chan w = (t, Done (e, chan')).
Proof.
  induction chan as [|a chan IH]; intros w.
  - cbn [write_again]. destruct (refill w) as [t [w1|w1|e1]]; cbn;
      eexists _, _, _; reflexivity.
  - cbn [write_again]. destruct (refill w) as [t [w1|w1|e1]];
      cbn [lift fst snd bind]; try (cbn; eexists _, _, _; reflexivity).
    destruct (write_once_returns w1 a) as (t1 & y & ->).
    cbn [bind]. destruct y as [w2|e2].
    + destruct (IH w2) as (t2 & e & chan' & ->). eexists _, _, _. reflexivity.
    + cbn. eexists _, _, _. reflexivity.
Qed.

(** X20.  The write handler never stops on an assertion: from any writer,
    with any producer and on any channel, [soup_transfer_write_cb]
    returns; the block it takes off the staging buffer after a write
    always lies inside the buffer. *)
Theorem write_handler_returns (chan : list write_result) w :
  exists e chan', snd (soup_transfer_write_cb chan w) = Done (e, chan').
Proof.
  destruct (write_again_returns chan w) as (t & e & chan' & Hrun).
  exists e, chan'. unfold soup_transfer_write_cb. rewrite Hrun. reflexivity.
Qed.

End WriterReturns.

(** * The string helpers of soup-misc.c *)

(** ** Base-64 *)

Lemma in_all_ascii (a : ascii) : In a all_ascii.
Proof.
  unfold all_ascii. rewrite <- (ascii_nat_embedding a).
  apply in_map. apply in_seq. pose proof (nat_ascii_bounded a). lia.
Qed.

Lemma forall_ascii (P : ascii -> bool) :
  forallb P all_ascii = true -> forall a, P a = true.
Proof.
  intros H a. rewrite forallb_forall in H. apply H. apply in_all_ascii.
Qed.

Lemma forall_ascii2 (P : ascii -> ascii -> bool) :
  forallb (fun a => forallb (P a) all_ascii) all_ascii = true ->
  forall a b, P a b = true.
Proof.
  intros H a b.
  apply (forall_ascii (P a)). apply (forall_ascii _ H a).
Qed.

Lemma forall_sextets (P : Z -> bool) :
  forallb P all_sextets = true -> forall i, 0 <= i < 64 -> P i = true.
Proof.
  intros H i Hi. rewrite forallb_forall in H. apply H.
  unfold all_sextets. rewrite <- (Z2Nat.id i) by lia.
  apply in_map. apply in_seq. lia.
Qed.

Lemma code_range (a : ascii) : 0 <= code a < 256.
Proof.
  pose proof (forall_ascii (fun a => (0 <=? code a) && (code a <? 256))
                ltac:(vm_compute; reflexivity) a) as H.
  apply andb_prop in H as [H1 H2].
  apply Z.leb_le in H1. apply Z.ltb_lt in H2. lia.
Qed.

(** The shifts and masks of the code, as arithmetic. *)
Lemma sextet_bits1 (a : ascii) :
  Z.shiftr (code a) 2 = code a / 4 /\
  Z.land (code a) 63 = code a mod 64 /\
  Z.lor (Z.land (Z.shiftl (code a) 4) 48) 0 = (code a mod 4) * 16 /\
  Z.land (Z.shiftl (code a) 2) 60 = (code a mod 16) * 4.
Proof.
  pose proof (forall_ascii
    (fun a => (Z.shiftr (code a) 2 =? code a / 4) &&
              (Z.land (code a) 63 =? code a mod 64) &&
              (Z.lor (Z.land (Z.shiftl (code a) 4) 48) 0 =? (code a mod 4) * 16) &&
              (Z.land (Z.shiftl (code a) 2) 60 =? (code a mod 16) * 4))
    ltac:(vm_compute; reflexivity) a) as H.
  repeat (apply andb_prop in H as [H ?]).
  repeat split; apply Z.eqb_eq; assumption.
Qed.

Lemma sextet_bits2 (a b : ascii) :
  Z.lor (Z.land (Z.shiftl (code a) 4) 48) (Z.shiftr (code b) 4) =
    (code a mod 4) * 16 + code b / 16 /\
  Z.lor (Z.land (Z.shiftl (code a) 2) 60) (Z.shiftr (code b) 6) =
    (code a mod 16) * 4 + code b / 64.
Proof.
  pose proof (forall_ascii2
    (fun a b =>
       (Z.lor (Z.land (Z.shiftl (code a) 4) 48) (Z.shiftr (code b) 4) =?
          (code a mod 4) * 16 + code b / 16) &&
       (Z.lor (Z.land (Z.shiftl (code a) 2) 60) (Z.shiftr (code b) 6) =?
          (code a mod 16) * 4 + code b / 64))
    ltac:(vm_compute; reflexivity) a b) as H.
  apply andb_prop in H as [H1 H2].
  split; apply Z.eqb_eq; assumption.
Qed.

(** The characters of the six-bit values. *)
Lemma sextet_facts (i : Z) :
  0 <= i < 64 ->
  Base64.alphabet_at i = Done (sextet i) /\
  sextet_value (sextet i) = i /\
  Ascii.eqb (sextet i) "="%char = false /\
  Ascii.eqb (sextet i) NUL = false /\
  In (sextet i) Base64.base64_alphabet.
Proof.
  intros Hi.
  pose proof (forall_sextets
    (fun i =>
       match Base64.alphabet_at i with
       | Done c => Ascii.eqb c (sextet i)
       | _ => false
       end &&
       (sextet_value (sextet i) =? i) &&
       negb (Ascii.eqb (sextet i) "="%char) &&
       negb (Ascii.eqb (sextet i) NUL) &&
       existsb (Ascii.eqb (sextet i)) Base64.base64_alphabet)
    ltac:(vm_compute; reflexivity) i Hi) as H.
  cbv beta in H.
  repeat (apply andb_prop in H as [H ?]).
  repeat split.
  - destruct (Base64.alphabet_at i) as [c| |]; try discriminate.
    apply Ascii.eqb_eq in H. subst c. reflexivity.
  - apply Z.eqb_eq. assumption.
  - apply negb_true_iff. assumption.
  - apply negb_true_iff. assumption.
  - match goal with Hex : existsb _ _ = true |- _ =>
      apply existsb_exists in Hex; destruct Hex as (c & Hin & Hc);
      apply Ascii.eqb_eq in Hc; rewrite Hc; exact Hin
    end.
Qed.

Lemma list_ind3 {A : Type} (P : list A -> Prop) :
  P [] -> (forall a, P [a]) -> (forall a b, P [a; b]) ->
  (forall a b c rest, P rest -> P (a :: b :: c :: rest)) ->
  forall l, P l.
Proof.
  intros H0 H1 H2 H3 l.
  assert (H : P l /\ (forall a, P (a :: l)) /\ (forall a b, P (a :: b :: l))).
  { induction l as [|x l (IH0 & IH1 & IH2)].
    - auto.
    - split; [apply IH1|]. split; [intros a; apply IH2|].
      intros a b. apply H3. exact IH0. }
  apply H.
Qed.

Lemma sextet_index_ranges (a b : ascii) :
  0 <= code a / 4 < 64 /\
  0 <= code a mod 64 < 64 /\
  0 <= (code a mod 4) * 16 < 64 /\
  0 <= (code a mod 16) * 4 < 64 /\
  0 <= (code a mod 4) * 16 + code b / 16 < 64 /\
  0 <= (code a mod 16) * 4 + code b / 64 < 64.
Proof.
  pose proof (code_range a). pose proof (code_range b).
  repeat split; Z.div_mod_to_equations; lia.
Qed.

(** The reference encoding gives characters of the alphabet, none of them
    NUL, four for every three bytes begun. *)
Lemma base64_of_chars (data : list ascii) :
  Forall (fun c => In c Base64.base64_alphabet /\ Ascii.eqb c NUL = false)
    (base64_of data).
Proof.
  assert (Hpad : In "="%char Base64.base64_alphabet /\ Ascii.eqb "="%char NUL = false).
  { split; [|reflexivity]. unfold Base64.base64_alphabet. cbn.
    repeat (first [left; reflexivity | right]). }
  assert (Hs : forall i, 0 <= i < 64 ->
             In (sextet i) Base64.base64_alphabet /\ Ascii.eqb (sextet i) NUL = false).
  { intros i Hi. destruct (sextet_facts i Hi) as (_ & _ & _ & Hn & Hin). auto. }
  induction data as [|a|a b|a b c rest IH] using list_ind3.
  - constructor.
  - destruct (sextet_index_ranges a a) as (H1 & _ & H3 & _).
    cbn [base64_of].
    constructor; [apply Hs; exact H1|].
    constructor; [apply Hs; exact H3|].
    constructor; [exact Hpad|]. constructor; [exact Hpad|]. constructor.
  - destruct (sextet_index_ranges a b) as (H1 & _ & _ & _ & H5 & _).
    destruct (sextet_index_ranges b b) as (_ & _ & _ & H4 & _).
    cbn [base64_of].
    constructor; [apply Hs; exact H1|].
    constructor; [apply Hs; exact H5|].
    constructor; [apply Hs; exact H4|].
    constructor; [exact Hpad|]. constructor.
  - destruct (sextet_index_ranges a b) as (H1 & _ & _ & _ & H5 & _).
    destruct (sextet_index_ranges b c) as (_ & _ & _ & _ & _ & H6).
    destruct (sextet_index_ranges c c) as (_ & H2 & _).
    cbn [base64_of].
    constructor; [apply Hs; exact H1|].
    constructor; [apply Hs; exact H5|].
    constructor; [apply Hs; exact H6|].
    constructor; [apply Hs; exact H2|]. exact IH.
Qed.

Lemma base64_of_length (data : list ascii) :
  arr_len (base64_of data) = 4 * ((arr_len data + 2) / 3).
Proof.
  induction data as [|a|a b|a b c rest IH] using list_ind3.
  - reflexivity.
  - reflexivity.
  - reflexivity.
  - cbn [base64_of]. unfold arr_len in *. cbn [List.length].
    rewrite !Nat2Z.inj_succ. 
    replace (Z.succ (Z.succ (Z.succ (Z.of_nat (List.length rest)))) + 2)
      with (Z.of_nat (List.length rest) + 2 + 1 * 3) by lia.
    rewrite Z.div_add by lia. lia.
Qed.

(** Decoding the reference encoding gives the bytes back. *)
Lemma byte_of_code (a : ascii) : byte_of (code a) = a.
Proof.
  unfold byte_of, code. rewrite N2Z.id. apply ascii_N_embedding.
Qed.

Lemma base64_decode_of (data : list ascii) :
  base64_decode (base64_of data) = data.
Proof.
  induction data as [|a|a b|a b c rest IH] using list_ind3.
  - reflexivity.
  - destruct (sextet_index_ranges a a) as (H1 & _ & H3 & _).
    destruct (sextet_facts _ H1) as (_ & V1 & _).
    destruct (sextet_facts _ H3) as (_ & V3 & _).
    cbn [base64_of base64_decode]. cbv zeta. rewrite V1, V3.
    change (Ascii.eqb "="%char "="%char) with true. cbv iota.
    replace (code a / 4 * 4 + code a mod 4 * 16 / 16) with (code a)
      by (pose proof (code_range a); Z.div_mod_to_equations; lia).
    rewrite byte_of_code. reflexivity.
  - destruct (sextet_index_ranges a b) as (H1 & _ & _ & _ & H5 & _).
    destruct (sextet_index_ranges b b) as (_ & _ & _ & H4 & _).
    destruct (sextet_facts _ H1) as (_ & V1 & _).
    destruct (sextet_facts _ H5) as (_ & V5 & _).
    destruct (sextet_facts _ H4) as (_ & V4 & E4 & _).
    cbn [base64_of base64_decode]. cbv zeta. rewrite V1, V5, V4, E4.
    change (Ascii.eqb "="%char "="%char) with true. cbv iota.
    replace (code a / 4 * 4 + (code a mod 4 * 16 + code b / 16) / 16) with (code a)
      by (pose proof (code_range a); pose proof (code_range b);
          Z.div_mod_to_equations; lia).
    replace ((code a mod 4 * 16 + code b / 16) mod 16 * 16 + code b mod 16 * 4 / 4)
      with (code b)
      by (pose proof (code_range a); pose proof (code_range b);
          Z.div_mod_to_equations; lia).
    rewrite !byte_of_code. reflexivity.
  - destruct (sextet_index_ranges a b) as (H1 & _ & _ & _ & H5 & _).
    destruct (sextet_index_ranges b c) as (_ & _ & _ & _ & _ & H6).
    destruct (sextet_index_ranges c c) as (_ & H2 & _).
    destruct (sextet_facts _ H1) as (_ & V1 & _).
    destruct (sextet_facts _ H5) as (_ & V5 & _).
    destruct (sextet_facts _ H6) as (_ & V6 & E6 & _).
    destruct (sextet_facts _ H2) as (_ & V2 & E2 & _).
    cbn [base64_of base64_decode]. cbv zeta. rewrite V1, V5, V6, V2, E6, E2, IH.
    replace (code a / 4 * 4 + (code a mod 4 * 16 + code b / 16) / 16) with (code a)
      by (pose proof (code_range a); pose proof (code_range b);
          Z.div_mod_to_equations; lia).
    replace ((code a mod 4 * 16 + code b / 16) mod 16 * 16 +
             (code b mod 16 * 4 + code c / 64) / 4)
      with (code b)
      by (pose proof (code_range a); pose proof (code_range b);
          pose proof (code_range c); Z.div_mod_to_equations; lia).
    replace ((code b mod 16 * 4 + code c / 64) mod 4 * 64 + code c mod 64)
      with (code c)
      by (pose proof (code_range b); pose proof (code_range c);
          Z.div_mod_to_equations; lia).
    rewrite !byte_of_code. reflexivity.
Qed.

Lemma store_next (out z : list ascii) (x c : ascii) (i : nat) :
  i = List.length out ->
  Base64.store (out ++ x :: z) i c = Done (out ++ c :: z).
Proof.
  intros ->. unfold Base64.store. rewrite length_app. cbn [List.length].
  replace (List.length out <? List.length out + S (List.length z))%nat with true
    by (symmetry; apply Nat.ltb_lt; lia).
  rewrite firstn_app, Nat.sub_diag, firstn_all. cbn [firstn].
  rewrite app_nil_r, skipn_app, skipn_all2 by lia.
  replace (S (List.length out) - List.length out)%nat with 1%nat by lia.
  reflexivity.
Qed.

Lemma c_string_chars (s z : list ascii) :
  Forall (fun c => Ascii.eqb c NUL = false) s ->
  Base64.c_string (s ++ NUL :: z) = Done s.
Proof.
  induction 1 as [|c s Hc Hs IH]; [reflexivity|].
  cbn [app Base64.c_string]. rewrite Hc, IH. reflexivity.
Qed.

Section Base64Runs.

Import Base64.
Variable char_signed : bool.

Lemma gchar_int_plain (c : ascii) :
  0 <= gchar_int char_signed c -> gchar_int char_signed c = code c.
Proof.
  unfold gchar_int. pose proof (code_range c).
  destruct (char_signed && (128 <=? code c)); [lia|reflexivity].
Qed.

Lemma encode_group_plain (a b c : ascii) (rest out z : list ascii) (x1 x2 x3 x4 : ascii) :
  plain_bytes char_signed [a; b; c] ->
  encode_group char_signed (a :: b :: c :: rest)
    (out ++ x1 :: x2 :: x3 :: x4 :: z) (List.length out) =
  Done (out ++ base64_of [a; b; c] ++ z).
Proof.
  intros Hp. inversion Hp as [|? ? Ha Hp1]; subst.
  inversion Hp1 as [|? ? Hb Hp2]; subst.
  inversion Hp2 as [|? ? Hc _]; subst.
  apply gchar_int_plain in Ha, Hb, Hc.
  destruct (sextet_index_ranges a b) as (H1 & _ & _ & _ & H5 & _).
  destruct (sextet_index_ranges b c) as (_ & _ & _ & _ & _ & H6).
  destruct (sextet_index_ranges c c) as (_ & H2 & _).
  destruct (sextet_facts _ H1) as (A1 & _).
  destruct (sextet_facts _ H5) as (A5 & _).
  destruct (sextet_facts _ H6) as (A6 & _).
  destruct (sextet_facts _ H2) as (A2 & _).
  destruct (sextet_bits1 a) as (B1 & _).
  destruct (sextet_bits2 a b) as (B5 & _).
  destruct (sextet_bits2 b c) as (_ & B6).
  destruct (sextet_bits1 c) as (_ & B2 & _).
  unfold encode_group, text_at. cbn [nth_error obind].
  rewrite Ha, Hb, Hc, B1, B5, B6, B2, A1, A5, A6, A2. cbn [obind].
  rewrite store_next by reflexivity. cbn [obind].
  do 3 (match goal with
        | |- context [store (?o ++ ?c1 :: ?x :: ?z') _ _] =>
            replace (o ++ c1 :: x :: z') with ((o ++ [c1]) ++ x :: z')
              by (rewrite <- app_assoc; reflexivity)
        end;
        rewrite store_next by (rewrite !length_app; cbn [List.length]; lia);
        cbn [obind]).
  cbn [base64_of]. rewrite <- !app_assoc. reflexivity.
Qed.

Lemma base64_of_groups (k : nat) :
  forall groups tail : list ascii,
    List.length groups = (3 * k)%nat ->
    base64_of (groups ++ tail) = base64_of groups ++ base64_of tail /\
    List.length (base64_of groups) = (4 * k)%nat.
Proof.
  induction k as [|k IH]; intros groups tail Hlen.
  - destruct groups; [|simpl in Hlen; lia]. split; reflexivity.
  - destruct groups as [|a [|b [|c groups]]]; try (simpl in Hlen; lia).
    cbn [List.length] in Hlen.
    destruct (IH groups tail ltac:(lia)) as [Happ Hl].
    cbn [app base64_of List.length]. rewrite Happ, Hl. split; [reflexivity|lia].
Qed.

Lemma encode_groups_plain (k : nat) :
  forall (fuel : nat) (groups tail junk out z : list ascii),
    List.length groups = (3 * k)%nat ->
    (List.length tail < 3)%nat ->
    (k <= fuel)%nat ->
    plain_bytes char_signed groups ->
    encode_groups char_signed fuel (groups ++ tail ++ junk)
      (Z.of_nat (3 * k + List.length tail))
      (out ++ repeat NUL (4 * k) ++ z) (List.length out) =
    Done (tail ++ junk, Z.of_nat (List.length tail),
          out ++ base64_of groups ++ z, (List.length out + 4 * k)%nat).
Proof.
  induction k as [|k IH]; intros fuel groups tail junk out z Hlen Htail Hfuel Hp.
  - destruct groups; [|simpl in Hlen; lia].
    cbn [app repeat Nat.mul Nat.add base64_of].
    rewrite Nat.add_0_r.
    destruct fuel; cbn [encode_groups];
      replace (3 <=? Z.of_nat (List.length tail)) with false
        by (symmetry; apply Z.leb_gt; lia); reflexivity.
  - destruct groups as [|a [|b [|c groups]]]; try (simpl in Hlen; lia).
    cbn [List.length] in Hlen.
    destruct fuel as [|fuel]; [lia|].
    cbn [encode_groups].
    replace (3 <=? Z.of_nat (3 * S k + List.length tail)) with true
      by (symmetry; apply Z.leb_le; lia).
    replace (repeat NUL (4 * S k)) with (NUL :: NUL :: NUL :: NUL :: repeat NUL (4 * k))
      by (replace (4 * S k)%nat with (S (S (S (S (4 * k))))) by lia; reflexivity).
    cbn [app].
    inversion Hp as [|? ? Ha Hp1]; subst.
    inversion Hp1 as [|? ? Hb Hp2]; subst.
    inversion Hp2 as [|? ? Hc Hp3]; subst.
    rewrite (encode_group_plain a b c (groups ++ tail ++ junk) out
               (repeat NUL (4 * k) ++ z))
      by (repeat constructor; assumption).
    cbn [obind skipn].
    replace (Z.of_nat (3 * S k + List.length tail) - 3)
      with (Z.of_nat (3 * k + List.length tail)) by lia.
    replace (out ++ base64_of [a; b; c] ++ repeat NUL (4 * k) ++ z)
      with ((out ++ base64_of [a; b; c]) ++ repeat NUL (4 * k) ++ z)
      by (rewrite <- app_assoc; reflexivity).
    replace (List.length out + 4)%nat with (List.length (out ++ base64_of [a; b; c]))
      by (rewrite length_app; reflexivity).
    rewrite (IH fuel groups tail junk (out ++ base64_of [a; b; c]) z)
      by (try assumption; lia).
    rewrite length_app. cbn [base64_of List.length app].
    rewrite <- !app_assoc. cbn [app].
    replace (List.length out + 4 + 4 * k)%nat with (List.length out + 4 * S k)%nat
      by lia.
    reflexivity.
Qed.

Lemma encode_tail_plain (tail junk out z : list ascii) (x1 x2 x3 x4 : ascii) :
  tail <> [] -> (List.length tail < 3)%nat ->
  plain_bytes char_signed tail ->
  encode_tail char_signed (tail ++ junk) (Z.of_nat (List.length tail))
    (out ++ x1 :: x2 :: x3 :: x4 :: z) (List.length out) =
  Done (out ++ base64_of tail ++ z, (List.length out + 4)%nat).
Proof.
  intros Hne Hlen Hp.
  assert (Hstores : forall c1 c2 c3 c4 : ascii,
    (do buffer <- store (out ++ x1 :: x2 :: x3 :: x4 :: z) (List.length out) c1;
     do buffer <- store buffer (List.length out + 1) c2;
     do buffer <- store buffer (List.length out + 2) c3;
     do buffer <- store buffer (List.length out + 3) c4;
     Done (buffer, (List.length out + 4)%nat)) =
    Done (out ++ [c1; c2; c3; c4] ++ z, (List.length out + 4)%nat)).
  { intros c1 c2 c3 c4.
    rewrite store_next by reflexivity. cbn [obind].
    do 3 (match goal with
          | |- context [store (?o ++ ?c1 :: ?x :: ?z') _ _] =>
              replace (o ++ c1 :: x :: z') with ((o ++ [c1]) ++ x :: z')
                by (rewrite <- app_assoc; reflexivity)
          end;
          rewrite store_next by (rewrite !length_app; cbn [List.length]; lia);
          cbn [obind]).
    rewrite <- !app_assoc. reflexivity. }
  destruct tail as [|a [|b [|c tail]]]; [contradiction| | |simpl in Hlen; lia].
  - inversion Hp as [|? ? Ha _]; subst. apply gchar_int_plain in Ha.
    destruct (sextet_index_ranges a a) as (H1 & _ & H3 & _).
    destruct (sextet_facts _ H1) as (A1 & _).
    destruct (sextet_facts _ H3) as (A3 & _).
    destruct (sextet_bits1 a) as (B1 & _ & B3 & _).
    unfold encode_tail, text_at. cbn [app nth_error obind List.length Z.of_nat].
    change (Z.pos (Pos.of_succ_nat 0) =? 2) with false.
    change (Z.pos (Pos.of_succ_nat 0) =? 1) with true.
    cbn [obind]. rewrite Ha, B1, B3, A1, A3. cbn [obind].
    exact (Hstores _ _ _ _).
  - inversion Hp as [|? ? Ha Hp1]; subst. inversion Hp1 as [|? ? Hb _]; subst.
    apply gchar_int_plain in Ha, Hb.
    destruct (sextet_index_ranges a b) as (H1 & _ & _ & _ & H5 & _).
    destruct (sextet_index_ranges b b) as (_ & _ & _ & H4 & _).
    destruct (sextet_facts _ H1) as (A1 & _).
    destruct (sextet_facts _ H5) as (A5 & _).
    destruct (sextet_facts _ H4) as (A4 & _).
    destruct (sextet_bits1 a) as (B1 & _).
    destruct (sextet_bits2 a b) as (B5 & _).
    destruct (sextet_bits1 b) as (_ & _ & _ & B4).
    unfold encode_tail, text_at. cbn [app nth_error obind List.length Z.of_nat].
    change (Z.pos (Pos.of_succ_nat 1) =? 2) with true.
    change (Z.pos (Pos.of_succ_nat 1) =? 1) with false.
    cbn [obind]. rewrite Ha, Hb, B1, B5, B4, A1, A5, A4. cbn [obind].
    exact (Hstores _ _ _ _).
Qed.

(** On bytes that are the same in [char] and [unsigned char] the function
    returns the reference encoding. *)
Lemma soup_base64_encode_plain (data junk : list ascii) :
  plain_bytes char_signed data ->
  arr_len data * 4 < 2 ^ 31 ->
  soup_base64_encode char_signed (Some (data ++ junk)) (arr_len data) =
  Done (Some (base64_of data)).
Proof.
  intros Hp Hlen. unfold soup_base64_encode.
  destruct (arr_len data =? 0) eqn:Hz.
  { apply Z.eqb_eq in Hz. unfold arr_len in Hz.
    destruct data; [reflexivity|simpl in Hz; lia]. }
  apply Z.eqb_neq in Hz.
  pose proof (arr_len_nonneg data) as Hnn.
  replace (arr_len data <? 0) with false by (symmetry; apply Z.ltb_ge; lia).
  replace (2 ^ 31 <=? arr_len data * 4) with false by (symmetry; apply Z.leb_gt; lia).
  cbn [orb].
  set (n := List.length data).
  set (k := (n / 3)%nat). set (r := (n mod 3)%nat).
  assert (Hn : n = (3 * k + r)%nat) by (subst k r; apply Nat.div_mod_eq).
  assert (Hr : (r < 3)%nat) by (subst r; apply Nat.mod_upper_bound; lia).
  set (groups := firstn (3 * k) data). set (tail := skipn (3 * k) data).
  assert (Hdata : data = groups ++ tail) by (symmetry; apply firstn_skipn).
  assert (Hg : List.length groups = (3 * k)%nat)
    by (subst groups; rewrite length_firstn; fold n; lia).
  assert (Ht : List.length tail = r)
    by (subst tail; rewrite length_skipn; fold n; lia).
  assert (Hpg : plain_bytes char_signed groups /\ plain_bytes char_signed tail).
  { unfold plain_bytes in *. rewrite Hdata in Hp. apply Forall_app in Hp. exact Hp. }
  destruct Hpg as [Hpg Hpt].
  destruct (base64_of_groups k groups tail Hg) as [Happ Hbl].
  assert (Hin : arr_len data = Z.of_nat (3 * k + List.length tail))
    by (unfold arr_len; fold n; lia).
  set (pad := if (r =? 0)%nat then 0%nat else 4%nat).
  assert (Hout :
    Z.to_nat ((if 0 <? Z.rem (arr_len data) 3
               then Z.quot (arr_len data * 4) 3 + (4 - Z.rem (arr_len data) 3)
               else Z.quot (arr_len data * 4) 3) + 1) = (4 * k + (pad + 1))%nat).
  { rewrite Z.rem_mod_nonneg, Z.quot_div_nonneg by lia.
    rewrite Hin, Ht. subst pad.
    destruct r as [|[|[|r]]]; [| | |lia]; cbn [Nat.eqb].
    - assert (Hm : Z.of_nat (3 * k + 0) mod 3 = 0)
        by (Z.div_mod_to_equations; lia).
      assert (Hq : Z.of_nat (3 * k + 0) * 4 / 3 = 4 * Z.of_nat k)
        by (Z.div_mod_to_equations; lia).
      rewrite Hm, Hq. change (0 <? 0) with false. cbv iota. lia.
    - assert (Hm : Z.of_nat (3 * k + 1) mod 3 = 1)
        by (Z.div_mod_to_equations; lia).
      assert (Hq : Z.of_nat (3 * k + 1) * 4 / 3 = 4 * Z.of_nat k + 1)
        by (Z.div_mod_to_equations; lia).
      rewrite Hm, Hq. change (0 <? 1) with true. cbv iota. lia.
    - assert (Hm : Z.of_nat (3 * k + 2) mod 3 = 2)
        by (Z.div_mod_to_equations; lia).
      assert (Hq : Z.of_nat (3 * k + 2) * 4 / 3 = 4 * Z.of_nat k + 2)
        by (Z.div_mod_to_equations; lia).
      rewrite Hm, Hq. change (0 <? 2) with true. cbv iota. lia. }
  rewrite Hout, !repeat_app.
  replace (Z.to_nat (arr_len data)) with n by (unfold arr_len; fold n; lia).
  rewrite Hin. rewrite Hdata at 1. rewrite <- app_assoc.
  pose proof (encode_groups_plain k n groups tail junk []
                (repeat NUL pad ++ repeat NUL 1) Hg ltac:(lia) ltac:(lia) Hpg)
    as Hrun.
  cbn [app List.length Nat.add] in Hrun.
  rewrite Hrun.
  cbn [obind app List.length Nat.add repeat].
  rewrite Hdata, Happ.
  destruct tail as [|a tail'] eqn:Htl.
  - cbn [List.length] in Ht. subst r pad. rewrite <- Ht. cbn [Nat.eqb repeat app].
    cbn [List.length Z.of_nat Z.eqb negb obind].
    rewrite <- Hbl.
    rewrite store_next by reflexivity. cbn [obind].
    rewrite c_string_chars.
    + cbn [base64_of]. rewrite app_nil_r. reflexivity.
    + eapply Forall_impl; [|apply base64_of_chars]. intros c [_ Hc]. exact Hc.
  - assert (Hr0 : (r =? 0)%nat = false)
      by (apply Nat.eqb_neq; cbn [List.length] in Ht; lia).
    subst pad. rewrite Hr0. cbn [repeat app].
    replace (Z.of_nat (List.length (a :: tail')) =? 0) with false
      by (symmetry; apply Z.eqb_neq; cbn [List.length]; lia).
    cbn [negb].
    rewrite <- Hbl.
    rewrite (encode_tail_plain (a :: tail') junk (base64_of groups) [NUL])
      by (try assumption; try discriminate; lia).
    cbn [obind].
    replace (base64_of groups ++ base64_of (a :: tail') ++ [NUL])
      with ((base64_of groups ++ base64_of (a :: tail')) ++ [NUL])
      by (rewrite <- app_assoc; reflexivity).
    rewrite store_next.
    2:{ rewrite length_app.
        destruct tail' as [|b [|c tail'']]; cbn [List.length] in *; try lia;
          reflexivity. }
    cbn [obind]. rewrite c_string_chars; [reflexivity|].
    rewrite <- Happ.
    eapply Forall_impl; [|apply base64_of_chars]. intros c [_ Hc]. exact Hc.
Qed.

(** X21.  [soup_base64_encode] fills the buffer it allocates exactly: for
    [inlen] bytes of [text], each the same in [char] and [unsigned char],
    it returns a string of [4 * ceil (inlen / 3)] characters, all of them
    from [base64_alphabet], ending with as many [=] as the last group
    lacks bytes; no write leaves the allocation. *)
Theorem soup_base64_encode_size
    (text : list ascii) (inlen : Z)
    (Hin : 0 <= inlen <= arr_len text)
    (Hint : inlen * 4 < 2 ^ 31)
    (Hplain : plain_bytes char_signed (firstn (Z.to_nat inlen) text)) :
  exists s,
    soup_base64_encode char_signed (Some text) inlen = Done (Some s) /\
    arr_len s = 4 * ((inlen + 2) / 3) /\
    Forall (fun c => In c base64_alphabet) s /\
    (inlen mod 3 = 1 -> exists s', s = s' ++ bytes "==") /\
    (inlen mod 3 = 2 -> exists s', s = s' ++ bytes "=").
Proof.
  set (data := firstn (Z.to_nat inlen) text) in *.
  assert (Hlen : arr_len data = inlen).
  { subst data. unfold arr_len in *. rewrite length_firstn. lia. }
  assert (Htext : text = data ++ skipn (Z.to_nat inlen) text)
    by (symmetry; apply firstn_skipn).
  exists (base64_of data). split.
  { rewrite Htext, <- Hlen. apply soup_base64_encode_plain; [exact Hplain|lia]. }
  split; [rewrite base64_of_length, Hlen; reflexivity|].
  split.
  { eapply Forall_impl; [|apply base64_of_chars]. intros c [Hc _]. exact Hc. }
  rewrite <- Hlen. clear.
  induction data as [|a|a b|a b c rest IH] using list_ind3.
  - split; intros H; discriminate.
  - split; intros H; [|discriminate]. eexists [_; _]. reflexivity.
  - split; intros H; [discriminate|]. eexists [_; _; _]. reflexivity.
  - assert (Hm : arr_len (a :: b :: c :: rest) mod 3 = arr_len rest mod 3).
    { unfold arr_len. cbn [List.length].
      replace (Z.of_nat (S (S (S (List.length rest)))))
        with (Z.of_nat (List.length rest) + 1 * 3) by lia.
      apply Z.mod_add. lia. }
    rewrite Hm. destruct IH as [IH1 IH2]. cbn [base64_of].
    split; intros H.
    + destruct (IH1 H) as [s' ->]. eexists (_ :: _ :: _ :: _ :: s'). reflexivity.
    + destruct (IH2 H) as [s' ->]. eexists (_ :: _ :: _ :: _ :: s'). reflexivity.
Qed.

(** X22.  What [soup_base64_encode] returns decodes to the bytes it was
    given: the encoding loses nothing, so two texts with the same encoding
    are the same. *)
Theorem soup_base64_encode_decodes
    (text : list ascii) (inlen : Z)
    (Hin : 0 <= inlen <= arr_len text)
    (Hint : inlen * 4 < 2 ^ 31)
    (Hplain : plain_bytes char_signed (firstn (Z.to_nat inlen) text)) :
  exists s,
    soup_base64_encode char_signed (Some text) inlen = Done (Some s) /\
    base64_decode s = firstn (Z.to_nat inlen) text.
Proof.
  set (data := firstn (Z.to_nat inlen) text) in *.
  assert (Hlen : arr_len data = inlen).
  { subst data. unfold arr_len in *. rewrite length_firstn. lia. }
  assert (Htext : text = data ++ skipn (Z.to_nat inlen) text)
    by (symmetry; apply firstn_skipn).
  exists (base64_of data). split; [|apply base64_decode_of].
  rewrite Htext, <- Hlen. apply soup_base64_encode_plain; [exact Hplain|lia].
Qed.

End Base64Runs.

(** X23.  Where [char] is signed, a text that begins with a byte of 128 or
    more makes [soup_base64_encode] read [base64_alphabet] at a negative
    index: the very first character it computes has no defined value. *)
Theorem soup_base64_encode_high_byte
    (c : ascii) (text : list ascii) (inlen : Z)
    (Hc : 128 <= code c)
    (Hin : 0 < inlen) (Hint : inlen * 4 < 2 ^ 31) :
  Base64.soup_base64_encode true (Some (c :: text)) inlen = Undef.
Proof.
  unfold Base64.soup_base64_encode.
  replace (inlen =? 0) with false by (symmetry; apply Z.eqb_neq; lia).
  replace (inlen <? 0) with false by (symmetry; apply Z.ltb_ge; lia).
  replace (2 ^ 31 <=? inlen * 4) with false by (symmetry; apply Z.leb_gt; lia).
  cbn [orb]. cbv zeta.
  assert (Hidx : Base64.alphabet_at (Z.shiftr (gchar_int true c) 2) = Undef).
  { unfold gchar_int. cbn [andb].
    replace (128 <=? code c) with true by (symmetry; apply Z.leb_le; lia).
    pose proof (code_range c) as Hr.
    unfold Base64.alphabet_at.
    replace (Z.shiftr (code c - 256) 2 <? 0) with true; [reflexivity|].
    symmetry. apply Z.ltb_lt. rewrite Z.shiftr_div_pow2 by lia.
    change (2 ^ 2) with 4. Z.div_mod_to_equations. lia. }
  destruct (Z.to_nat inlen) as [|fuel] eqn:Hfuel; [lia|].
  cbn [Base64.encode_groups].
  destruct (3 <=? inlen).
  - unfold Base64.encode_group, Base64.text_at. cbn [nth_error obind].
    rewrite Hidx. reflexivity.
  - cbn [obind].
    replace (inlen =? 0) with false by (symmetry; apply Z.eqb_neq; lia).
    cbn [negb]. unfold Base64.encode_tail, Base64.text_at. cbn [nth_error obind].
    rewrite Hidx. reflexivity.
Qed.

Lemma soup_base64_encode_size_witness :
  exists s,
    Base64.soup_base64_encode true (Some (bytes "Hello")) 5 = Done (Some s) /\
    arr_len s = 4 * ((5 + 2) / 3) /\
    Forall (fun c => In c Base64.base64_alphabet) s /\
    (5 mod 3 = 1 -> exists s', s = s' ++ bytes "==") /\
    (5 mod 3 = 2 -> exists s', s = s' ++ bytes "=").
Proof.
  apply (soup_base64_encode_size true (bytes "Hello") 5).
  - vm_compute. split; discriminate.
  - reflexivity.
  - apply Forall_forall. intros c Hc. vm_compute in Hc.
    repeat destruct Hc as [<-|Hc]; try (vm_compute; discriminate); contradiction.
Defined.

Lemma soup_base64_encode_decodes_witness :
  exists s,
    Base64.soup_base64_encode false
      (Some [ascii_of_N 200; "a"%char; "!"%char]) 2 = Done (Some s) /\
    base64_decode s = firstn (Z.to_nat 2) [ascii_of_N 200; "a"%char; "!"%char].
Proof.
  apply (soup_base64_encode_decodes false [ascii_of_N 200; "a"%char; "!"%char] 2).
  - vm_compute. split; discriminate.
  - reflexivity.
  - apply Forall_forall. intros c Hc. vm_compute in Hc.
    repeat destruct Hc as [<-|Hc]; try (vm_compute; discriminate); contradiction.
Defined.

Lemma soup_base64_encode_high_byte_witness :
  Base64.soup_base64_encode true (Some [ascii_of_N 200; "a"%char]) 2 = Undef.
Proof.
  apply (soup_base64_encode_high_byte (ascii_of_N 200) ["a"%char] 2).
  - vm_compute. discriminate.
  - reflexivity.
  - reflexivity.
Defined.

(** ** Keys compared without case *)

Lemma code_inj (a b : ascii) : code a = code b -> a = b.
Proof.
  intros H. rewrite <- (byte_of_code a), <- (byte_of_code b), H. reflexivity.
Qed.

Lemma code_nul (c : ascii) : code c = 0 -> Ascii.eqb c NUL = true.
Proof.
  intros H. apply Ascii.eqb_eq. apply code_inj. exact H.
Qed.

Section CaseKeysAgree.

Import CaseKeys.
Variable char_signed : bool.

(** Characters the comparison holds equal have the same upper case. *)
Lemma folded_toupper (a b : ascii) :
  folded char_signed a = folded char_signed b ->
  toupper (gchar_int char_signed a) = toupper (gchar_int char_signed b).
Proof.
  intros H.
  pose proof (forall_ascii2
    (fun a b =>
       forallb (fun cs =>
         negb (folded cs a =? folded cs b) ||
         match toupper (gchar_int cs a), toupper (gchar_int cs b) with
         | Done x, Done y => x =? y
         | Undef, Undef => true
         | _, _ => false
         end) [true; false])
    ltac:(vm_compute; reflexivity) a b) as Hall.
  rewrite forallb_forall in Hall.
  specialize (Hall char_signed ltac:(destruct char_signed; cbn; auto)).
  apply orb_prop in Hall as [Hne|Heq].
  - apply negb_true_iff, Z.eqb_neq in Hne. contradiction.
  - destruct (toupper (gchar_int char_signed a)) as [x| |],
             (toupper (gchar_int char_signed b)) as [y| |];
      try discriminate; [|reflexivity].
    apply Z.eqb_eq in Heq. subst. reflexivity.
Qed.

Lemma hash_rest_equal (s1 : list ascii) :
  forall (s2 : list ascii) (h : Z),
    g_strcasecmp char_signed s1 s2 = 0 ->
    hash_rest char_signed s1 h = hash_rest char_signed s2 h.
Proof.
  induction s1 as [|c1 s1 IH]; intros [|c2 s2] h Hcmp.
  - reflexivity.
  - cbn in Hcmp. cbn [hash_rest].
    rewrite (code_nul c2) by (change (code NUL) with 0 in Hcmp; lia). reflexivity.
  - cbn in Hcmp. cbn [hash_rest].
    rewrite (code_nul c1) by (change (code NUL) with 0 in Hcmp; lia). reflexivity.
  - cbn [g_strcasecmp] in Hcmp. cbn [hash_rest].
    destruct (Ascii.eqb c1 NUL || Ascii.eqb c2 NUL) eqn:Hnul.
    + assert (c1 = c2) by (apply code_inj; lia). subst c2.
      rewrite orb_diag in Hnul. rewrite Hnul. reflexivity.
    + apply orb_false_elim in Hnul as [H1 H2]. rewrite H1, H2.
      destruct (folded char_signed c1 =? folded char_signed c2) eqn:Hf.
      * apply Z.eqb_eq in Hf. rewrite (folded_toupper c1 c2 Hf).
        destruct (toupper (gchar_int char_signed c2)); cbn [obind]; try reflexivity.
        apply IH. exact Hcmp.
      * apply Z.eqb_neq in Hf. lia.
Qed.

(** X24.  The hash agrees with the comparison, as a hash table needs: two
    keys that [soup_str_case_equal] holds equal have the same
    [soup_str_case_hash]. *)
Theorem soup_str_case_hash_of_equal_keys
    (v1 v2 : list ascii)
    (Heq : soup_str_case_equal char_signed v1 v2 = true) :
  soup_str_case_hash char_signed v1 = soup_str_case_hash char_signed v2.
Proof.
  unfold soup_str_case_equal in Heq. apply Z.eqb_eq in Heq.
  unfold soup_str_case_hash.
  destruct v1 as [|c1 s1], v2 as [|c2 s2].
  - reflexivity.
  - cbn in Heq. change (code NUL) with 0 in Heq.
    assert (c2 = NUL) by (apply code_inj; change (code NUL) with 0; lia).
    subst c2. destruct char_signed; reflexivity.
  - cbn in Heq. change (code NUL) with 0 in Heq.
    assert (c1 = NUL) by (apply code_inj; change (code NUL) with 0; lia).
    subst c1. destruct char_signed; reflexivity.
  - cbn [g_strcasecmp] in Heq. cbn [deref tl].
    destruct (Ascii.eqb c1 NUL || Ascii.eqb c2 NUL) eqn:Hnul.
    + assert (c1 = c2) by (apply code_inj; lia). subst c2.
      rewrite orb_diag in Hnul. apply Ascii.eqb_eq in Hnul. subst c1.
      destruct char_signed; reflexivity.
    + destruct (folded char_signed c1 =? folded char_signed c2) eqn:Hf.
      * apply Z.eqb_eq in Hf. rewrite (folded_toupper c1 c2 Hf).
        destruct (toupper (gchar_int char_signed c2)); cbn [obind]; try reflexivity.
        destruct (negb (guint_wrap a =? 0)); [|reflexivity].
        apply hash_rest_equal. exact Heq.
      * apply Z.eqb_neq in Hf. lia.
Qed.

End CaseKeysAgree.

Lemma soup_str_case_hash_of_equal_keys_witness :
  CaseKeys.soup_str_case_hash true (bytes "Content-Length") =
  CaseKeys.soup_str_case_hash true (bytes "content-LENGTH").
Proof.
  apply (soup_str_case_hash_of_equal_keys true
           (bytes "Content-Length") (bytes "content-LENGTH")).
  reflexivity.
Defined.

(** ** The security policy of the configuration file *)

Section ConfigPolicy.

Import CaseKeys Config.
Variable char_signed : bool.

(** The first letter of the [switch] against the first letter of a
    word. *)
Lemma first_letter (c : ascii) :
  -1 <= gchar_int char_signed c ->
  exists u, toupper (gchar_int char_signed c) = Done u /\
    (u =? 68) = (negb (Ascii.eqb c NUL) && (folded char_signed c =? folded char_signed "D"%char)) /\
    (u =? 69) = (negb (Ascii.eqb c NUL) && (folded char_signed c =? folded char_signed "E"%char)) /\
    (u =? 70) = (negb (Ascii.eqb c NUL) && (folded char_signed c =? folded char_signed "F"%char)).
Proof.
  intros Hc.
  pose proof (forall_ascii
    (fun c =>
       forallb (fun cs =>
         (gchar_int cs c <? -1) ||
         match toupper (gchar_int cs c) with
         | Done u =>
             Bool.eqb (u =? 68)
               (negb (Ascii.eqb c NUL) && (folded cs c =? folded cs "D"%char)) &&
             Bool.eqb (u =? 69)
               (negb (Ascii.eqb c NUL) && (folded cs c =? folded cs "E"%char)) &&
             Bool.eqb (u =? 70)
               (negb (Ascii.eqb c NUL) && (folded cs c =? folded cs "F"%char))
         | _ => false
         end) [true; false])
    ltac:(vm_compute; reflexivity) c) as Hall.
  rewrite forallb_forall in Hall.
  specialize (Hall char_signed ltac:(destruct char_signed; cbn; auto)).
  apply orb_prop in Hall as [Hneg|Hok].
  - apply Z.ltb_lt in Hneg. lia.
  - destruct (toupper (gchar_int char_signed c)) as [u| |]; try discriminate.
    exists u. split; [reflexivity|].
    apply andb_prop in Hok as [Hok H3]. apply andb_prop in Hok as [H1 H2].
    apply Bool.eqb_prop in H1, H2, H3. auto.
Qed.

(** X25.  The [security-policy] item of the configuration file sets the
    policy exactly when its value is one of the words DOMESTIC, EXPORT and
    FRANCE, in any mix of cases; any other value, the empty one included,
    leaves the policy as it was.  One kind of value is outside of this:
    where [char] is signed, a first byte from 128 to 254 reaches [toupper]
    as a negative number other than [EOF], for which C defines nothing. *)
Theorem soup_config_security_policy_words
    (value : list ascii) (level : SoupSecurityPolicy) :
  soup_config_security_policy char_signed value level =
  if gchar_int char_signed (deref value) <? -1 then Undef
  else
    Done (if soup_str_case_equal char_signed value (bytes "DOMESTIC")
          then SOUP_SECURITY_DOMESTIC
          else if soup_str_case_equal char_signed value (bytes "EXPORT")
          then SOUP_SECURITY_EXPORT
          else if soup_str_case_equal char_signed value (bytes "FRANCE")
          then SOUP_SECURITY_FRANCE
          else level).
Proof.
  destruct (gchar_int char_signed (deref value) <? -1) eqn:Hlow.
  { unfold soup_config_security_policy, toupper. rewrite Hlow. reflexivity. }
  apply Z.ltb_ge in Hlow.
  unfold soup_config_security_policy, soup_str_case_equal, soup_set_security_policy.
  destruct (first_letter (deref value) Hlow) as (u & -> & HD & HE & HF).
  cbn [obind]. rewrite HD, HE, HF.
  assert (Hexcl : forall x y : ascii,
            folded char_signed x <> folded char_signed y ->
            forall c, (folded char_signed c =? folded char_signed x) = true ->
                      (folded char_signed c =? folded char_signed y) = false).
  { intros x y Hxy c Hc. apply Z.eqb_eq in Hc. apply Z.eqb_neq. congruence. }
  assert (HDE : folded char_signed "D"%char <> folded char_signed "E"%char)
    by (destruct char_signed; vm_compute; discriminate).
  assert (HDF : folded char_signed "D"%char <> folded char_signed "F"%char)
    by (destruct char_signed; vm_compute; discriminate).
  assert (HEF : folded char_signed "E"%char <> folded char_signed "F"%char)
    by (destruct char_signed; vm_compute; discriminate).
  assert (Hword : forall (w : ascii) (word : list ascii),
            Ascii.eqb w NUL = false ->
            (g_strcasecmp char_signed value (w :: word) =? 0) =
            negb (Ascii.eqb (deref value) NUL) &&
            (folded char_signed (deref value) =? folded char_signed w) &&
            (g_strcasecmp char_signed (tl value) word =? 0)).
  { intros w word Hw. destruct value as [|c rest].
    - cbn [g_strcasecmp deref tl]. change (Ascii.eqb NUL NUL) with true.
      cbn [negb andb]. apply Z.eqb_neq. change (code NUL) with 0.
      intros H. rewrite (code_nul w) in Hw by lia. discriminate.
    - cbn [g_strcasecmp deref tl]. rewrite Hw, orb_false_r.
      destruct (Ascii.eqb c NUL) eqn:Hc; cbn [negb andb].
      + apply Ascii.eqb_eq in Hc. subst c. apply Z.eqb_neq. change (code NUL) with 0.
        intros H. rewrite (code_nul w) in Hw by lia. discriminate.
      + destruct (folded char_signed c =? folded char_signed w) eqn:Hf;
          cbn [andb]; [reflexivity|].
        apply Z.eqb_neq in Hf. apply Z.eqb_neq. lia. }
  change (bytes "DOMESTIC") with ("D"%char :: bytes "OMESTIC").
  change (bytes "EXPORT") with ("E"%char :: bytes "XPORT").
  change (bytes "FRANCE") with ("F"%char :: bytes "RANCE").
  rewrite !Hword by reflexivity.
  destruct (negb (Ascii.eqb (deref value) NUL)); cbn [andb]; [|reflexivity].
  destruct (folded char_signed (deref value) =? folded char_signed "D"%char) eqn:H1.
  { rewrite (Hexcl _ _ HDE _ H1), (Hexcl _ _ HDF _ H1). cbn [andb].
    destruct (_ =? 0); reflexivity. }
  destruct (folded char_signed (deref value) =? folded char_signed "E"%char) eqn:H2.
  { rewrite (Hexcl _ _ HEF _ H2). cbn [andb]. destruct (_ =? 0); reflexivity. }
  cbn [andb].
  destruct (folded char_signed (deref value) =? folded char_signed "F"%char);
    cbn [andb]; [|reflexivity].
  destruct (_ =? 0); reflexivity.
Qed.

End ConfigPolicy.

Lemma soup_config_security_policy_words_witness :
  Config.soup_config_security_policy true (bytes "eXport") SOUP_SECURITY_DOMESTIC =
    Done SOUP_SECURITY_EXPORT /\
  Config.soup_config_security_policy true [] SOUP_SECURITY_FRANCE =
    Done SOUP_SECURITY_FRANCE /\
  Config.soup_config_security_policy true [ascii_of_N 255] SOUP_SECURITY_FRANCE =
    Done SOUP_SECURITY_FRANCE /\
  Config.soup_config_security_policy true [ascii_of_N 200] SOUP_SECURITY_FRANCE =
    Undef /\
  Config.soup_config_security_policy false [ascii_of_N 200] SOUP_SECURITY_FRANCE =
    Done SOUP_SECURITY_FRANCE.
Proof.
  rewrite !soup_config_security_policy_words.
  repeat split; vm_compute; reflexivity.
Defined.
